(** * Sales-Analytics-System: the data-transformation pipeline of
    [utils/data_processor.py] and [main.py], with the file reader of
    [utils/file_handler.py] and the catalog mapping of
    [utils/api_handler.py], embedded in Rocq.

    The Python code works on strings, unbounded integers, binary64 floats,
    lists and insertion-ordered dicts.  The embedding keeps these:
    - [str] is [string], a character being a code point below 256;
    - [int] is [Z];
    - [float] is [spec_float] at precision 53 and maximal exponent 1024, with
      the correctly rounded operations of [SpecFloat]; [int(s)], [float(s)],
      [round(x, 2)] and [str(x)] are defined on top of them;
    - a dict whose iteration order is observed is an association list in
      insertion order; the catalog mapping, only looked up, is a [gmap];
    - a raised exception is the [Raise] branch of [result].

    Three behaviours of the interpreter are fixed where versions or inputs
    leave a choice, each stated again where it is used: [sum] adds floats
    from left to right (as up to version 3.11); [sorted] is described for
    keys that [<] orders, that is without nan; [int] has no limit on the
    number of digits.

    The first part gives the functions of the source, in its order; the
    second the properties the claims state; the third the proofs.  Further
    properties of the same functions, and their proofs, follow each part. *)

From Stdlib Require Import String Ascii.
From Stdlib Require Import ZArith List Bool Lia Permutation Sorted.
From Stdlib Require Import Floats.SpecFloat.
From stdpp Require Import gmap strings.
Import ListNotations.
Open Scope string_scope.
Open Scope list_scope.

(** ** Exceptions *)

Inductive exn : Type :=
| ValueError
| TypeError
| ZeroDivisionError
| OverflowError.

Inductive result (A : Type) : Type :=
| Ok (a : A)
| Raise (e : exn).
Arguments Ok {A} a.
Arguments Raise {A} e.

Definition rbind {A B : Type} (r : result A) (k : A -> result B) : result B :=
  match r with
  | Ok a => k a
  | Raise e => Raise e
  end.

Notation "'do*' x <- c ; k" := (rbind c (fun x => k))
  (at level 10, x name, c at level 100, k at level 200).

(** A [for] loop whose body may raise: the state is threaded from left to
    right and the first exception leaves the loop. *)
Fixpoint for_each {A S : Type} (body : S -> A -> result S) (xs : list A) (st : S)
  : result S :=
  match xs with
  | [] => Ok st
  | x :: xs' => do* st' <- body st x; for_each body xs' st'
  end.

Definition raises {A : Type} (r : result A) (e : exn) : Prop := r = Raise e.

Definition returns {A : Type} (r : result A) : Prop := exists a, r = Ok a.

(** ** Strings *)

Module Str.

Definition code (c : ascii) : Z := Z.of_N (N_of_ascii c).

(** [str.isspace] on one character, for code points below 256. *)
Definition is_space (c : ascii) : bool :=
  let n := code c in
  ((9 <=? n) && (n <=? 13) || (28 <=? n) && (n <=? 32) || (n =? 133) || (n =? 160))%Z.

Definition is_digit (c : ascii) : bool :=
  let n := code c in ((48 <=? n) && (n <=? 57))%Z.

Definition digit_val (c : ascii) : Z := (code c - 48)%Z.

(** [s.split(sep)] for a separator of one character: never empty. *)
Fixpoint split (sep : ascii) (s : string) : list string :=
  match s with
  | EmptyString => [EmptyString]
  | String c r =>
      if Ascii.eqb c sep then EmptyString :: split sep r
      else match split sep r with
           | p :: ps => String c p :: ps
           | [] => [String c EmptyString]
           end
  end.

(** [sep.join(parts)]. *)
Fixpoint join (sep : string) (parts : list string) : string :=
  match parts with
  | [] => EmptyString
  | [p] => p
  | p :: ps => p +:+ sep +:+ join sep ps
  end.

(** [s.replace(old, new)] for [old] of one character. *)
Fixpoint replace (old : ascii) (new : string) (s : string) : string :=
  match s with
  | EmptyString => EmptyString
  | String c r =>
      if Ascii.eqb c old then new +:+ replace old new r
      else String c (replace old new r)
  end.

(** Stripping the characters that satisfy [space] from both ends. *)
Fixpoint lstrip (space : ascii -> bool) (s : string) : string :=
  match s with
  | EmptyString => EmptyString
  | String c r => if space c then lstrip space r else s
  end.

Fixpoint rstrip (space : ascii -> bool) (s : string) : string :=
  match s with
  | EmptyString => EmptyString
  | String c r =>
      match rstrip space r with
      | EmptyString => if space c then EmptyString else String c EmptyString
      | r' => String c r'
      end
  end.

(** [s.strip()]. *)
Definition strip (s : string) : string := rstrip is_space (lstrip is_space s).

(** [s.startswith(p)]. *)
Definition startswith (p s : string) : bool := String.prefix p s.

(** [s[1:]]. *)
Definition tail (s : string) : string :=
  match s with
  | EmptyString => EmptyString
  | String _ r => r
  end.

(** [c in s]. *)
Fixpoint contains (c : ascii) (s : string) : bool :=
  match s with
  | EmptyString => false
  | String d r => Ascii.eqb d c || contains c r
  end.

(** [a < b] on strings: lexicographic on code points. *)
Definition ltb (a b : string) : bool :=
  match String.compare a b with
  | Lt => true
  | _ => false
  end.

End Str.

(** ** Numbers *)

Module Num.

(** *** [int(s)] in base 10 *)

(** The characters after a first digit: digits, each optionally preceded
    by one underscore. *)
Fixpoint int_digits (s : string) (acc : Z) : option Z :=
  match s with
  | EmptyString => Some acc
  | String c r =>
      if Str.is_digit c then int_digits r (10 * acc + Str.digit_val c)%Z
      else if Ascii.eqb c "_" then
        match r with
        | String d r' =>
            if Str.is_digit d then int_digits r' (10 * acc + Str.digit_val d)%Z
            else None
        | EmptyString => None
        end
      else None
  end.

Definition int_unsigned (s : string) : option Z :=
  match s with
  | String d r => if Str.is_digit d then int_digits r (Str.digit_val d) else None
  | EmptyString => None
  end.

(** The whitespace [int] and [float] skip around a number: unlike
    [str.strip], not the separators 28 to 31. *)
Definition is_blank (c : ascii) : bool :=
  let n := Str.code c in
  ((9 <=? n) && (n <=? 13) || (n =? 32) || (n =? 133) || (n =? 160))%Z.

Definition trim (s : string) : string := Str.rstrip is_blank (Str.lstrip is_blank s).

(** [int(s)]: surrounding whitespace, an optional sign, then digits.
    [None] stands for [ValueError].  (The interpreter's configurable limit
    on the number of digits is not part of the model.) *)
Definition int (s : string) : option Z :=
  match trim s with
  | String "-" r => option_map Z.opp (int_unsigned r)
  | String "+" r => int_unsigned r
  | t => int_unsigned t
  end.

(** [str(n)] for an int. *)
Definition digit_char (d : Z) : ascii := ascii_of_N (Z.to_N (48 + d)).

Fixpoint digits_of_pos_fuel (fuel : nat) (n : Z) (acc : string) : string :=
  match fuel with
  | O => acc
  | S fuel' =>
      let acc' := String (digit_char (n mod 10)) acc in
      if (n <? 10)%Z then acc' else digits_of_pos_fuel fuel' (n / 10)%Z acc'
  end.

(** The decimal digits of [n >= 0]; a number has at most as many decimal
    digits as binary ones. *)
Definition digits_of (n : Z) : string :=
  digits_of_pos_fuel (S (Z.to_nat (Z.log2 n))) n EmptyString.

Definition str_int (n : Z) : string :=
  if (n <? 0)%Z then String "-" (digits_of (- n)) else digits_of n.

(** *** binary64 *)

Definition prec : Z := 53.
Definition emax : Z := 1024.

Definition float : Type := spec_float.

Definition fzero : float := S754_zero false.
Definition finf (neg : bool) : float := S754_infinity neg.
Definition fnan : float := S754_nan.

Definition fadd : float -> float -> float := SFadd prec emax.
Definition fmul : float -> float -> float := SFmul prec emax.
Definition fdiv : float -> float -> float := SFdiv prec emax.
Definition flt : float -> float -> bool := SFltb.
Definition fle : float -> float -> bool := SFleb.

Definition is_nan (x : float) : bool :=
  match x with
  | S754_nan => true
  | _ => false
  end.

Definition is_finite (x : float) : bool :=
  match x with
  | S754_zero _ | S754_finite _ _ _ => true
  | _ => false
  end.

(** [x == 0]: true of both zeros. *)
Definition is_zero (x : float) : bool :=
  match x with
  | S754_zero _ => true
  | _ => false
  end.

(** The float nearest to [n / d] (ties to even), with the given sign;
    [n >= 0].  Beyond the largest finite float the result is an infinity. *)
Definition of_ratio (neg : bool) (n : Z) (d : positive) : float :=
  match n with
  | Zpos p =>
      let '(mz, ez, lz) := SFdiv_core_binary prec emax (Zpos p) 0 (Zpos d) 0 in
      binary_round_aux prec emax neg mz ez lz
  | _ => S754_zero neg
  end.

(** The conversion of an int operand in mixed arithmetic: correctly
    rounded, [OverflowError] when the int is beyond the float range. *)
Definition of_int (n : Z) : result float :=
  match of_ratio (n <? 0)%Z (Z.abs n) 1 with
  | S754_infinity _ => Raise OverflowError
  | x => Ok x
  end.

(** [a / b] on floats. *)
Definition truediv (a b : float) : result float :=
  if is_zero b then Raise ZeroDivisionError else Ok (fdiv a b).

(** [a / b] on ints: the correctly rounded quotient. *)
Definition int_truediv (a b : Z) : result float :=
  match b with
  | Z0 => Raise ZeroDivisionError
  | _ =>
      match of_ratio (xorb (a <? 0)%Z (b <? 0)%Z) (Z.abs a) (Z.to_pos (Z.abs b)) with
      | S754_infinity _ => Raise OverflowError
      | x => Ok x
      end
  end.

(** *** [float(s)] *)

(** A run of digits: its value on top of [acc], its length, the rest. *)
Fixpoint take_digits (s : string) (acc : Z) (n : Z) : Z * Z * string :=
  match s with
  | String c r =>
      if Str.is_digit c then take_digits r (10 * acc + Str.digit_val c)%Z (n + 1)%Z
      else (acc, n, s)
  | EmptyString => (acc, n, s)
  end.

(** The exponent part: empty, or [e] or [E], an optional sign and at
    least one digit, up to the end of the string. *)
Definition exponent (s : string) : option Z :=
  match s with
  | EmptyString => Some 0%Z
  | String c r =>
      if Ascii.eqb c "e" || Ascii.eqb c "E" then
        let '(neg, r') :=
          match r with
          | String "-" t => (true, t)
          | String "+" t => (false, t)
          | _ => (false, r)
          end in
        match take_digits r' 0 0 with
        | (v, n, EmptyString) =>
            if (0 <? n)%Z then Some (if neg then (- v)%Z else v) else None
        | _ => None
        end
      else None
  end.

(** [mant * 10 ^ e], correctly rounded. *)
Definition of_decimal (neg : bool) (mant e : Z) : float :=
  if (0 <=? e)%Z then of_ratio neg (mant * 10 ^ e) 1
  else of_ratio neg mant (Z.to_pos (10 ^ (- e))).

(** Digits, an optional point and digits, an optional exponent; at least
    one digit before the exponent. *)
Definition decimal (neg : bool) (s : string) : option float :=
  let '(ip, ni, r1) := take_digits s 0 0 in
  let '(mant, nf, r2) :=
    match r1 with
    | String "." r => take_digits r ip 0
    | _ => (ip, 0%Z, r1)
    end in
  if (ni + nf =? 0)%Z then None
  else option_map (fun e => of_decimal neg mant (e - nf)) (exponent r2).

Definition lower (c : ascii) : ascii :=
  let n := Str.code c in
  if ((65 <=? n) && (n <=? 90))%Z then ascii_of_N (Z.to_N (n + 32)) else c.

Fixpoint lowercase (s : string) : string :=
  match s with
  | EmptyString => EmptyString
  | String c r => String (lower c) (lowercase r)
  end.

Definition unsigned_float (neg : bool) (s : string) : option float :=
  let l := lowercase s in
  if String.eqb l "inf" || String.eqb l "infinity" then Some (finf neg)
  else if String.eqb l "nan" then Some fnan
  else decimal neg s.

Definition signed_float (s : string) : option float :=
  match s with
  | String "-" r => unsigned_float true r
  | String "+" r => unsigned_float false r
  | _ => unsigned_float false s
  end.

(** Underscores are allowed between two digits only; [prev] is the
    previous character.  Returns the string without them. *)
Fixpoint drop_underscores (prev : ascii) (s : string) : option string :=
  match s with
  | EmptyString => if Ascii.eqb prev "_" then None else Some EmptyString
  | String c r =>
      if Ascii.eqb c "_" then
        if Str.is_digit prev then drop_underscores c r else None
      else if Ascii.eqb prev "_" && negb (Str.is_digit c) then None
      else option_map (String c) (drop_underscores c r)
  end.

(** [float(s)]; [None] stands for [ValueError]. *)
Definition float_of_str (s : string) : option float :=
  match drop_underscores "000" (trim s) with
  | Some t => signed_float t
  | None => None
  end.

(** *** [round(x, 2)] *)

(** The integer nearest to [n / d], ties to even; [n >= 0]. *)
Definition div_half_even (n : Z) (d : Z) : Z :=
  let q := (n / d)%Z in
  let r := (n mod d)%Z in
  match (2 * r ?= d)%Z with
  | Lt => q
  | Gt => (q + 1)%Z
  | Eq => if Z.even q then q else (q + 1)%Z
  end.

(** [round(x, 2)]: the float nearest to the decimal with two places
    nearest to [x]; infinities and nan are returned as they are. *)
Definition round2 (x : float) : float :=
  match x with
  | S754_finite neg m e =>
      let hundredths :=
        if (0 <=? e)%Z then (Zpos m * 2 ^ e * 100)%Z
        else div_half_even (Zpos m * 100) (2 ^ (- e)) in
      of_ratio neg hundredths 100
  | _ => x
  end.

(** *** [str(x)] for a float

    The shortest decimal string that reads back as [x] and, among those,
    the one nearest to [x]; positional notation for decimal exponents
    from -4 to 15, exponent notation otherwise. *)

(** The value [num / den] of a positive finite float. *)
Definition ratio_of (m : positive) (e : Z) : Z * Z :=
  if (0 <=? e)%Z then (Zpos m * 2 ^ e, 1)%Z else (Zpos m, 2 ^ (- e))%Z.

(** For [num < den]: the least [k >= 1] with [num * 10 ^ k >= den]. *)
Fixpoint leading_zeros (fuel : nat) (num den k : Z) : Z :=
  match fuel with
  | O => k
  | S fuel' =>
      if (den <=? num * 10)%Z then k
      else leading_zeros fuel' (num * 10) den (k + 1)
  end.

(** The position of the decimal point: [10 ^ (decpt - 1) <= num / den <
    10 ^ decpt]. *)
Definition decimal_point (num den : Z) : Z :=
  if (den <=? num)%Z then Z.of_nat (String.length (digits_of (num / den)))
  else (1 - leading_zeros (S (Z.to_nat (Z.log2 den))) num den 1)%Z.

(** The candidates with [k] digits around [num / den]: the decimal just
    below, the decimal just above, and which of them is nearer (the first
    component of the result), as integers scaled by [10 ^ (k - decpt)]. *)
Definition candidates (num den decpt k : Z) : Z * Z :=
  let t := (k - decpt)%Z in
  let '(n', d') := if (0 <=? t)%Z then (num * 10 ^ t, den)%Z else (num, den * 10 ^ (- t))%Z in
  let lo := (n' / d')%Z in
  let r := (n' mod d')%Z in
  match (2 * r ?= d')%Z with
  | Lt => (lo, lo + 1)%Z
  | Gt => (lo + 1, lo)%Z
  | Eq => if Z.even lo then (lo, lo + 1)%Z else (lo + 1, lo)%Z
  end.

Definition reads_back (x : float) (digits scale : Z) : bool :=
  match x, of_decimal false digits scale with
  | S754_finite _ m e, S754_finite _ m' e' => Pos.eqb m m' && Z.eqb e e'
  | _, _ => false
  end.

(** The shortest digits, from [k] digits on, trying [fuel] lengths. *)
Fixpoint shortest (fuel : nat) (x : float) (num den decpt k : Z) : Z * Z :=
  let '(near, far) := candidates num den decpt k in
  match fuel with
  | O => (near, k)
  | S fuel' =>
      if reads_back x near (decpt - k) then (near, k)
      else if reads_back x far (decpt - k) then (far, k)
      else shortest fuel' x num den decpt (k + 1)
  end.

Fixpoint strip_zeros (fuel : nat) (d : Z) (k : Z) : Z * Z :=
  match fuel with
  | O => (d, k)
  | S fuel' =>
      if ((d mod 10 =? 0) && (0 <? d))%Z then strip_zeros fuel' (d / 10)%Z (k - 1)%Z
      else (d, k)
  end.

Fixpoint zeros (n : nat) : string :=
  match n with
  | O => EmptyString
  | S n' => String "0" (zeros n')
  end.

Definition str_exponent (e : Z) : string :=
  let a := digits_of (Z.abs e) in
  String "e" (String (if (e <? 0)%Z then "-" else "+")%char
    (if (Z.abs e <? 10)%Z then String "0" a else a)).

(** The digit string [ds] with the decimal point after [decpt] digits. *)
Definition str_digits (ds : string) (decpt : Z) : string :=
  let n := Z.of_nat (String.length ds) in
  if ((16 <? decpt) || (decpt <? -3))%Z then
    match ds with
    | String d EmptyString => String d (str_exponent (decpt - 1))
    | String d r => String d (String "." r) +:+ str_exponent (decpt - 1)
    | EmptyString => EmptyString
    end
  else if (decpt <=? 0)%Z then "0." +:+ zeros (Z.to_nat (- decpt)) +:+ ds
  else if (decpt <? n)%Z then
    String.substring 0 (Z.to_nat decpt) ds +:+ "." +:+
    String.substring (Z.to_nat decpt) (Z.to_nat (n - decpt)) ds
  else ds +:+ zeros (Z.to_nat (decpt - n)) +:+ ".0".

Definition str_float (x : float) : string :=
  match x with
  | S754_nan => "nan"
  | S754_infinity neg => if neg then "-inf" else "inf"
  | S754_zero neg => if neg then "-0.0" else "0.0"
  | S754_finite neg m e =>
      let '(num, den) := ratio_of m e in
      let decpt := decimal_point num den in
      let '(d, k) := shortest 16 x num den decpt 1 in
      let '(d', k') := strip_zeros 17 d k in
      (* the candidate above may have one digit more: 9.99 -> 10.0 *)
      let ds := digits_of d' in
      let decpt' := (decpt + (Z.of_nat (String.length ds) - k'))%Z in
      (if neg then "-" else "") +:+ str_digits ds decpt'
  end.

(** *** Mixed arithmetic *)

Inductive number : Type :=
| Int (n : Z)
| Float (x : float).

Definition to_float (a : number) : result float :=
  match a with
  | Int n => of_int n
  | Float x => Ok x
  end.

(** [a + b]. *)
Definition add (a b : number) : result number :=
  match a, b with
  | Int x, Int y => Ok (Int (x + y))
  | _, _ =>
      do* x <- to_float a;
      do* y <- to_float b;
      Ok (Float (fadd x y))
  end.

(** [a * b]. *)
Definition mul (a b : number) : result number :=
  match a, b with
  | Int x, Int y => Ok (Int (x * y))
  | _, _ =>
      do* x <- to_float a;
      do* y <- to_float b;
      Ok (Float (fmul x y))
  end.

(** [a / b]: always a float. *)
Definition div (a b : number) : result float :=
  match a, b with
  | Int x, Int y => int_truediv x y
  | _, _ =>
      do* x <- to_float a;
      do* y <- to_float b;
      truediv x y
  end.

End Num.

(** ** Lists and dicts *)

(** [sorted(l, key=key)] and, with [reverse], [sorted(l, key=key,
    reverse=True)]: a stable sort that compares keys with [<] only.  An
    element goes after the elements already placed that it does not
    precede.  (With keys that [<] does not order totally, as with a nan, the
    interpreter's merge sort may place elements differently; the statements
    on order below assume keys without nan.) *)
Section Sorting.
Context {A K : Type} (lt : K -> K -> bool) (key : A -> K).

Definition precedes (reverse : bool) (x y : A) : bool :=
  if reverse then lt (key y) (key x) else lt (key x) (key y).

Fixpoint insert_sorted (reverse : bool) (x : A) (l : list A) : list A :=
  match l with
  | [] => [x]
  | y :: l' =>
      if precedes reverse x y then x :: y :: l'
      else y :: insert_sorted reverse x l'
  end.

Definition sorted (reverse : bool) (l : list A) : list A :=
  fold_left (fun acc x => insert_sorted reverse x acc) l [].

(** [max(l, key=key)]: the first element no later element exceeds. *)
Definition max_by (first : A) (rest : list A) : A :=
  fold_left (fun best x => if lt (key best) (key x) then x else best) rest first.
End Sorting.

(** A dict in insertion order.  [upsert k init f d] is
    [if k not in d: d[k] = init] followed by [d[k] = f(d[k])]. *)
Fixpoint upsert {V : Type} (k : string) (init : V) (f : V -> V)
  (d : list (string * V)) : list (string * V) :=
  match d with
  | [] => [(k, f init)]
  | (k', v) :: d' =>
      if String.eqb k' k then (k', f v) :: d' else (k', v) :: upsert k init f d'
  end.

(** ** Records *)

Record Transaction : Type := {
  TransactionID : string;
  Date : string;
  ProductID : string;
  ProductName : string;
  Quantity : Z;
  UnitPrice : Num.float;
  CustomerID : string;
  Region : string
}.

Record CatalogEntry : Type := {
  title : string;
  category : string;
  brand : string;
  rating : Num.float
}.

(** [tx.copy()] updated with the four API keys. *)
Record EnrichedTransaction : Type := {
  base : Transaction;
  API_Category : option string;
  API_Brand : option string;
  API_Rating : option Num.float;
  API_Match : bool
}.

(** [t['Quantity'] * t['UnitPrice']]. *)
Definition amount (t : Transaction) : result Num.float :=
  do* q <- Num.of_int (Quantity t);
  Ok (Num.fmul q (UnitPrice t)).

(** ** [parse_transactions] *)

Definition int_or_raise (s : string) : result Z :=
  match Num.int s with
  | Some n => Ok n
  | None => Raise ValueError
  end.

Definition float_or_raise (s : string) : result Num.float :=
  match Num.float_of_str s with
  | Some x => Ok x
  | None => Raise ValueError
  end.

(** [parts[i]], on a list known to have eight elements. *)
Definition part (parts : list string) (i : nat) : string := nth i parts EmptyString.

(** The body of the [try] block, up to the dict. *)
Definition build_transaction (parts : list string) : result Transaction :=
  let product_name := Str.replace "," " " (part parts 3) in
  let qty_str := Str.replace "," "" (part parts 4) in
  let price_str := Str.replace "," "" (part parts 5) in
  do* quantity <- int_or_raise qty_str;
  do* unit_price <- float_or_raise price_str;
  Ok {| TransactionID := Str.strip (part parts 0);
        Date := Str.strip (part parts 1);
        ProductID := Str.strip (part parts 2);
        ProductName := Str.strip product_name;
        Quantity := quantity;
        UnitPrice := unit_price;
        CustomerID := Str.strip (part parts 6);
        Region := Str.strip (part parts 7) |}.

(** One iteration: [continue] leaves [parsed_data] as it is; only
    [ValueError] is caught. *)
Definition parse_step (parsed_data : list Transaction) (line : string)
  : result (list Transaction) :=
  let parts := Str.split "|" line in
  if negb (Nat.eqb (List.length parts) 8) then Ok parsed_data
  else
    match build_transaction parts with
    | Ok transaction => Ok (parsed_data ++ [transaction])
    | Raise ValueError => Ok parsed_data
    | Raise e => Raise e
    end.

Definition parse_transactions (raw_lines : list string) : result (list Transaction) :=
  for_each parse_step raw_lines [].

(** ** [validate_and_filter] *)

(** [is_valid] after the six [if] statements of the loop body. *)
Definition is_valid (tx : Transaction) : bool :=
  let is_valid := true in
  let is_valid := if negb (Str.startswith "T" (TransactionID tx)) then false else is_valid in
  let is_valid := if negb (Str.startswith "P" (ProductID tx)) then false else is_valid in
  let is_valid := if negb (Str.startswith "C" (CustomerID tx)) then false else is_valid in
  let is_valid := if (Quantity tx <=? 0)%Z then false else is_valid in
  let is_valid := if Num.fle (UnitPrice tx) Num.fzero then false else is_valid in
  let is_valid :=
    if String.eqb (CustomerID tx) "" || String.eqb (Region tx) "" then false
    else is_valid in
  is_valid.

Definition validate_step (st : list Transaction * nat) (tx : Transaction)
  : list Transaction * nat :=
  let '(valid_after_rules, invalid_count) := st in
  if is_valid tx then (valid_after_rules ++ [tx], invalid_count)
  else (valid_after_rules, S invalid_count).

(** [[t for t in l if keep(t)]], where [keep] may raise. *)
Definition comprehension {A : Type} (keep : A -> result bool) (l : list A)
  : result (list A) :=
  for_each (fun acc t => do* b <- keep t; Ok (if b then acc ++ [t] else acc)) l [].

Record Summary : Type := {
  total_input : nat;
  invalid : nat;
  final_count : nat
}.

(** A string is true when it is not empty; [None] is false. *)
Definition truthy (region : option string) : bool :=
  match region with
  | Some r => negb (String.eqb r "")
  | None => false
  end.

(** [t['Region'] == region]: a string never equals [None]. *)
Definition eq_region (r : string) (region : option string) : bool :=
  match region with
  | Some r' => String.eqb r r'
  | None => false
  end.

Definition validate_and_filter (transactions : list Transaction)
  (region : option string) (min_amount max_amount : option Num.float)
  : result (list Transaction * nat * Summary) :=
  let '(valid_after_rules, invalid_count) :=
    fold_left validate_step transactions ([], 0) in
  let filtered_list := valid_after_rules in
  do* filtered_list <-
    if truthy region
    then comprehension (fun t => Ok (eq_region (Region t) region)) filtered_list
    else Ok filtered_list;
  do* filtered_list <-
    match min_amount with
    | Some lo => comprehension (fun t => do* a <- amount t; Ok (Num.fle lo a)) filtered_list
    | None => Ok filtered_list
    end;
  do* filtered_list <-
    match max_amount with
    | Some hi => comprehension (fun t => do* a <- amount t; Ok (Num.fle a hi)) filtered_list
    | None => Ok filtered_list
    end;
  let summary := {| total_input := List.length transactions;
                    invalid := invalid_count;
                    final_count := List.length filtered_list |} in
  Ok (filtered_list, invalid_count, summary).

(** ** The aggregator *)

(** [sum(t['Quantity'] * t['UnitPrice'] for t in transactions)]: the sum
    starts from the int [0] and adds from left to right, as the interpreter
    does up to version 3.11.  (From 3.12 on [sum] also carries the rounding
    errors of its float additions in a compensation term, added at the end:
    [sum_compensated] below.  The model is the former; the example that
    settles C8 is evaluated under both.) *)
Definition calculate_total_revenue (transactions : list Transaction) : result Num.number :=
  for_each (fun acc t => do* a <- amount t; Num.add acc (Num.Float a))
    transactions (Num.Int 0).

Record RegionTotals : Type := {
  rt_total_sales : Num.float;
  rt_transaction_count : nat
}.

Record RegionStats : Type := {
  total_sales : Num.float;
  transaction_count : nat;
  percentage : Num.float
}.

Definition hundred : Num.number := Num.Int 100.

(** [round((total_sales / total_rev) * 100, 2)]. *)
Definition region_percentage (sales : Num.float) (total_rev : Num.number)
  : result Num.float :=
  do* share <- Num.div (Num.Float sales) total_rev;
  do* pct <- Num.mul (Num.Float share) hundred;
  do* pct <- Num.to_float pct;
  Ok (Num.round2 pct).

Definition region_step (stats : list (string * RegionTotals)) (t : Transaction)
  : result (list (string * RegionTotals)) :=
  let region := Region t in
  do* rev <- amount t;
  Ok (upsert region
        {| rt_total_sales := Num.fzero; rt_transaction_count := 0 |}
        (fun s => {| rt_total_sales := Num.fadd (rt_total_sales s) rev;
                     rt_transaction_count := S (rt_transaction_count s) |})
        stats).

(** The second loop: [stats[region]['percentage'] = ...]. *)
Definition percentage_step (total_rev : Num.number)
  (done : list (string * RegionStats)) (entry : string * RegionTotals)
  : result (list (string * RegionStats)) :=
  let '(region, s) := entry in
  do* pct <- region_percentage (rt_total_sales s) total_rev;
  Ok (done ++ [(region, {| total_sales := rt_total_sales s;
                           transaction_count := rt_transaction_count s;
                           percentage := pct |})]).

Definition region_wise_sales (transactions : list Transaction)
  : result (list (string * RegionStats)) :=
  do* total_rev <- calculate_total_revenue transactions;
  do* stats <- for_each region_step transactions [];
  do* stats <- for_each (percentage_step total_rev) stats [];
  Ok (sorted Num.flt (fun item => total_sales (snd item)) true stats).

Definition product_step (product_data : list (string * (Z * Num.float)))
  (t : Transaction) : result (list (string * (Z * Num.float))) :=
  let name := ProductName t in
  do* rev <- amount t;
  Ok (upsert name (0%Z, Num.fzero)
        (fun d => ((fst d + Quantity t)%Z, Num.fadd (snd d) rev))
        product_data).

Definition top_selling_products (transactions : list Transaction) (n : nat)
  : result (list (string * Z * Num.float)) :=
  do* product_data <- for_each product_step transactions [];
  let result := map (fun e => (fst e, fst (snd e), snd (snd e))) product_data in
  let result := sorted Z.ltb (fun x => snd (fst x)) true result in
  Ok (firstn n result).

Record CustomerTotals : Type := {
  ct_total_spent : Num.float;
  ct_purchase_count : nat;
  ct_products_bought : gset string
}.

Record CustomerStats : Type := {
  total_spent : Num.float;
  purchase_count : nat;
  products_bought : list string;
  avg_order_value : Num.float
}.

Definition customer_step (cust_stats : list (string * CustomerTotals))
  (t : Transaction) : result (list (string * CustomerTotals)) :=
  let cid := CustomerID t in
  do* spent <- amount t;
  Ok (upsert cid
        {| ct_total_spent := Num.fzero; ct_purchase_count := 0; ct_products_bought := ∅ |}
        (fun s => {| ct_total_spent := Num.fadd (ct_total_spent s) spent;
                     ct_purchase_count := S (ct_purchase_count s);
                     ct_products_bought := ct_products_bought s ∪ {[ ProductName t ]} |})
        cust_stats).

(** [round(total_spent / purchase_count, 2)]. *)
Definition customer_average (spent : Num.float) (count : nat) : result Num.float :=
  do* avg <- Num.div (Num.Float spent) (Num.Int (Z.of_nat count));
  Ok (Num.round2 avg).

(** [sorted(list(s))] for a set of strings. *)
Definition sorted_strings (s : gset string) : list string :=
  sorted Str.ltb (fun x => x) false (elements s).

Definition customer_analysis (transactions : list Transaction)
  : result (list (string * CustomerStats)) :=
  do* cust_stats <- for_each customer_step transactions [];
  do* cust_stats <-
    for_each (fun acc entry =>
                let '(cid, s) := entry in
                do* avg <- customer_average (ct_total_spent s) (ct_purchase_count s);
                Ok (acc ++ [(cid, {| total_spent := ct_total_spent s;
                                     purchase_count := ct_purchase_count s;
                                     products_bought := sorted_strings (ct_products_bought s);
                                     avg_order_value := avg |})]))
      cust_stats [];
  Ok (sorted Num.flt (fun x => total_spent (snd x)) true cust_stats).

Definition low_performing_products (transactions : list Transaction) (threshold : Z)
  : list (string * Z) :=
  let product_data :=
    fold_left (fun d t => upsert (ProductName t) 0%Z (fun q => (q + Quantity t)%Z) d)
      transactions [] in
  let low_perf := List.filter (fun e => (snd e <? threshold)%Z) product_data in
  sorted Z.ltb snd false low_perf.

Record DayTotals : Type := {
  dt_revenue : Num.float;
  dt_transaction_count : nat;
  dt_unique_customers : gset string
}.

Record DayStats : Type := {
  revenue : Num.float;
  day_transaction_count : nat;
  unique_customers : nat
}.

Definition day_step (trend : list (string * DayTotals)) (t : Transaction)
  : result (list (string * DayTotals)) :=
  let date := Date t in
  do* rev <- amount t;
  Ok (upsert date
        {| dt_revenue := Num.fzero; dt_transaction_count := 0; dt_unique_customers := ∅ |}
        (fun s => {| dt_revenue := Num.fadd (dt_revenue s) rev;
                     dt_transaction_count := S (dt_transaction_count s);
                     dt_unique_customers := dt_unique_customers s ∪ {[ CustomerID t ]} |})
        trend).

(** The keys of [trend] are distinct, so sorting the entries by key is
    [for d in sorted(trend.keys())] with [trend[d]]. *)
Definition daily_sales_trend (transactions : list Transaction)
  : result (list (string * DayStats)) :=
  do* trend <- for_each day_step transactions [];
  Ok (map (fun e => (fst e, {| revenue := Num.round2 (dt_revenue (snd e));
                               day_transaction_count := dt_transaction_count (snd e);
                               unique_customers := size (dt_unique_customers (snd e)) |}))
        (sorted Str.ltb fst false trend)).

(** [None] for an empty trend, else the first day of greatest revenue. *)
Definition find_peak_sales_day (transactions : list Transaction)
  : result (option (string * Num.float * nat)) :=
  do* trend <- daily_sales_trend transactions;
  match trend with
  | [] => Ok None
  | first :: rest =>
      let peak := max_by Num.flt (fun e => revenue (snd e)) first rest in
      Ok (Some (fst peak, revenue (snd peak), day_transaction_count (snd peak)))
  end.

(** ** [enrich_sales_data] *)

(** [int(tx['ProductID'][1:])], or [-1] on any exception. *)
Definition prod_id_num (tx : Transaction) : Z :=
  match Num.int (Str.tail (ProductID tx)) with
  | Some n => n
  | None => (-1)%Z
  end.

(** The body of the loop up to the [append]: the copy of [tx] with the four
    API keys. *)
Definition enriched_tx (product_mapping : gmap Z CatalogEntry) (tx : Transaction)
  : EnrichedTransaction :=
  match product_mapping !! prod_id_num tx with
  | Some info =>
      {| base := tx;
         API_Category := Some (category info);
         API_Brand := Some (brand info);
         API_Rating := Some (rating info);
         API_Match := true |}
  | None =>
      {| base := tx;
         API_Category := None;
         API_Brand := None;
         API_Rating := None;
         API_Match := false |}
  end.

Definition enrich_step (product_mapping : gmap Z CatalogEntry)
  (enriched_list : list EnrichedTransaction) (tx : Transaction)
  : list EnrichedTransaction :=
  enriched_list ++ [enriched_tx product_mapping tx].

Definition enrich_sales_data (transactions : list Transaction)
  (product_mapping : gmap Z CatalogEntry) : list EnrichedTransaction :=
  fold_left (enrich_step product_mapping) transactions [].

(** ** [save_enriched_data] *)

(** The values a record holds. *)
Inductive value : Type :=
| VStr (s : string)
| VInt (n : Z)
| VFloat (x : Num.float)
| VBool (b : bool)
| VNone.

(** [str(v)]. *)
Definition str (v : value) : string :=
  match v with
  | VStr s => s
  | VInt n => Num.str_int n
  | VFloat x => Num.str_float x
  | VBool b => if b then "True" else "False"
  | VNone => "None"
  end.

Definition of_option {A : Type} (f : A -> value) (o : option A) : value :=
  match o with
  | Some a => f a
  | None => VNone
  end.

(** [tx.get(h, default)]: an enriched transaction has these twelve keys. *)
Definition get (tx : EnrichedTransaction) (h : string) (default : value) : value :=
  if String.eqb h "TransactionID" then VStr (TransactionID (base tx))
  else if String.eqb h "Date" then VStr (Date (base tx))
  else if String.eqb h "ProductID" then VStr (ProductID (base tx))
  else if String.eqb h "ProductName" then VStr (ProductName (base tx))
  else if String.eqb h "Quantity" then VInt (Quantity (base tx))
  else if String.eqb h "UnitPrice" then VFloat (UnitPrice (base tx))
  else if String.eqb h "CustomerID" then VStr (CustomerID (base tx))
  else if String.eqb h "Region" then VStr (Region (base tx))
  else if String.eqb h "API_Category" then of_option VStr (API_Category tx)
  else if String.eqb h "API_Brand" then of_option VStr (API_Brand tx)
  else if String.eqb h "API_Rating" then of_option VFloat (API_Rating tx)
  else if String.eqb h "API_Match" then VBool (API_Match tx)
  else default.

Definition headers : list string :=
  ["TransactionID"; "Date"; "ProductID"; "ProductName"; "Quantity"; "UnitPrice";
   "CustomerID"; "Region"; "API_Category"; "API_Brand"; "API_Rating"; "API_Match"].

Definition newline : string := String "010" EmptyString.

Definition row (tx : EnrichedTransaction) : list string :=
  map (fun h => str (get tx h (VStr "None"))) headers.

(** The successive arguments of [f.write]: the header line, then one line
    per record.  The file holds their concatenation. *)
Definition save_enriched_data (enriched_transactions : list EnrichedTransaction)
  : list string :=
  fold_left (fun written tx => written ++ [Str.join "|" (row tx) +:+ newline])
    enriched_transactions
    [Str.join "|" headers +:+ newline].

(** ** [generate_sales_report] *)

(** [min(l)] and [max(l)] on a non-empty list of strings. *)
Definition min_str (first : string) (rest : list string) : string :=
  fold_left (fun best x => if Str.ltb x best then x else best) rest first.

Definition max_str (first : string) (rest : list string) : string :=
  fold_left (fun best x => if Str.ltb best x then x else best) rest first.

(** The values the report text is rendered from (step 2 of the function);
    the fixed text layout and the write to the file are not modelled. *)
Record Report : Type := {
  report_total_rev : Num.number;
  report_total_tx : nat;
  report_avg_order : Num.number;
  report_date_range : string;
  report_reg_stats : list (string * RegionStats);
  report_top_prods : list (string * Z * Num.float);
  report_trend : list (string * DayStats);
  report_peak_day : string;
  report_peak_rev : Num.float;
  report_low_prods : list (string * Z);
  report_total_enriched : nat;
  report_success_rate : Num.number;
  report_failed_products : list string
}.

(** [total_rev / total_tx if total_tx > 0 else 0]. *)
Definition average_order (total_rev : Num.number) (total_tx : nat) : result Num.number :=
  if (0 <? total_tx)%nat
  then do* q <- Num.div total_rev (Num.Int (Z.of_nat total_tx)); Ok (Num.Float q)
  else Ok (Num.Int 0).

(** [(total_enriched / len(enriched_transactions) * 100) if
    enriched_transactions else 0]. *)
Definition success_rate (total_enriched : nat) (enriched : list EnrichedTransaction)
  : result Num.number :=
  match enriched with
  | [] => Ok (Num.Int 0)
  | _ =>
      do* q <- Num.div (Num.Int (Z.of_nat total_enriched))
                 (Num.Int (Z.of_nat (List.length enriched)));
      Num.mul (Num.Float q) hundred
  end.

Definition generate_sales_report (transactions : list Transaction)
  (enriched_transactions : list EnrichedTransaction) : result Report :=
  do* total_rev <- calculate_total_revenue transactions;
  let total_tx := List.length transactions in
  do* avg_order <- average_order total_rev total_tx;
  let dates := map Date transactions in
  let date_range :=
    match dates with
    | d :: ds => min_str d ds +:+ " to " +:+ max_str d ds
    | [] => "N/A"
    end in
  do* reg_stats <- region_wise_sales transactions;
  do* top_prods <- top_selling_products transactions 5;
  do* trend <- daily_sales_trend transactions;
  do* peak <- find_peak_sales_day transactions;
  (* [peak_day, peak_rev, _ = ...]: [None] cannot be unpacked *)
  do* peak <- match peak with
              | Some p => Ok p
              | None => Raise TypeError
              end;
  let '(peak_day, peak_rev, _) := peak in
  let low_prods := low_performing_products transactions 10 in
  let total_enriched := List.length (List.filter API_Match enriched_transactions) in
  do* rate <- success_rate total_enriched enriched_transactions;
  let failed_products :=
    sorted_strings
      (list_to_set (map (fun t => ProductName (base t))
                      (List.filter (fun t => negb (API_Match t)) enriched_transactions))) in
  Ok {| report_total_rev := total_rev;
        report_total_tx := total_tx;
        report_avg_order := avg_order;
        report_date_range := date_range;
        report_reg_stats := reg_stats;
        report_top_prods := top_prods;
        report_trend := trend;
        report_peak_day := peak_day;
        report_peak_rev := peak_rev;
        report_low_prods := low_prods;
        report_total_enriched := total_enriched;
        report_success_rate := rate;
        report_failed_products := failed_products |}.

(** ** [main] *)

(** [min(l)] and [max(l)] on floats; [ValueError] on an empty list. *)
Definition min_max (amounts : list Num.float) : result (Num.float * Num.float) :=
  match amounts with
  | [] => Raise ValueError
  | a :: rest =>
      Ok (fold_left (fun best x => if Num.flt x best then x else best) rest a,
          fold_left (fun best x => if Num.flt best x then x else best) rest a)
  end.

(** [[t['Quantity'] * t['UnitPrice'] for t in parsed_data]]. *)
Definition amounts_of (parsed_data : list Transaction) : result (list Num.float) :=
  for_each (fun acc t => do* a <- amount t; Ok (acc ++ [a])) parsed_data [].

(** The answers typed at the three prompts. *)
Record Answers : Type := {
  do_filter : string;
  region_answer : string;
  min_answer : string
}.

(** [input(...).strip() or None]. *)
Definition or_none (s : string) : option string :=
  match Str.strip s with
  | EmptyString => None
  | r => Some r
  end.

(** What a run leaves behind: the lines of the enriched file and the
    values of the report. *)
Record Outcome : Type := {
  enriched_file : list string;
  report : Report
}.

(** The steps of [main] on the lines read from the input file, the answers
    of the user and the mapping built from the catalog.  [Ok None] is the
    early [return] on an empty file; [Raise] is the path through the
    handler, which prints the error and exits with status 1. *)
Definition main (raw_lines : list string) (answers : Answers)
  (mapping : gmap Z CatalogEntry) : result (option Outcome) :=
  match raw_lines with
  | [] => Ok None
  | _ =>
      do* parsed_data <- parse_transactions raw_lines;
      do* amounts <- amounts_of parsed_data;
      do* range <- min_max amounts;
      do* filters <-
        if String.eqb (Num.lowercase (do_filter answers)) "y" then
          let sel_region := or_none (region_answer answers) in
          match Str.strip (min_answer answers) with
          | EmptyString => Ok (sel_region, None)
          | min_input =>
              do* lo <- float_or_raise min_input;
              Ok (sel_region, Some lo)
          end
        else Ok (None, None);
      do* validated <- validate_and_filter parsed_data (fst filters) (snd filters) None;
      let '(clean_tx, invalid_count, summary) := validated in
      let enriched_tx := enrich_sales_data clean_tx mapping in
      let written := save_enriched_data enriched_tx in
      do* rep <- generate_sales_report clean_tx enriched_tx;
      Ok (Some {| enriched_file := written; report := rep |})
  end.

(** ** [read_sales_data] (utils/file_handler.py) *)

Inductive encoding : Type :=
| utf_8
| latin_1
| cp1252.

(** What [open(filename, 'r', encoding=enc)] followed by [readlines()]
    comes to: the lines of the file, or one of the two exceptions the
    function handles.  (Any other exception leaves the function and is not
    part of the model.) *)
Inductive reading : Type :=
| Lines (lines : list string)
| UnicodeDecodeError
| FileNotFoundError.

Definition encodings : list encoding := [utf_8; latin_1; cp1252].

(** [[line.strip() for line in lines[1:] if line.strip()]]. *)
Definition stripped_lines (lines : list string) : list string :=
  map Str.strip
    (List.filter (fun line => negb (String.eqb (Str.strip line) "")) (List.tl lines)).

(** The loop over the encodings: the first one that reads decides; a
    decoding error goes on to the next encoding, a missing file ends the
    function with the empty list, as does the end of the loop. *)
Fixpoint read_with (open_file : encoding -> reading) (encs : list encoding)
  : list string :=
  match encs with
  | [] => []
  | enc :: encs' =>
      match open_file enc with
      | Lines lines => stripped_lines lines
      | UnicodeDecodeError => read_with open_file encs'
      | FileNotFoundError => []
      end
  end.

Definition read_sales_data (open_file : encoding -> reading) : list string :=
  read_with open_file encodings.

(** ** [create_product_mapping] (utils/api_handler.py) *)

(** A product as the API returns it, with the five keys the function
    reads, each of which may be missing: an int id, three strings and a
    float rating. *)
Record Item : Type := {
  item_id : option Z;
  item_title : option string;
  item_category : option string;
  item_brand : option string;
  item_rating : option Num.float
}.

(** The value stored for an item: [item.get(key, default)] four times. *)
Definition entry_of (item : Item) : CatalogEntry :=
  {| title := default "Unknown Product" (item_title item);
     category := default "General" (item_category item);
     brand := default "Generic" (item_brand item);
     rating := default Num.fzero (item_rating item) |}.

(** [mapping[item['id']] = {...}] for each item in turn.  [None] stands
    for the [KeyError] of an item without an id, which leaves the loop. *)
Definition create_product_mapping (api_products : list Item)
  : option (gmap Z CatalogEntry) :=
  fold_left (fun mapping item =>
               match mapping, item_id item with
               | Some m, Some k => Some (<[k := entry_of item]> m)
               | _, _ => None
               end)
    api_products (Some ∅).

(** * Specifications

    The properties the claims state, in the words of the spec, and the
    sample records the examples run on. *)

(** ** The parser (C3) *)

(** The spec's condition for a line to be kept: eight fields, and the
    quantity and price fields convert once their commas are removed. *)
Definition quantity_field (line : string) : string :=
  Str.replace "," "" (part (Str.split "|" line) 4).

Definition price_field (line : string) : string :=
  Str.replace "," "" (part (Str.split "|" line) 5).

Definition well_formed (line : string) : Prop :=
  List.length (Str.split "|" line) = 8 /\
  is_Some (Num.int (quantity_field line)) /\
  is_Some (Num.float_of_str (price_field line)).

(** The record the spec describes for a kept line. *)
Definition record_of (line : string) (tx : Transaction) : Prop :=
  let parts := Str.split "|" line in
  TransactionID tx = Str.strip (part parts 0) /\
  Date tx = Str.strip (part parts 1) /\
  ProductID tx = Str.strip (part parts 2) /\
  ProductName tx = Str.strip (Str.replace "," " " (part parts 3)) /\
  Num.int (quantity_field line) = Some (Quantity tx) /\
  Num.float_of_str (price_field line) = Some (UnitPrice tx) /\
  CustomerID tx = Str.strip (part parts 6) /\
  Region tx = Str.strip (part parts 7).

(** The output the spec describes: the records of the well-formed lines,
    in the order of the lines. *)
Inductive parsed : list string -> list Transaction -> Prop :=
| parsed_nil : parsed [] []
| parsed_skip line lines txs :
    ~ well_formed line -> parsed lines txs -> parsed (line :: lines) txs
| parsed_keep line lines tx txs :
    well_formed line -> record_of line tx -> parsed lines txs ->
    parsed (line :: lines) (tx :: txs).

(** ** The enricher (C4, C7) *)

(** What the spec asks of the enriched copy [e] of [tx]. *)
Definition enriches (product_mapping : gmap Z CatalogEntry) (tx : Transaction)
  (e : EnrichedTransaction) : Prop :=
  base e = tx /\
  match product_mapping !! prod_id_num tx with
  | Some info =>
      API_Category e = Some (category info) /\
      API_Brand e = Some (brand info) /\
      API_Rating e = Some (rating info) /\
      API_Match e = true
  | None =>
      API_Category e = None /\
      API_Brand e = None /\
      API_Rating e = None /\
      API_Match e = false
  end.

(** The enriched record of a transaction without a match. *)
Definition unmatched (tx : Transaction) : EnrichedTransaction :=
  {| base := tx;
     API_Category := None;
     API_Brand := None;
     API_Rating := None;
     API_Match := false |}.

Definition pabc : Transaction :=
  {| TransactionID := "T001";
     Date := "2024-01-01";
     ProductID := "PABC";
     ProductName := "Widget";
     Quantity := 5;
     UnitPrice := S754_finite false 5629499534213120 (-49);
     CustomerID := "C001";
     Region := "North" |}.

Definition entry_tools : CatalogEntry :=
  {| title := "Hammer";
     category := "tools";
     brand := "Acme";
     rating := S754_finite false 5066549580791808 (-50) |}.

(** ** The validator (C2, C6, C10) *)

(** The five predicates, as the spec words them. *)
Definition spec_valid (tx : Transaction) : bool :=
  Str.startswith "T" (TransactionID tx) &&
  Str.startswith "P" (ProductID tx) &&
  (Str.startswith "C" (CustomerID tx) && negb (String.eqb (CustomerID tx) "")) &&
  (0 <? Quantity tx)%Z &&
  Num.flt Num.fzero (UnitPrice tx) &&
  negb (String.eqb (Region tx) "").

(** The amount of a transaction, when its quantity converts to a float. *)
Definition amount_of (t : Transaction) : Num.float :=
  match amount t with
  | Ok a => a
  | Raise _ => Num.fnan
  end.

Definition min_ok (min_amount : option Num.float) (t : Transaction) : bool :=
  match min_amount with
  | Some lo => Num.fle lo (amount_of t)
  | None => true
  end.

Definition max_ok (max_amount : option Num.float) (t : Transaction) : bool :=
  match max_amount with
  | Some hi => Num.fle (amount_of t) hi
  | None => true
  end.

(** The claim's reading of the region filter: any region that is given must
    be equalled. *)
Definition region_equal (region : option string) (t : Transaction) : bool :=
  match region with
  | Some r => String.eqb (Region t) r
  | None => true
  end.

(** The code's reading: the empty string, like [None], is no filter. *)
Definition region_ok (region : option string) (t : Transaction) : bool :=
  match region with
  | Some EmptyString => true
  | Some r => String.eqb (Region t) r
  | None => true
  end.

Definition claimed_keep (region : option string) (min_amount max_amount : option Num.float)
  (t : Transaction) : bool :=
  spec_valid t && region_equal region t && min_ok min_amount t && max_ok max_amount t.

Definition keeps (region : option string) (min_amount max_amount : option Num.float)
  (t : Transaction) : bool :=
  spec_valid t && region_ok region t && min_ok min_amount t && max_ok max_amount t.

(** The three optional filters, one after the other, on the list that
    passed the rules. *)
Definition apply_filters (region : option string) (min_amount max_amount : option Num.float)
  (valid_after_rules : list Transaction) : result (list Transaction) :=
  do* l <-
    if truthy region
    then comprehension (fun t => Ok (eq_region (Region t) region)) valid_after_rules
    else Ok valid_after_rules;
  do* l <-
    match min_amount with
    | Some lo => comprehension (fun t => do* a <- amount t; Ok (Num.fle lo a)) l
    | None => Ok l
    end;
  match max_amount with
  | Some hi => comprehension (fun t => do* a <- amount t; Ok (Num.fle a hi)) l
  | None => Ok l
  end.

Definition north : Transaction :=
  {| TransactionID := "T001";
     Date := "2024-01-01";
     ProductID := "P001";
     ProductName := "Widget";
     Quantity := 5;
     UnitPrice := S754_finite false 5629499534213120 (-49);
     CustomerID := "C001";
     Region := "North" |}.

Definition north_east : Transaction :=
  {| TransactionID := "T002";
     Date := "2024-01-02";
     ProductID := "P002";
     ProductName := "Gadget";
     Quantity := 3;
     UnitPrice := S754_finite false 5629499534213120 (-48);
     CustomerID := "C002";
     Region := "NorthEast" |}.

Definition x001 : Transaction :=
  {| TransactionID := "X001";
     Date := "2024-01-03";
     ProductID := "P003";
     ProductName := "Gizmo";
     Quantity := 1;
     UnitPrice := S754_finite false 5629499534213120 (-49);
     CustomerID := "C003";
     Region := "North" |}.

(** 30.0 *)
Definition thirty : Num.float := S754_finite false 8444249301319680 (-48).

(** The record of a line whose price field is "nan". *)
Definition nan_priced : Transaction :=
  {| TransactionID := "T009";
     Date := "2024-01-09";
     ProductID := "P009";
     ProductName := "Widget";
     Quantity := 5;
     UnitPrice := Num.fnan;
     CustomerID := "C009";
     Region := "North" |}.

(** The pattern [P<digits>] of the spec's data model. *)
Definition all_digits (s : string) : bool :=
  forallb Str.is_digit (list_ascii_of_string s).

Definition p_digits (s : string) : bool :=
  match s with
  | String "P" r => negb (String.eqb r "") && all_digits r
  | _ => false
  end.

Definition with_product_id (tx : Transaction) (pid : string) : Transaction :=
  {| TransactionID := TransactionID tx;
     Date := Date tx;
     ProductID := pid;
     ProductName := ProductName tx;
     Quantity := Quantity tx;
     UnitPrice := UnitPrice tx;
     CustomerID := CustomerID tx;
     Region := Region tx |}.

(** A quantity beyond the float range. *)
Definition huge : Transaction :=
  {| TransactionID := "T001";
     Date := "2024-01-01";
     ProductID := "P001";
     ProductName := "Widget";
     Quantity := 2 ^ 1024;
     UnitPrice := S754_finite false 5629499534213120 (-49);
     CustomerID := "C001";
     Region := "North" |}.

(** ** The enriched dataset (C9) *)


(** A string without the separator. *)
Definition pipe_free (s : string) : Prop := Str.contains "|" s = false.



Definition matched_north : EnrichedTransaction :=
  {| base := north;
     API_Category := Some "tools";
     API_Brand := Some "Acme";
     API_Rating := Some (rating entry_tools);
     API_Match := true |}.

(** ** Division (C5) *)

(** A positive finite float at or above the least exponent, or [+inf], or
    a nan: what sums and products of validated amounts stay in. *)
Definition positive (x : Num.float) : Prop :=
  match x with
  | S754_finite false _ e => (emin Num.prec Num.emax <= e)%Z
  | S754_infinity false => True
  | S754_nan => True
  | _ => False
  end.

(** The magnitude of a float: the position of its leading bit. *)
Definition magnitude (x : Num.float) : Z :=
  match x with
  | S754_finite _ m e => (Zdigits2 (Z.pos m) + e)%Z
  | _ => 0%Z
  end.

Definition is_zero_number (a : Num.number) : bool :=
  match a with
  | Num.Int n => (n =? 0)%Z
  | Num.Float x => Num.is_zero x
  end.

(** A record as the validator passes it on, with a price that is a
    binary64 value. *)
Definition validated (t : Transaction) : Prop :=
  is_valid t = true /\ valid_binary Num.prec Num.emax (UnitPrice t) = true.

(** A record the parser can produce and the validator rejects: quantity 0. *)
Definition free_sample : Transaction :=
  {| TransactionID := "T005";
     Date := "2024-01-05";
     ProductID := "P005";
     ProductName := "Sample";
     Quantity := 0;
     UnitPrice := S754_finite false 5629499534213120 (-49);
     CustomerID := "C005";
     Region := "North" |}.

(** ** Region totals (C8) *)

(** [x] stays before [y] when [y] does not precede [x]. *)
Definition in_order {A K : Type} (lt : K -> K -> bool) (key : A -> K)
  (reverse : bool) (x y : A) : Prop :=
  precedes lt key reverse y x = false.

(** [d.get(k)]. *)
Fixpoint lookup_key {V : Type} (k : string) (d : list (string * V)) : option V :=
  match d with
  | [] => None
  | (k', v) :: d' => if String.eqb k' k then Some v else lookup_key k d'
  end.



(** The left-to-right float sum, from [0.0]. *)
Definition float_sum (xs : list Num.float) : Num.float := fold_left Num.fadd xs Num.fzero.





(** [sum(xs)] for floats: from the int [0], left to right. *)
Definition sum_from_zero (xs : list Num.float) : Num.number :=
  match xs with
  | [] => Num.Int 0
  | x :: xs' => Num.Float (fold_left Num.fadd xs' (Num.fadd Num.fzero x))
  end.



Definition tenth_north : Transaction :=
  {| TransactionID := "T001";
     Date := "2024-01-01";
     ProductID := "P001";
     ProductName := "Washer";
     Quantity := 1;
     UnitPrice := S754_finite false 7205759403792794 (-56);
     CustomerID := "C001";
     Region := "North" |}.

Definition fifth_south : Transaction :=
  {| TransactionID := "T002";
     Date := "2024-01-01";
     ProductID := "P002";
     ProductName := "Nut";
     Quantity := 1;
     UnitPrice := S754_finite false 7205759403792794 (-55);
     CustomerID := "C002";
     Region := "South" |}.

Definition seven_tenths_south : Transaction :=
  {| TransactionID := "T003";
     Date := "2024-01-02";
     ProductID := "P003";
     ProductName := "Bolt";
     Quantity := 1;
     UnitPrice := S754_finite false 6305039478318694 (-53);
     CustomerID := "C003";
     Region := "South" |}.

Definition three_sales : list Transaction := [tenth_north; fifth_south; seven_tenths_south].





(** * Further properties

    What the functions the claims leave aside compute, and the sample data
    their examples run on. *)

(** ** Grouping by a key *)

Section Grouping.
Context (key : Transaction -> string).

(** The transactions under the key [k], in input order. *)
Definition keyed (k : string) (txs : list Transaction) : list Transaction :=
  List.filter (fun t => String.eqb k (key t)) txs.

(** Some transaction has the key [k]. *)
Definition occurs (k : string) (txs : list Transaction) : Prop :=
  exists t, In t txs /\ key t = k.

(** The float sum, from 0.0 and in input order, of the amounts under [k]. *)
Definition revenue_of (k : string) (txs : list Transaction) : Num.float :=
  float_sum (map amount_of (keyed k txs)).
End Grouping.

(** The quantity sold of a product: the sum of the quantities under its
    name. *)
Definition quantity_sold (name : string) (txs : list Transaction) : Z :=
  fold_left Z.add (map Quantity (keyed ProductName name txs)) 0%Z.

(** ** The product tables *)

Definition product_name (e : string * Z * Num.float) : string := fst (fst e).

Definition product_qty (e : string * Z * Num.float) : Z := snd (fst e).

(** What an entry of [top_selling_products] holds for its product. *)
Definition product_totals (txs : list Transaction) (e : string * Z * Num.float) : Prop :=
  occurs ProductName (product_name e) txs /\
  product_qty e = quantity_sold (product_name e) txs /\
  snd e = revenue_of ProductName (product_name e) txs.

(** ** The customer table *)

(** What the second loop of [customer_analysis] makes of an entry. *)
Definition customer_entry (e : string * CustomerTotals) (d : string * CustomerStats) : Prop :=
  fst d = fst e /\
  total_spent (snd d) = ct_total_spent (snd e) /\
  purchase_count (snd d) = ct_purchase_count (snd e) /\
  products_bought (snd d) = sorted_strings (ct_products_bought (snd e)) /\
  customer_average (ct_total_spent (snd e)) (ct_purchase_count (snd e)) =
    Ok (avg_order_value (snd d)).

(** What an entry of [customer_analysis] holds for its customer. *)
Definition customer_totals (txs : list Transaction) (e : string * CustomerStats) : Prop :=
  occurs CustomerID (fst e) txs /\
  purchase_count (snd e) = List.length (keyed CustomerID (fst e) txs) /\
  total_spent (snd e) = revenue_of CustomerID (fst e) txs /\
  (forall p, In p (products_bought (snd e)) <->
             exists t, In t txs /\ CustomerID t = fst e /\ ProductName t = p) /\
  StronglySorted (fun a b => Str.ltb a b = true) (products_bought (snd e)) /\
  customer_average (total_spent (snd e)) (purchase_count (snd e)) =
    Ok (avg_order_value (snd e)).

(** ** The daily trend *)

(** The customers of a day. *)
Definition customers_on (date : string) (txs : list Transaction) : gset string :=
  list_to_set (map CustomerID (keyed Date date txs)).

(** What an entry of [daily_sales_trend] holds for its day. *)
Definition day_totals (txs : list Transaction) (e : string * DayStats) : Prop :=
  occurs Date (fst e) txs /\
  revenue (snd e) = Num.round2 (revenue_of Date (fst e) txs) /\
  day_transaction_count (snd e) = List.length (keyed Date (fst e) txs) /\
  unique_customers (snd e) = size (customers_on (fst e) txs) /\
  1 <= unique_customers (snd e) <= day_transaction_count (snd e).

(** ** The validator, on every input *)

(** The rules and the filters that are set, as the code reads them. *)
Definition passes (region : option string) (min_amount max_amount : option Num.float)
  (t : Transaction) : bool :=
  is_valid t && region_ok region t && min_ok min_amount t && max_ok max_amount t.

(** ** The records of the parser *)

(** A string without whitespace at either end. *)
Definition stripped (s : string) : Prop := Str.strip s = s.

(** The six text fields of a record. *)
Definition parsed_fields (tx : Transaction) : list string :=
  [TransactionID tx; Date tx; ProductID tx; ProductName tx; CustomerID tx; Region tx].

(** What the parser guarantees of a record: text fields without
    surrounding whitespace and without the separator, and a product name
    without a comma. *)
Definition clean (tx : Transaction) : Prop :=
  Forall (fun f => stripped f /\ pipe_free f) (parsed_fields tx) /\
  Str.contains "," (ProductName tx) = false.

(** ** The catalog *)

(** The item carries the id [k]. *)
Definition has_id (k : Z) (item : Item) : bool :=
  match item_id item with
  | Some k' => Z.eqb k' k
  | None => false
  end.

(** The last item of the list with the id [k]. *)
Definition last_with_id (k : Z) (api_products : list Item) : option Item :=
  List.find (has_id k) (rev api_products).

(** The enriched record of a transaction matched with an item. *)
Definition matched (tx : Transaction) (item : Item) : EnrichedTransaction :=
  {| base := tx;
     API_Category := Some (default "General" (item_category item));
     API_Brand := Some (default "Generic" (item_brand item));
     API_Rating := Some (default Num.fzero (item_rating item));
     API_Match := true |}.

(** Two items with the id 1, the second without a brand, and one with the
    id 2. *)
Definition hammer : Item :=
  {| item_id := Some 1%Z;
     item_title := Some "Hammer";
     item_category := Some "tools";
     item_brand := Some "Acme";
     item_rating := Some (rating entry_tools) |}.

Definition mallet : Item :=
  {| item_id := Some 1%Z;
     item_title := Some "Mallet";
     item_category := Some "tools";
     item_brand := None;
     item_rating := None |}.

Definition pliers : Item :=
  {| item_id := Some 2%Z;
     item_title := None;
     item_category := None;
     item_brand := Some "Grip";
     item_rating := Some (rating entry_tools) |}.

(** ** The run *)



(** The line of [north], and answers that set no filter. *)
Definition north_line : string := "T001|2024-01-01|P001|Widget|5|10.00|C001|North".

Definition no_filter : Answers :=
  {| do_filter := "n"; region_answer := ""; min_answer := "" |}.

(** The filters the answers ask for (the [if do_filter == 'y'] block of
    [main]): a region unless blank, a minimum amount unless blank. *)
Definition asked_filters (answers : Answers)
  : result (option string * option Num.float) :=
  if String.eqb (Num.lowercase (do_filter answers)) "y" then
    let sel_region := or_none (region_answer answers) in
    match Str.strip (min_answer answers) with
    | EmptyString => Ok (sel_region, None)
    | min_input =>
        do* lo <- float_or_raise min_input;
        Ok (sel_region, Some lo)
    end
  else Ok (None, None).

(** * Proofs *)

(** ** The parser (C3) *)

Lemma parse_step_skip acc line :
  ~ well_formed line -> parse_step acc line = Ok acc.
Proof.
  unfold well_formed, parse_step, build_transaction, int_or_raise, float_or_raise,
    quantity_field, price_field.
  intros Hnot.
  destruct (Nat.eqb_spec (List.length (Str.split "|" line)) 8) as [Hlen | Hlen];
    simpl; [| reflexivity].
  destruct (Num.int _) as [q |] eqn:Hq; simpl; [| reflexivity].
  destruct (Num.float_of_str _) as [x |] eqn:Hx; simpl; [| reflexivity].
  exfalso. apply Hnot. repeat split; eauto.
Qed.

Lemma parse_step_keep acc line :
  well_formed line ->
  exists tx, parse_step acc line = Ok (acc ++ [tx]) /\ record_of line tx.
Proof.
  unfold well_formed, parse_step, build_transaction, int_or_raise, float_or_raise,
    quantity_field, price_field.
  intros (Hlen & [q Hq] & [x Hx]).
  rewrite Hlen, Hq, Hx. simpl.
  eexists. split; [reflexivity |].
  unfold record_of, quantity_field, price_field. simpl.
  repeat split; assumption.
Qed.

Lemma well_formed_dec line : well_formed line \/ ~ well_formed line.
Proof.
  unfold well_formed.
  destruct (Nat.eq_dec (List.length (Str.split "|" line)) 8) as [Hlen | Hlen];
    [| right; tauto].
  destruct (Num.int (quantity_field line)) as [q |];
    [| right; intros (_ & [? Hq] & _); discriminate].
  destruct (Num.float_of_str (price_field line)) as [x |];
    [| right; intros (_ & _ & [? Hx]); discriminate].
  left. repeat split; eauto.
Qed.

Lemma parse_loop lines : forall acc,
  exists txs, for_each parse_step lines acc = Ok (acc ++ txs) /\ parsed lines txs.
Proof.
  induction lines as [| line lines IH]; intros acc; simpl.
  - exists []. rewrite app_nil_r. split; [reflexivity | constructor].
  - destruct (well_formed_dec line) as [Hwf | Hnot].
    + destruct (parse_step_keep acc line Hwf) as (tx & Hstep & Hrec).
      rewrite Hstep. simpl.
      destruct (IH (acc ++ [tx])) as (txs & Hloop & Hparsed).
      exists (tx :: txs). rewrite Hloop, <- app_assoc. simpl.
      split; [reflexivity | by constructor].
    + rewrite (parse_step_skip acc line Hnot). simpl.
      destruct (IH acc) as (txs & Hloop & Hparsed).
      exists txs. split; [assumption | by constructor].
Qed.

(** C3: for every sequence of raw lines the parser returns, without an
    exception, exactly the records of the lines that split into eight fields
    and whose quantity and price fields convert, in the order of the lines;
    each record holds the trimmed fields, with the commas of the product name
    replaced by spaces. *)
Theorem parse_transactions_spec (raw_lines : list string) :
  exists txs, parse_transactions raw_lines = Ok txs /\ parsed raw_lines txs.
Proof.
  destruct (parse_loop raw_lines []) as (txs & Hloop & Hparsed).
  exists txs. split; assumption.
Qed.

(** The relation [parsed] has one output per input. *)
Lemma parsed_functional lines : forall txs txs',
  parsed lines txs -> parsed lines txs' -> txs = txs'.
Proof.
  induction lines as [| line lines IH]; intros txs txs' H H';
    inversion H; inversion H'; subst; try reflexivity; try contradiction.
  - by apply IH.
  - f_equal; [| by apply IH].
    destruct tx, tx0.
    unfold record_of in *. simpl in *.
    intuition; subst; congruence.
Qed.

(** ** The enricher (C4, C7) *)

(** A loop that appends one element per iteration builds a [map]. *)
Lemma fold_left_append {A B : Type} (f : A -> B) (l : list A) : forall acc,
  fold_left (fun acc x => acc ++ [f x]) l acc = acc ++ map f l.
Proof.
  induction l as [| x l IH]; intros acc; simpl.
  - by rewrite app_nil_r.
  - rewrite IH, <- app_assoc. reflexivity.
Qed.

Lemma enrich_sales_data_map transactions product_mapping :
  enrich_sales_data transactions product_mapping =
  map (enriched_tx product_mapping) transactions.
Proof.
  unfold enrich_sales_data, enrich_step.
  apply (fold_left_append (enriched_tx product_mapping) transactions []).
Qed.

Lemma enriched_tx_enriches product_mapping tx :
  enriches product_mapping tx (enriched_tx product_mapping tx).
Proof.
  unfold enriches, enriched_tx.
  destruct (product_mapping !! prod_id_num tx); simpl; auto.
Qed.

(** C4: enrichment returns one enriched record per transaction, in the same
    order; each keeps the eight fields of its transaction and carries the
    category, brand and rating of the catalog entry under the derived key
    with [API_Match = True], or three nulls with [API_Match = False] when the
    key is not in the mapping. *)
Theorem enrich_sales_data_spec (transactions : list Transaction)
  (product_mapping : gmap Z CatalogEntry) :
  List.length (enrich_sales_data transactions product_mapping) = List.length transactions /\
  Forall2 (enriches product_mapping) transactions
    (enrich_sales_data transactions product_mapping).
Proof.
  rewrite enrich_sales_data_map. split.
  - apply length_map.
  - induction transactions as [| tx txs IH]; simpl; constructor.
    + apply enriched_tx_enriches.
    + apply IH.
Qed.

(** C7, as stated, fails: a mapping with an entry under [-1] matches the
    transaction whose product id has no numeric suffix. *)
Lemma sentinel_can_match :
  Num.int (Str.tail (ProductID pabc)) = None /\
  enrich_sales_data [pabc] (<[(-1)%Z := entry_tools]> ∅) =
    [{| base := pabc;
        API_Category := Some "tools";
        API_Brand := Some "Acme";
        API_Rating := Some (rating entry_tools);
        API_Match := true |}].
Proof. split; reflexivity. Qed.

(** C7, amended: when the mapping has no entry under [-1], every
    transaction whose product id has no numeric suffix after its first
    character gets the key [-1] and is enriched, at its own position, to the
    unmatched record: [API_Match = False] and three nulls.  Enrichment is a
    total function, so nothing is raised. *)
Theorem enrich_without_suffix (transactions : list Transaction)
  (product_mapping : gmap Z CatalogEntry) (i : nat) (tx : Transaction) :
  product_mapping !! (-1)%Z = None ->
  nth_error transactions i = Some tx ->
  Num.int (Str.tail (ProductID tx)) = None ->
  prod_id_num tx = (-1)%Z /\
  nth_error (enrich_sales_data transactions product_mapping) i = Some (unmatched tx).
Proof.
  intros Hsentinel Hi Hsuffix.
  assert (Hkey : prod_id_num tx = (-1)%Z) by (unfold prod_id_num; by rewrite Hsuffix).
  split; [assumption |].
  rewrite enrich_sales_data_map, nth_error_map, Hi. simpl.
  unfold enriched_tx. rewrite Hkey, Hsentinel. reflexivity.
Qed.

Lemma enrich_without_suffix_witness :
  prod_id_num pabc = (-1)%Z /\
  nth_error (enrich_sales_data [pabc] (<[1%Z := entry_tools]> ∅)) 0 = Some (unmatched pabc).
Proof.
  apply (enrich_without_suffix [pabc] (<[1%Z := entry_tools]> ∅) 0 pabc);
    reflexivity.
Defined.

(** ** The validator (C2, C6, C10) *)

Lemma validate_loop txs : forall acc n,
  fold_left validate_step txs (acc, n) =
  (acc ++ List.filter is_valid txs, n + List.length (List.filter (fun t => negb (is_valid t)) txs)).
Proof.
  induction txs as [| t txs IH]; intros acc n; simpl.
  - rewrite app_nil_r. f_equal. lia.
  - destruct (is_valid t); simpl; rewrite IH.
    + by rewrite <- app_assoc.
    + f_equal. lia.
Qed.

Lemma filter_split_length {A : Type} (p : A -> bool) (l : list A) :
  List.length (List.filter (fun t => negb (p t)) l) + List.length (List.filter p l) = List.length l.
Proof.
  induction l as [| x l IH]; simpl; [reflexivity |].
  destruct (p x); simpl; lia.
Qed.

Lemma comprehension_loop {A : Type} (keep : A -> result bool) (k : A -> bool) (l : list A) :
  (forall t, In t l -> keep t = Ok (k t)) ->
  forall acc,
    for_each (fun acc t => do* b <- keep t; Ok (if b then acc ++ [t] else acc)) l acc =
    Ok (acc ++ List.filter k l).
Proof.
  induction l as [| x l IH]; intros Hkeep acc; simpl.
  - by rewrite app_nil_r.
  - rewrite (Hkeep x) by (by left). simpl.
    rewrite IH by (intros t Ht; apply Hkeep; by right).
    destruct (k x); simpl; [by rewrite <- app_assoc | reflexivity].
Qed.

Lemma comprehension_filter {A : Type} (keep : A -> result bool) (k : A -> bool) (l : list A) :
  (forall t, In t l -> keep t = Ok (k t)) ->
  comprehension keep l = Ok (List.filter k l).
Proof. intros Hkeep. apply (comprehension_loop keep k l Hkeep []). Qed.

(** Whatever the test does, a comprehension that returns has kept no more
    than it was given, and it raises only what the test raises. *)
Lemma comprehension_inv {A : Type} (keep : A -> result bool) (l : list A) : forall acc,
  match for_each (fun acc t => do* b <- keep t; Ok (if b then acc ++ [t] else acc)) l acc with
  | Ok r => exists l', r = acc ++ l' /\ List.length l' <= List.length l /\ incl l' l
  | Raise e => exists t, In t l /\ keep t = Raise e
  end.
Proof.
  induction l as [| x l IH]; intros acc; simpl.
  - exists []. rewrite app_nil_r.
    split; [reflexivity | split; [simpl; lia | apply incl_nil_l]].
  - destruct (keep x) as [b | e] eqn:Hx; simpl; [| exists x; auto].
    specialize (IH (if b then acc ++ [x] else acc)).
    destruct (for_each _ l _) as [r | e].
    + destruct IH as (l' & -> & Hlen & Hincl). destruct b.
      * exists (x :: l'). rewrite <- app_assoc. simpl.
        split; [reflexivity | split; [lia |]].
        intros y [-> | Hy]; [by left | right; by apply Hincl].
      * exists l'.
        split; [reflexivity | split; [lia |]].
        intros y Hy. right. by apply Hincl.
    + destruct IH as (t & Ht & Hraise). exists t. auto.
Qed.

Lemma amount_raises t e : amount t = Raise e -> e = OverflowError.
Proof.
  unfold amount, Num.of_int.
  destruct (Num.of_ratio _ _ _); simpl; congruence.
Qed.

Lemma amount_returns t : returns (amount t) -> amount t = Ok (amount_of t).
Proof. unfold amount_of. intros [a ->]. reflexivity. Qed.

Lemma fle_zero_flt (x : Num.float) :
  Num.is_nan x = false -> Num.fle x Num.fzero = negb (Num.flt Num.fzero x).
Proof.
  destruct x as [[] | [] | | [] m e]; intros Hnan; try discriminate Hnan; reflexivity.
Qed.

Lemma is_valid_spec_valid tx :
  Num.is_nan (UnitPrice tx) = false -> is_valid tx = spec_valid tx.
Proof.
  intros Hnan. unfold is_valid, spec_valid.
  rewrite (fle_zero_flt _ Hnan).
  replace (Quantity tx <=? 0)%Z with (negb (0 <? Quantity tx)%Z)
    by (destruct (Z.ltb_spec 0 (Quantity tx)), (Z.leb_spec (Quantity tx) 0); simpl; lia).
  destruct (Str.startswith "T" _), (Str.startswith "P" _), (Str.startswith "C" _),
    (0 <? Quantity tx)%Z, (Num.flt _ _), (String.eqb (CustomerID tx) ""),
    (String.eqb (Region tx) ""); reflexivity.
Qed.

Lemma filter_filter {A : Type} (p q : A -> bool) (l : list A) :
  List.filter q (List.filter p l) = List.filter (fun t => p t && q t) l.
Proof.
  induction l as [| x l IH]; simpl; [reflexivity |].
  destruct (p x); simpl; [destruct (q x) |]; by rewrite IH.
Qed.

Lemma filter_ext_Forall {A : Type} (p q : A -> bool) (l : list A) :
  Forall (fun t => p t = q t) l -> List.filter p l = List.filter q l.
Proof.
  induction 1 as [| x l Hx _ IH]; simpl; [reflexivity |].
  rewrite Hx, IH. reflexivity.
Qed.

Lemma filter_true {A : Type} (l : list A) : List.filter (fun _ => true) l = l.
Proof. induction l as [| x l IH]; simpl; by rewrite ?IH. Qed.

Lemma validate_and_filter_unfold txs region min_amount max_amount :
  validate_and_filter txs region min_amount max_amount =
  let invalid_count := List.length (List.filter (fun t => negb (is_valid t)) txs) in
  do* l <- apply_filters region min_amount max_amount (List.filter is_valid txs);
  Ok (l, invalid_count,
      {| total_input := List.length txs;
         invalid := invalid_count;
         final_count := List.length l |}).
Proof.
  unfold validate_and_filter, apply_filters.
  rewrite validate_loop. simpl.
  destruct (if truthy region then _ else _) as [l1 | e]; simpl; [| reflexivity].
  destruct min_amount as [lo |]; simpl.
  - destruct (comprehension _ l1) as [l2 | e]; simpl; [| reflexivity].
    destruct max_amount; simpl; [| reflexivity].
    destruct (comprehension _ l2); reflexivity.
  - destruct max_amount; simpl; [| reflexivity].
    destruct (comprehension _ l1); reflexivity.
Qed.

Lemma region_filter_ok region l :
  (if truthy region
   then comprehension (fun t => Ok (eq_region (Region t) region)) l
   else Ok l) = Ok (List.filter (region_ok region) l).
Proof.
  destruct region as [[| c r] |]; simpl.
  - by rewrite filter_true.
  - by apply comprehension_filter.
  - by rewrite filter_true.
Qed.

Lemma min_filter_ok min_amount l :
  min_amount = None \/ Forall (fun t => returns (amount t)) l ->
  match min_amount with
  | Some lo => comprehension (fun t => do* a <- amount t; Ok (Num.fle lo a)) l
  | None => Ok l
  end = Ok (List.filter (min_ok min_amount) l).
Proof.
  intros Hamt. destruct min_amount as [lo |]; simpl.
  - destruct Hamt as [Hnone | Hall]; [discriminate |].
    apply comprehension_filter. intros t Ht.
    rewrite List.Forall_forall in Hall.
    by rewrite (amount_returns t (Hall t Ht)).
  - by rewrite filter_true.
Qed.

Lemma max_filter_ok max_amount l :
  max_amount = None \/ Forall (fun t => returns (amount t)) l ->
  match max_amount with
  | Some hi => comprehension (fun t => do* a <- amount t; Ok (Num.fle a hi)) l
  | None => Ok l
  end = Ok (List.filter (max_ok max_amount) l).
Proof.
  intros Hamt. destruct max_amount as [hi |]; simpl.
  - destruct Hamt as [Hnone | Hall]; [discriminate |].
    apply comprehension_filter. intros t Ht.
    rewrite List.Forall_forall in Hall.
    by rewrite (amount_returns t (Hall t Ht)).
  - by rewrite filter_true.
Qed.

Lemma Forall_filter {A : Type} (P : A -> Prop) (p : A -> bool) (l : list A) :
  Forall P l -> Forall P (List.filter p l).
Proof.
  induction 1 as [| x l Hx _ IH]; simpl; [constructor |].
  destruct (p x); [by constructor | assumption].
Qed.

(** The filters return on every list whose amounts can be computed, and
    when no amount filter is set. *)
Lemma apply_filters_ok region min_amount max_amount l :
  (min_amount = None /\ max_amount = None) \/ Forall (fun t => returns (amount t)) l ->
  apply_filters region min_amount max_amount l =
  Ok (List.filter (fun t => region_ok region t && min_ok min_amount t && max_ok max_amount t) l).
Proof.
  intros Hamt. unfold apply_filters.
  rewrite region_filter_ok. simpl.
  rewrite min_filter_ok
    by (destruct Hamt as [[-> _] | Hall]; [by left | right; by apply Forall_filter]).
  simpl.
  rewrite max_filter_ok
    by (destruct Hamt as [[_ ->] | Hall]; [by left | right; by do 2 apply Forall_filter]).
  rewrite !filter_filter. f_equal.
  apply filter_ext_Forall, List.Forall_forall. intros t _.
  by rewrite andb_assoc.
Qed.

(** C2, amended: when no unit price is a nan and the amounts can be
    computed (no quantity beyond the float range, or no amount filter), the
    validator returns exactly the records that satisfy the five predicates
    and pass each filter that is set, in their input order; the region filter
    is exact equality and is set by a non-empty string only: [None] and the
    empty string both mean no region filter. *)
Theorem validate_and_filter_keeps (transactions : list Transaction)
  (region : option string) (min_amount max_amount : option Num.float) :
  Forall (fun t => Num.is_nan (UnitPrice t) = false) transactions ->
  (min_amount = None /\ max_amount = None) \/
    Forall (fun t => returns (amount t)) transactions ->
  (exists invalid_count summary,
     validate_and_filter transactions region min_amount max_amount =
     Ok (List.filter (keeps region min_amount max_amount) transactions,
         invalid_count, summary)) /\
  (forall t, In t (List.filter (keeps region min_amount max_amount) transactions) <->
             In t transactions /\ spec_valid t = true /\ region_ok region t = true /\
             min_ok min_amount t = true /\ max_ok max_amount t = true).
Proof.
  intros Hnan Hamt. split.
  - rewrite validate_and_filter_unfold. simpl.
    rewrite apply_filters_ok
      by (destruct Hamt as [? | Hall]; [by left | right; by apply Forall_filter]).
    simpl. do 2 eexists. f_equal. f_equal. f_equal.
    rewrite filter_filter.
    apply filter_ext_Forall.
    eapply List.Forall_impl; [| exact Hnan].
    intros t Ht. simpl in Ht. rewrite (is_valid_spec_valid t Ht).
    unfold keeps.
    destruct (spec_valid t), (region_ok region t), (min_ok min_amount t),
      (max_ok max_amount t); reflexivity.
  - intros t. rewrite filter_In. unfold keeps.
    rewrite !andb_true_iff. tauto.
Qed.

Lemma validate_and_filter_keeps_witness :
  (exists invalid_count summary,
     validate_and_filter [north; north_east; x001] (Some "North") (Some thirty) None =
     Ok (List.filter (keeps (Some "North") (Some thirty) None) [north; north_east; x001],
         invalid_count, summary)) /\
  (forall t, In t (List.filter (keeps (Some "North") (Some thirty) None)
                     [north; north_east; x001]) <->
             In t [north; north_east; x001] /\ spec_valid t = true /\
             region_ok (Some "North") t = true /\
             min_ok (Some thirty) t = true /\ max_ok None t = true).
Proof.
  apply (validate_and_filter_keeps [north; north_east; x001] (Some "North") (Some thirty) None).
  - repeat constructor.
  - right. repeat constructor; eexists; vm_compute; reflexivity.
Defined.

Example region_filter_is_exact :
  validate_and_filter [north; north_east; x001] (Some "North") None None =
  Ok ([north], 1, {| total_input := 3; invalid := 1; final_count := 1 |}).
Proof. vm_compute. reflexivity. Qed.

(** C2, as stated, fails on the region filter: the empty string given as
    region keeps a record of region "North", which does not equal it. *)
Lemma empty_region_is_no_filter :
  validate_and_filter [north] (Some "") None None =
    Ok ([north], 0, {| total_input := 1; invalid := 0; final_count := 1 |}) /\
  claimed_keep (Some "") None None north = false.
Proof. split; vm_compute; reflexivity. Qed.

(** A price that is not a number is not [<= 0], so it passes the rules,
    though it is not [> 0]. *)
Example nan_price_passes :
  parse_transactions ["T009|2024-01-09|P009|Widget|5|nan|C009|North"] = Ok [nan_priced] /\
  is_valid nan_priced = true /\
  spec_valid nan_priced = false.
Proof. repeat split; vm_compute; reflexivity. Qed.

(** Without filters the validator returns the records that pass the rules. *)
Lemma validate_without_filters txs :
  validate_and_filter txs None None None =
  Ok (List.filter is_valid txs,
      List.length (List.filter (fun t => negb (is_valid t)) txs),
      {| total_input := List.length txs;
         invalid := List.length (List.filter (fun t => negb (is_valid t)) txs);
         final_count := List.length (List.filter is_valid txs) |}).
Proof. rewrite validate_and_filter_unfold. reflexivity. Qed.

(** C6, as stated, fails: "PABC" is not of the form [P<digits>], and the
    record passes validation. *)
Lemma pabc_is_valid :
  p_digits (ProductID pabc) = false /\
  validate_and_filter [pabc] None None None =
    Ok ([pabc], 0, {| total_input := 1; invalid := 0; final_count := 1 |}).
Proof. split; vm_compute; reflexivity. Qed.

(** C6, amended: validation looks at the first character of the product id
    only.  For a record that passes the rules, the same record under another
    product id passes them if and only if that id starts with "P", whatever
    follows; it is then in the valid set. *)
Theorem product_id_prefix_only (tx : Transaction) (pid : string) :
  is_valid tx = true ->
  (is_valid (with_product_id tx pid) = true <-> Str.startswith "P" pid = true) /\
  (Str.startswith "P" pid = true ->
   exists invalid_count summary,
     validate_and_filter [with_product_id tx pid] None None None =
     Ok ([with_product_id tx pid], invalid_count, summary)).
Proof.
  intros Hvalid.
  assert (Hiff : is_valid (with_product_id tx pid) = true <-> Str.startswith "P" pid = true).
  { revert Hvalid. unfold is_valid, with_product_id. simpl.
    destruct (Str.startswith "T" _), (Str.startswith "P" (ProductID tx)),
      (Str.startswith "P" pid), (Str.startswith "C" _), (Quantity tx <=? 0)%Z,
      (Num.fle _ _), (String.eqb (CustomerID tx) ""), (String.eqb (Region tx) "");
      simpl; intros Hvalid; split; intros H; congruence. }
  split; [exact Hiff |].
  intros Hp. rewrite validate_without_filters. simpl.
  apply Hiff in Hp. rewrite Hp. simpl. eauto.
Qed.

Lemma product_id_prefix_only_witness :
  (is_valid (with_product_id north "PABC") = true <-> Str.startswith "P" "PABC" = true) /\
  (Str.startswith "P" "PABC" = true ->
   exists invalid_count summary,
     validate_and_filter [with_product_id north "PABC"] None None None =
     Ok ([with_product_id north "PABC"], invalid_count, summary)).
Proof. apply (product_id_prefix_only north "PABC"). reflexivity. Defined.



Example amount_filter_overflows :
  validate_and_filter [huge] None (Some thirty) None = Raise OverflowError /\
  validate_and_filter [huge] None None None =
    Ok ([huge], 0, {| total_input := 1; invalid := 0; final_count := 1 |}).
Proof. split; vm_compute; reflexivity. Qed.

(** ** The report on an empty list (C1) *)

(** On the empty list every aggregate is empty and nothing divides. *)
Example aggregates_of_nothing :
  calculate_total_revenue [] = Ok (Num.Int 0) /\
  average_order (Num.Int 0) 0 = Ok (Num.Int 0) /\
  region_wise_sales [] = Ok [] /\
  top_selling_products [] 5 = Ok [] /\
  daily_sales_trend [] = Ok [] /\
  find_peak_sales_day [] = Ok None /\
  low_performing_products [] 10 = [].
Proof. repeat split. Qed.

(** C1: the code does not produce the report for an empty transaction list.
    [find_peak_sales_day] returns [None], the report generator unpacks it
    into three names, and [TypeError] leaves the function before any text is
    built, whatever the enriched list. *)
Theorem generate_sales_report_empty (enriched_transactions : list EnrichedTransaction) :
  generate_sales_report [] enriched_transactions = Raise TypeError.
Proof. reflexivity. Qed.

(** The ways a run can have no valid record: the one line of the file is
    valid but filtered out, or is parsed and invalid, or is not parsed.  No
    run produces a report. *)
Example runs_without_valid_records :
  main ["T001|2024-01-01|P001|Widget|5|10.00|C001|North"]
       {| do_filter := "y"; region_answer := "South"; min_answer := "" |} ∅ =
    Raise TypeError /\
  main ["X001|2024-01-03|P003|Gizmo|1|10.00|C003|North"]
       {| do_filter := "n"; region_answer := ""; min_answer := "" |} ∅ =
    Raise TypeError /\
  main ["X001,2024-01-03,P003,Gizmo,1,10.00,C003,North"]
       {| do_filter := "n"; region_answer := ""; min_answer := "" |} ∅ =
    Raise ValueError.
Proof. repeat split; vm_compute; reflexivity. Qed.

Example run_with_one_record :
  exists rep,
    main ["T001|2024-01-01|P001|Widget|5|10.00|C001|North"]
         {| do_filter := "Y"; region_answer := " North "; min_answer := "20" |}
         (<[1%Z := entry_tools]> ∅) =
    Ok (Some {| enriched_file :=
                  [Str.join "|" headers +:+ newline;
                   "T001|2024-01-01|P001|Widget|5|10.0|C001|North|tools|Acme|4.5|True"
                     +:+ newline];
                report := rep |}).
Proof. eexists. vm_compute. reflexivity. Qed.

(** ** The enriched dataset (C9) *)

Lemma contains_append c a b :
  Str.contains c (a +:+ b) = Str.contains c a || Str.contains c b.
Proof.
  induction a as [| d a IH]; simpl; [reflexivity |].
  rewrite IH. by rewrite orb_assoc.
Qed.





Lemma save_enriched_data_lines enriched_transactions :
  save_enriched_data enriched_transactions =
  (Str.join "|" headers +:+ newline) ::
  map (fun tx => Str.join "|" (row tx) +:+ newline) enriched_transactions.
Proof.
  unfold save_enriched_data.
  apply (fold_left_append (fun tx => Str.join "|" (row tx) +:+ newline)).
Qed.












(** *** The rendering of an int reads back *)

Section IntReadsBack.
Local Open Scope Z_scope.

Lemma digit_char_is_digit d :
  0 <= d < 10 -> Str.is_digit (Num.digit_char d) = true /\ Str.digit_val (Num.digit_char d) = d.
Proof.
  intros Hd.
  assert (Hcases : d = 0 \/ d = 1 \/ d = 2 \/ d = 3 \/ d = 4 \/
                   d = 5 \/ d = 6 \/ d = 7 \/ d = 8 \/ d = 9) by lia.
  repeat (destruct Hcases as [-> | Hcases]; [split; reflexivity |]).
  subst d. split; reflexivity.
Qed.

(** What the digit loop prepends is a run of digits, the first of them a
    digit, that reads as [n] in front of what follows. *)
Lemma digits_fuel_reads fuel : forall n acc,
  0 <= n < 10 ^ Z.of_nat (S fuel) ->
  (exists d r, Num.digits_of_pos_fuel (S fuel) n acc = String d r /\ Str.is_digit d = true) /\
  exists k, 0 <= k /\
    forall v, Num.int_digits (Num.digits_of_pos_fuel (S fuel) n acc) v =
              Num.int_digits acc (v * 10 ^ k + n).
Proof.
  induction fuel as [| fuel IH]; intros n acc Hn.
  - change (10 ^ Z.of_nat 1) with 10 in Hn.
    destruct (digit_char_is_digit (n mod 10) ltac:(apply Z.mod_pos_bound; lia)) as [Hd Hv].
    rewrite Z.mod_small in Hd, Hv by lia.
    assert (Hlt : (n <? 10) = true) by (apply Z.ltb_lt; lia).
    cbn [Num.digits_of_pos_fuel]. rewrite Z.mod_small, Hlt by lia.
    split; [eauto |].
    exists 1. split; [lia |]. intros v. cbn [Num.int_digits]. rewrite Hd, Hv.
    f_equal. lia.
  - destruct (digit_char_is_digit (n mod 10) ltac:(apply Z.mod_pos_bound; lia)) as [Hd Hv].
    cbn [Num.digits_of_pos_fuel].
    destruct (Z.ltb_spec n 10) as [Hlt | Hge].
    + split; [eauto |].
      exists 1. split; [lia |]. intros v. cbn [Num.int_digits]. rewrite Hd, Hv.
      rewrite Z.mod_small by lia. f_equal. lia.
    + assert (Hdiv : 0 <= n / 10 < 10 ^ Z.of_nat (S fuel)).
      { split; [apply Z.div_pos; lia |].
        apply Z.div_lt_upper_bound; [lia |].
        rewrite <- Z.pow_succ_r by lia.
        replace (Z.succ (Z.of_nat (S fuel))) with (Z.of_nat (S (S fuel))) by lia.
        lia. }
      destruct (IH (n / 10) (String (Num.digit_char (n mod 10)) acc) Hdiv)
        as [Hfirst (k & Hk & Hreads)].
      split; [exact Hfirst |].
      exists (k + 1). split; [lia |]. intros v.
      rewrite Hreads. cbn [Num.int_digits]. rewrite Hd, Hv. f_equal.
      rewrite Z.pow_add_r, Z.pow_1_r by lia.
      pose proof (Z.div_mod n 10 ltac:(lia)). lia.
Qed.

Lemma digits_fuel_all_digits fuel : forall n acc,
  all_digits acc = true -> all_digits (Num.digits_of_pos_fuel fuel n acc) = true.
Proof.
  induction fuel as [| fuel IH]; intros n acc Hacc; simpl; [assumption |].
  destruct (digit_char_is_digit (n mod 10) ltac:(apply Z.mod_pos_bound; lia)) as [Hd _].
  assert (Hstep : all_digits (String (Num.digit_char (n mod 10)) acc) = true)
    by (unfold all_digits in *; simpl; by rewrite Hd, Hacc).
  destruct (n <? 10); [assumption | by apply IH].
Qed.

Lemma enough_fuel n : 0 <= n -> n < 10 ^ Z.of_nat (S (Z.to_nat (Z.log2 n))).
Proof.
  intros Hn. destruct (Z.eq_dec n 0) as [-> | Hpos]; [reflexivity |].
  pose proof (Z.log2_spec n ltac:(lia)) as [_ Hhi].
  pose proof (Z.log2_nonneg n).
  replace (Z.of_nat (S (Z.to_nat (Z.log2 n)))) with (Z.succ (Z.log2 n)) by lia.
  assert (2 ^ Z.succ (Z.log2 n) <= 10 ^ Z.succ (Z.log2 n))
    by (apply Z.pow_le_mono_l; lia).
  lia.
Qed.

Lemma digit_is_no_blank c : Str.is_digit c = true -> Num.is_blank c = false.
Proof. destruct c as [[] [] [] [] [] [] [] []]; try discriminate; reflexivity. Qed.

Lemma rstrip_digits s : all_digits s = true -> Str.rstrip Num.is_blank s = s.
Proof.
  unfold all_digits. induction s as [| c s IH]; simpl; [reflexivity |].
  intros H. apply andb_true_iff in H as [Hc Hs].
  rewrite (IH Hs). destruct s; [| reflexivity].
  by rewrite (digit_is_no_blank c Hc).
Qed.

Lemma int_unsigned_digits n :
  0 <= n -> Num.int_unsigned (Num.digits_of n) = Some n.
Proof.
  intros Hn. unfold Num.digits_of.
  destruct (digits_fuel_reads (Z.to_nat (Z.log2 n)) n EmptyString)
    as [(d & r & Hform & Hd) (k & Hk & Hreads)];
    [split; [assumption | by apply enough_fuel] |].
  specialize (Hreads 0). rewrite Hform in *.
  unfold Num.int_unsigned. rewrite Hd.
  cbn [Num.int_digits] in Hreads. rewrite Hd in Hreads.
  replace (10 * 0 + Str.digit_val d) with (Str.digit_val d) in Hreads by lia.
  rewrite Hreads. reflexivity.
Qed.

Lemma trim_digits n : 0 <= n -> Num.trim (Num.digits_of n) = Num.digits_of n.
Proof.
  intros Hn. unfold Num.trim.
  destruct (digits_fuel_reads (Z.to_nat (Z.log2 n)) n EmptyString)
    as [(d & r & Hform & Hd) _]; [split; [assumption | by apply enough_fuel] |].
  assert (Hall : all_digits (Num.digits_of n) = true)
    by (by apply digits_fuel_all_digits).
  unfold Num.digits_of in *. rewrite Hform in *.
  cbn [Str.lstrip]. rewrite (digit_is_no_blank d Hd).
  by apply rstrip_digits.
Qed.

(** [int(str(n)) == n]. *)
Lemma int_str_int n : Num.int (Num.str_int n) = Some n.
Proof.
  unfold Num.str_int, Num.int.
  destruct (Z.ltb_spec n 0) as [Hneg | Hpos].
  - assert (Htrim : Num.trim (String "-" (Num.digits_of (- n))) =
                    String "-" (Num.digits_of (- n))).
    { pose proof (trim_digits (- n) ltac:(lia)) as Hdigits. unfold Num.trim in *.
      cbn [Str.lstrip].
      change (Num.is_blank "-") with false. cbv iota.
      assert (Hall : all_digits (Num.digits_of (- n)) = true)
        by (by apply digits_fuel_all_digits).
      cbn [Str.rstrip]. rewrite (rstrip_digits _ Hall).
      destruct (digits_fuel_reads (Z.to_nat (Z.log2 (- n))) (- n) EmptyString)
        as [(d & r & Hform & _) _]; [split; [lia | apply enough_fuel; lia] |].
      unfold Num.digits_of. by rewrite Hform. }
    rewrite Htrim, int_unsigned_digits by lia. simpl. f_equal. lia.
  - rewrite trim_digits by assumption.
    pose proof (int_unsigned_digits n Hpos) as Hread.
    destruct (digits_fuel_reads (Z.to_nat (Z.log2 n)) n EmptyString)
      as [(d & r & Hform & Hd) _]; [split; [assumption | by apply enough_fuel] |].
    unfold Num.digits_of in *. rewrite Hform in *.
    destruct d as [[] [] [] [] [] [] [] []]; try discriminate Hd; exact Hread.
Qed.

End IntReadsBack.





Example written_file :
  save_enriched_data [unmatched pabc; matched_north] =
  [ "TransactionID|Date|ProductID|ProductName|Quantity|UnitPrice|CustomerID|Region|API_Category|API_Brand|API_Rating|API_Match"
      +:+ newline;
    "T001|2024-01-01|PABC|Widget|5|10.0|C001|North|None|None|None|False" +:+ newline;
    "T001|2024-01-01|P001|Widget|5|10.0|C001|North|tools|Acme|4.5|True" +:+ newline ].
Proof. vm_compute. reflexivity. Qed.

(** ** Division (C5) *)

(** *** Rounding keeps a positive integer away from zero *)

Section Rounding.
Local Open Scope Z_scope.

Lemma digits2_pos_size p : digits2_pos p = Pos.size p.
Proof. induction p as [p IH | p IH |]; simpl; congruence. Qed.

Lemma Zdigits2_bounds m :
  0 < m -> 2 ^ (Zdigits2 m - 1) <= m < 2 ^ Zdigits2 m.
Proof.
  destruct m as [| p | p]; try lia. intros _. cbn [Zdigits2].
  rewrite digits2_pos_size.
  pose proof (Pos.size_gt p) as Hgt. pose proof (Pos.size_le p) as Hle.
  apply Pos2Z.pos_lt_pos in Hgt. apply Pos2Z.pos_le_pos in Hle.
  rewrite Pos2Z.inj_pow in Hgt, Hle.
  change (Z.pos p~0) with (2 * Z.pos p) in Hle.
  split; [| exact Hgt].
  assert (H2 : 2 ^ Z.pos (Pos.size p) = 2 * 2 ^ (Z.pos (Pos.size p) - 1)).
  { rewrite <- Z.pow_succ_r by lia. f_equal. lia. }
  lia.
Qed.

Lemma Zdigits2_pos m : 0 < m -> 0 < Zdigits2 m.
Proof. destruct m; simpl; lia. Qed.

Lemma Zdigits2_mono m m' : 0 < m -> m <= m' -> Zdigits2 m <= Zdigits2 m'.
Proof.
  intros Hm Hle.
  pose proof (Zdigits2_bounds m Hm) as [Hlo _].
  pose proof (Zdigits2_bounds m' ltac:(lia)) as [_ Hhi].
  pose proof (Zdigits2_pos m Hm).
  destruct (Z.le_gt_cases (Zdigits2 m) (Zdigits2 m')) as [? | Hgt]; [assumption |].
  exfalso.
  assert (2 ^ Zdigits2 m' <= 2 ^ (Zdigits2 m - 1)) by (apply Z.pow_le_mono_r; lia).
  lia.
Qed.

Lemma shr_1_m r : 0 <= shr_m r -> shr_m (shr_1 r) = shr_m r / 2.
Proof.
  destruct r as [m rb sb]. cbn [shr_m]. intros Hm.
  destruct m as [| [p | p |] | p]; cbn [shr_1 shr_m]; try lia; try reflexivity.
  - apply (Z.div_unique _ _ _ 1); lia.
  - apply (Z.div_unique _ _ _ 0); lia.
Qed.

Lemma pow2_xO p : 2 ^ Z.pos p~0 = 2 ^ Z.pos p * 2 ^ Z.pos p.
Proof.
  change (Z.pos p~0) with (2 * Z.pos p).
  replace (2 * Z.pos p) with (Z.pos p + Z.pos p) by lia.
  apply Z.pow_add_r; lia.
Qed.

Lemma pow2_xI p : 2 ^ Z.pos p~1 = 2 * (2 ^ Z.pos p * 2 ^ Z.pos p).
Proof.
  change (Z.pos p~1) with (Z.succ (Z.pos p~0)).
  rewrite Z.pow_succ_r, pow2_xO by lia. reflexivity.
Qed.

Lemma iter_shr_m p : forall r,
  0 <= shr_m r ->
  shr_m (SpecFloat.iter_pos shr_1 p r) = shr_m r / 2 ^ Z.pos p.
Proof.
  assert (Hnonneg : forall a b, 0 <= a -> 0 < b -> 0 <= a / b)
    by (intros; apply Z.div_pos; lia).
  assert (Hpow : forall q, 0 < 2 ^ Z.pos q) by (intros; apply Z.pow_pos_nonneg; lia).
  induction p as [p IH | p IH |]; intros r Hr; cbn [SpecFloat.iter_pos].
  - assert (H1 : 0 <= shr_m (shr_1 r)) by (rewrite shr_1_m by assumption; apply Hnonneg; lia).
    assert (H2 : 0 <= shr_m (SpecFloat.iter_pos shr_1 p (shr_1 r)))
      by (rewrite IH by assumption; apply Hnonneg; [assumption | apply Hpow]).
    rewrite IH, IH, shr_1_m by assumption.
    pose proof (Hpow p).
    rewrite !Z.div_div by lia.
    rewrite pow2_xI; reflexivity.
  - assert (H2 : 0 <= shr_m (SpecFloat.iter_pos shr_1 p r))
      by (rewrite IH by assumption; apply Hnonneg; [assumption | apply Hpow]).
    rewrite IH, IH by assumption.
    pose proof (Hpow p).
    rewrite !Z.div_div by lia.
    rewrite pow2_xO; reflexivity.
  - rewrite shr_1_m by assumption. reflexivity.
Qed.

Lemma shr_record_of_loc_m m l : shr_m (shr_record_of_loc m l) = m.
Proof. destruct l as [| []]; reflexivity. Qed.

(** After the shift [fexp] asks for, a positive mantissa whose value lies
    above the least exponent stays positive. *)
Lemma shr_fexp_pos m e l :
  0 < m -> emin Num.prec Num.emax < Zdigits2 m + e ->
  0 < shr_m (fst (shr_fexp Num.prec Num.emax m e l)) /\
  (snd (shr_fexp Num.prec Num.emax m e l) = e /\ shr_m (fst (shr_fexp Num.prec Num.emax m e l)) = m \/
   emin Num.prec Num.emax <= snd (shr_fexp Num.prec Num.emax m e l)).
Proof.
  intros Hm He.
  pose proof (Zdigits2_bounds m Hm) as [Hlo _].
  pose proof (Zdigits2_pos m Hm) as Hd.
  unfold shr_fexp, shr.
  destruct (fexp Num.prec Num.emax (Zdigits2 m + e) - e) as [| n | n] eqn:Hn; cbn [fst snd];
    rewrite ?shr_record_of_loc_m; try (split; [assumption | left; split; reflexivity]).
  rewrite iter_shr_m by (rewrite shr_record_of_loc_m; lia).
  rewrite shr_record_of_loc_m.
  unfold fexp, emin, Num.prec, Num.emax in *.
  split.
  - apply Z.div_str_pos. split; [apply Z.pow_pos_nonneg; lia |].
    transitivity (2 ^ (Zdigits2 m - 1)); [apply Z.pow_le_mono_r; lia | assumption].
  - right. lia.
Qed.

Lemma round_nearest_even_ge m l : m <= round_nearest_even m l.
Proof. destruct l as [| []]; simpl; try lia. destruct (Z.even m); lia. Qed.

(** Rounding a positive mantissa whose value lies above the least exponent
    gives a finite float or an infinity, never a zero. *)
Lemma binary_round_aux_nonzero sx m e l :
  0 < m -> emin Num.prec Num.emax < Zdigits2 m + e ->
  match binary_round_aux Num.prec Num.emax sx m e l with
  | S754_finite _ _ _ | S754_infinity _ => True
  | _ => False
  end.
Proof.
  intros Hm He. unfold binary_round_aux.
  pose proof (shr_fexp_pos m e l Hm He) as [Hpos1 Hexp1].
  destruct (shr_fexp Num.prec Num.emax m e l) as [mrs1 e1]. cbn [fst snd] in *.
  set (m2 := round_nearest_even (shr_m mrs1) (loc_of_shr_record mrs1)).
  assert (Hm2 : shr_m mrs1 <= m2) by apply round_nearest_even_ge.
  assert (He2 : emin Num.prec Num.emax < Zdigits2 m2 + e1).
  { destruct Hexp1 as [[-> Heq] | Hmin].
    - rewrite Heq in Hm2.
      pose proof (Zdigits2_mono m m2 Hm Hm2). lia.
    - pose proof (Zdigits2_pos m2 ltac:(lia)). lia. }
  pose proof (shr_fexp_pos m2 e1 loc_Exact ltac:(lia) He2) as [Hpos2 _].
  destruct (shr_fexp Num.prec Num.emax m2 e1 loc_Exact) as [mrs2 e2]. cbn [fst snd] in *.
  destruct (shr_m mrs2); try lia.
  destruct (e2 <=? Num.emax - Num.prec); exact I.
Qed.

(** The float of a positive integer is the rounding of a positive mantissa
    of magnitude at least 1. *)
Lemma of_ratio_integer_round neg p :
  exists m e,
    0 < m /\ 0 < Zdigits2 m + e /\
    Num.of_ratio neg (Zpos p) 1 = binary_round_aux Num.prec Num.emax neg m e loc_Exact.
Proof.
  unfold Num.of_ratio, SFdiv_core_binary.
  set (e' := Z.min (fexp Num.prec Num.emax (Zdigits2 (Z.pos p) + 0 - (Zdigits2 1 + 0))) (0 - 0)).
  assert (He' : e' <= 0) by (unfold e'; lia).
  set (m' := match 0 - 0 - e' with
             | 0 => Z.pos p
             | Z.pos _ => Z.shiftl (Z.pos p) (0 - 0 - e')
             | Z.neg _ => 0
             end).
  assert (Hm' : m' = Z.pos p * 2 ^ (- e')).
  { unfold m'. destruct (0 - 0 - e') as [| s | s] eqn:Hs; try lia.
    - replace (- e') with 0 by lia. simpl. lia.
    - rewrite Z.shiftl_mul_pow2 by lia. f_equal. f_equal. lia. }
  pose proof (Z.div_1_r m') as Hq. pose proof (Z.mod_1_r m') as Hr.
  unfold Z.div, Z.modulo in Hq, Hr.
  destruct (Z.div_eucl m' 1) as [q r]. subst q r.
  assert (Hpow : 0 < 2 ^ (- e')) by (apply Z.pow_pos_nonneg; lia).
  assert (Hpos : 0 < m') by (rewrite Hm'; lia).
  exists m', e'. split; [assumption |]. split; [| reflexivity].
  pose proof (Zdigits2_bounds m' Hpos) as [_ Hhi].
  assert (Hlt : - e' < Zdigits2 m').
  { destruct (Z.lt_ge_cases (- e') (Zdigits2 m')) as [? | Hge]; [assumption | exfalso].
    pose proof (Zdigits2_pos m' Hpos).
    assert (2 ^ Zdigits2 m' <= 2 ^ (- e')) by (apply Z.pow_le_mono_r; lia).
    nia. }
  lia.
Qed.

(** The float of a positive integer is not a zero. *)
Lemma of_ratio_integer_nonzero neg p :
  match Num.of_ratio neg (Zpos p) 1 with
  | S754_finite _ _ _ | S754_infinity _ => True
  | _ => False
  end.
Proof.
  destruct (of_ratio_integer_round neg p) as (m & e & Hm & He & ->).
  apply binary_round_aux_nonzero; [assumption |].
  unfold emin, Num.prec, Num.emax. lia.
Qed.

End Rounding.

Lemma of_int_nonzero n x : n <> 0%Z -> Num.of_int n = Ok x -> Num.is_zero x = false.
Proof.
  intros Hn. unfold Num.of_int.
  destruct (Z.abs n) as [| p | p] eqn:Habs; try lia.
  pose proof (of_ratio_integer_nonzero (n <? 0)%Z p) as Hnz.
  destruct (Num.of_ratio _ _ _); try contradiction; [discriminate |].
  by intros [= <-].
Qed.

(** *** Loops that raise *)

Lemma for_each_raise {A S : Type} (body : S -> A -> result S) (l : list A) : forall st e,
  for_each body l st = Raise e -> exists st' x, In x l /\ body st' x = Raise e.
Proof.
  induction l as [| x l IH]; intros st e; simpl; [discriminate |].
  destruct (body st x) as [st' | e'] eqn:Hx; simpl.
  - intros Hrest. destruct (IH st' e Hrest) as (st'' & y & Hy & Hraise).
    exists st'', y. auto.
  - intros [= <-]. exists st, x. auto.
Qed.

Lemma for_each_invariant {A S : Type} (body : S -> A -> result S) (P : S -> Prop) :
  (forall st x st', P st -> body st x = Ok st' -> P st') ->
  forall l st st', P st -> for_each body l st = Ok st' -> P st'.
Proof.
  intros Hstep. induction l as [| x l IH]; intros st st' Hst; simpl.
  - by intros [= <-].
  - destruct (body st x) as [st1 | e] eqn:Hx; simpl; [| discriminate].
    apply IH. by eapply Hstep.
Qed.

(** *** Which divisions can fail *)

Lemma to_float_raises a e : Num.to_float a = Raise e -> e = OverflowError.
Proof.
  destruct a as [n | x]; simpl; [| discriminate].
  unfold Num.of_int. destruct (Num.of_ratio _ _ _); congruence.
Qed.

Lemma mul_raises a b e : Num.mul a b = Raise e -> e = OverflowError.
Proof.
  destruct a as [x | x], b as [y | y]; simpl; try discriminate;
    repeat match goal with
           | |- context [Num.of_int ?n] =>
               let H := fresh in
               destruct (Num.of_int n) eqn:H; simpl;
               [| apply (to_float_raises (Num.Int n)) in H; congruence]
           end; discriminate.
Qed.

(** Dividing by a number that is not zero raises no [ZeroDivisionError]. *)
Lemma div_by_nonzero a b :
  is_zero_number b = false -> Num.div a b <> Raise ZeroDivisionError.
Proof.
  intros Hb.
  assert (Hconv : forall x, match Num.to_float b with
                            | Ok y => Num.truediv x y
                            | Raise e => Raise e
                            end <> Raise ZeroDivisionError).
  { intros x. destruct (Num.to_float b) as [y | e] eqn:Hy.
    - assert (Hy0 : Num.is_zero y = false).
      { destruct b as [n | z]; simpl in *.
        + apply (of_int_nonzero n y); [by apply Z.eqb_neq | assumption].
        + congruence. }
      unfold Num.truediv. rewrite Hy0. discriminate.
    - apply to_float_raises in Hy. congruence. }
  destruct a as [x | x], b as [y | y]; simpl in *.
  - unfold Num.int_truediv. destruct y; [discriminate | |];
      destruct (Num.of_ratio _ _ _); discriminate.
  - destruct (Num.of_int x) as [fx |] eqn:Hx; simpl.
    + unfold Num.truediv. rewrite Hb. discriminate.
    + apply (to_float_raises (Num.Int x)) in Hx. congruence.
  - apply (Hconv x).
  - unfold Num.truediv. rewrite Hb. discriminate.
Qed.

Lemma region_percentage_safe sales total_rev :
  is_zero_number total_rev = false ->
  region_percentage sales total_rev <> Raise ZeroDivisionError.
Proof.
  intros Hnz. unfold region_percentage.
  pose proof (div_by_nonzero (Num.Float sales) total_rev Hnz) as Hdiv.
  destruct (Num.div _ _) as [share | e]; cbn [rbind]; [| congruence].
  destruct (Num.mul (Num.Float share) hundred) as [pct | e] eqn:Hmul; cbn [rbind].
  - destruct (Num.to_float pct) as [x | e] eqn:Hx; cbn [rbind]; [discriminate |].
    apply to_float_raises in Hx. congruence.
  - apply mul_raises in Hmul. congruence.
Qed.

Lemma customer_average_safe spent count :
  count <> 0 -> customer_average spent count <> Raise ZeroDivisionError.
Proof.
  intros Hcount. unfold customer_average.
  pose proof (div_by_nonzero (Num.Float spent) (Num.Int (Z.of_nat count))) as Hdiv.
  destruct (Num.div _ _) as [avg | e]; simpl; [discriminate |].
  intros [= ->]. apply Hdiv; [| reflexivity].
  simpl. apply Z.eqb_neq. lia.
Qed.

Lemma average_order_safe total_rev total_tx :
  average_order total_rev total_tx <> Raise ZeroDivisionError.
Proof.
  unfold average_order. destruct (Nat.ltb_spec 0 total_tx) as [Hpos | _]; [| discriminate].
  pose proof (div_by_nonzero total_rev (Num.Int (Z.of_nat total_tx))) as Hdiv.
  destruct (Num.div _ _) as [q | e]; simpl; [discriminate |].
  intros [= ->]. apply Hdiv; [| reflexivity].
  simpl. apply Z.eqb_neq. lia.
Qed.

Lemma success_rate_safe total_enriched enriched :
  success_rate total_enriched enriched <> Raise ZeroDivisionError.
Proof.
  unfold success_rate. destruct enriched as [| e0 enriched]; [discriminate |].
  pose proof (div_by_nonzero (Num.Int (Z.of_nat total_enriched))
                (Num.Int (Z.of_nat (List.length (e0 :: enriched))))) as Hdiv.
  destruct (Num.div _ _) as [q | e]; cbn [rbind].
  - intros Hmul. apply mul_raises in Hmul. discriminate.
  - intros [= ->]. apply Hdiv; reflexivity.
Qed.

(** Every customer in the table has made a purchase. *)
Lemma customer_counts_positive transactions cust_stats :
  for_each customer_step transactions [] = Ok cust_stats ->
  Forall (fun entry => ct_purchase_count (snd entry) <> 0) cust_stats.
Proof.
  apply (for_each_invariant customer_step
           (Forall (fun entry => ct_purchase_count (snd entry) <> 0)));
    [| constructor].
  intros st t st' Hst. unfold customer_step.
  destruct (amount t) as [spent |]; simpl; [| discriminate].
  intros [= <-].
  induction Hst as [| [cid s] st Hs Hst IH]; simpl.
  - constructor; [simpl; lia | constructor].
  - destruct (String.eqb cid (CustomerID t)); constructor; simpl; auto.
Qed.

Lemma customer_analysis_safe transactions :
  customer_analysis transactions <> Raise ZeroDivisionError.
Proof.
  unfold customer_analysis.
  destruct (for_each customer_step transactions []) as [cust_stats | e] eqn:Hloop; simpl.
  - pose proof (customer_counts_positive transactions cust_stats Hloop) as Hpos.
    destruct (for_each _ cust_stats []) as [done | e] eqn:Havg; simpl; [discriminate |].
    apply for_each_raise in Havg as (acc & [cid s] & Hin & Hraise).
    rewrite List.Forall_forall in Hpos. specialize (Hpos _ Hin). simpl in Hpos.
    pose proof (customer_average_safe (ct_total_spent s) (ct_purchase_count s) Hpos) as Hsafe.
    destruct (customer_average _ _); simpl in Hraise; congruence.
  - apply for_each_raise in Hloop as (st & t & _ & Hraise).
    unfold customer_step in Hraise.
    destruct (amount t) as [spent | e'] eqn:Ha; simpl in Hraise; [discriminate |].
    apply amount_raises in Ha. congruence.
Qed.

Lemma region_wise_sales_safe transactions total_rev :
  calculate_total_revenue transactions = Ok total_rev ->
  transactions = [] \/ is_zero_number total_rev = false ->
  region_wise_sales transactions <> Raise ZeroDivisionError.
Proof.
  intros Htotal Hcase. unfold region_wise_sales. rewrite Htotal. simpl.
  destruct (for_each region_step transactions []) as [stats | e] eqn:Hloop; simpl.
  - destruct (for_each _ stats []) as [done | e] eqn:Hpct; simpl; [discriminate |].
    apply for_each_raise in Hpct as (acc & [region s] & Hin & Hraise).
    destruct Hcase as [-> | Hnz].
    + simpl in Hloop. injection Hloop as <-. contradiction.
    + pose proof (region_percentage_safe (rt_total_sales s) total_rev Hnz) as Hsafe.
      unfold percentage_step in Hraise.
      destruct (region_percentage _ _); simpl in Hraise; congruence.
  - apply for_each_raise in Hloop as (st & t & _ & Hraise).
    unfold region_step in Hraise.
    destruct (amount t) as [rev | e'] eqn:Ha; simpl in Hraise; [discriminate |].
    apply amount_raises in Ha. congruence.
Qed.

(** *** Validated amounts are positive *)

Section Positive.
Local Open Scope Z_scope.

Lemma positive_not_zero x : positive x -> Num.is_zero x = false.
Proof. destruct x as [[] | [] | | [] m e]; simpl; tauto. Qed.

Lemma shr_fexp_exponent m e l :
  0 < m -> emin Num.prec Num.emax <= snd (shr_fexp Num.prec Num.emax m e l) \/
           snd (shr_fexp Num.prec Num.emax m e l) = e.
Proof.
  intros Hm. unfold shr_fexp, shr.
  destruct (fexp Num.prec Num.emax (Zdigits2 m + e) - e) as [| n | n] eqn:Hn;
    cbn [snd]; [by right | | by right].
  left. unfold fexp in *. lia.
Qed.

(** The shift never happens below the least exponent. *)
Lemma shr_fexp_emin m e l :
  0 < m -> emin Num.prec Num.emax <= snd (shr_fexp Num.prec Num.emax m e l).
Proof.
  intros Hm. unfold shr_fexp, shr.
  destruct (fexp Num.prec Num.emax (Zdigits2 m + e) - e) as [| n | n] eqn:Hn;
    cbn [snd]; unfold fexp in *; lia.
Qed.

(** Rounding a positive mantissa above the least exponent keeps the sign
    and gives a finite float at or above the least exponent, or the
    infinity of that sign. *)
Lemma binary_round_aux_positive m e l :
  0 < m -> emin Num.prec Num.emax < Zdigits2 m + e ->
  positive (binary_round_aux Num.prec Num.emax false m e l).
Proof.
  intros Hm He. unfold binary_round_aux.
  pose proof (shr_fexp_pos m e l Hm He) as [Hpos1 _].
  pose proof (shr_fexp_emin m e l Hm) as Hmin1.
  destruct (shr_fexp Num.prec Num.emax m e l) as [mrs1 e1]. cbn [fst snd] in *.
  set (m2 := round_nearest_even (shr_m mrs1) (loc_of_shr_record mrs1)).
  assert (Hm2 : 0 < m2)
    by (pose proof (round_nearest_even_ge (shr_m mrs1) (loc_of_shr_record mrs1));
        unfold m2; lia).
  pose proof (Zdigits2_pos m2 Hm2) as Hd2.
  pose proof (shr_fexp_pos m2 e1 loc_Exact Hm2 ltac:(lia)) as [Hpos2 _].
  pose proof (shr_fexp_emin m2 e1 loc_Exact Hm2) as Hmin2.
  destruct (shr_fexp Num.prec Num.emax m2 e1 loc_Exact) as [mrs2 e2]. cbn [fst snd] in *.
  destruct (shr_m mrs2); try lia.
  destruct (e2 <=? Num.emax - Num.prec); simpl; [assumption | exact I].
Qed.

Lemma Zdigits2_above k x : 0 <= k -> 2 ^ k <= x -> k < Zdigits2 x.
Proof.
  intros Hk Hx.
  assert (Hpos : 0 < x) by (pose proof (Z.pow_pos_nonneg 2 k); lia).
  pose proof (Zdigits2_bounds x Hpos) as [_ Hhi].
  destruct (Z.lt_ge_cases k (Zdigits2 x)) as [? | Hge]; [assumption | exfalso].
  pose proof (Zdigits2_pos x Hpos).
  assert (2 ^ Zdigits2 x <= 2 ^ k) by (apply Z.pow_le_mono_r; lia).
  lia.
Qed.

Lemma Zdigits2_mul a b :
  0 < a -> 0 < b -> Zdigits2 a + Zdigits2 b - 1 <= Zdigits2 (a * b).
Proof.
  intros Ha Hb.
  pose proof (Zdigits2_bounds a Ha) as [Hla _].
  pose proof (Zdigits2_bounds b Hb) as [Hlb _].
  pose proof (Zdigits2_pos a Ha). pose proof (Zdigits2_pos b Hb).
  assert (Hprod : 2 ^ (Zdigits2 a - 1 + (Zdigits2 b - 1)) <= a * b).
  { rewrite Z.pow_add_r by lia.
    apply Z.mul_le_mono_nonneg; try assumption; apply Z.pow_nonneg; lia. }
  assert (Hk : 0 <= Zdigits2 a - 1 + (Zdigits2 b - 1)) by lia.
  pose proof (Zdigits2_above _ _ Hk Hprod). lia.
Qed.

Lemma shr_fexp_magnitude m e l :
  0 < m -> emin Num.prec Num.emax < Zdigits2 m + e ->
  Zdigits2 m + e <=
  Zdigits2 (shr_m (fst (shr_fexp Num.prec Num.emax m e l))) +
  snd (shr_fexp Num.prec Num.emax m e l).
Proof.
  intros Hm He.
  pose proof (Zdigits2_bounds m Hm) as [Hlo _].
  pose proof (Zdigits2_pos m Hm) as Hd.
  unfold shr_fexp, shr.
  destruct (fexp Num.prec Num.emax (Zdigits2 m + e) - e) as [| n | n] eqn:Hn;
    cbn [fst snd]; rewrite ?shr_record_of_loc_m; try lia.
  rewrite iter_shr_m by (rewrite shr_record_of_loc_m; lia).
  rewrite shr_record_of_loc_m.
  assert (Hn' : Z.pos n <= Zdigits2 m - 1)
    by (unfold fexp, emin, Num.prec, Num.emax in *; lia).
  assert (Hq : 2 ^ (Zdigits2 m - 1 - Z.pos n) <= m / 2 ^ Z.pos n).
  { apply Z.div_le_lower_bound; [apply Z.pow_pos_nonneg; lia |].
    rewrite <- Z.pow_add_r by lia.
    replace (Z.pos n + (Zdigits2 m - 1 - Z.pos n)) with (Zdigits2 m - 1) by lia.
    assumption. }
  assert (Hk : 0 <= Zdigits2 m - 1 - Z.pos n) by lia.
  pose proof (Zdigits2_above _ _ Hk Hq). lia.
Qed.

(** Rounding does not lower the magnitude. *)
Lemma binary_round_aux_magnitude m e l :
  0 < m -> emin Num.prec Num.emax < Zdigits2 m + e ->
  match binary_round_aux Num.prec Num.emax false m e l with
  | S754_finite _ m' e' => Zdigits2 m + e <= Zdigits2 (Z.pos m') + e'
  | _ => True
  end.
Proof.
  intros Hm He. unfold binary_round_aux.
  pose proof (shr_fexp_pos m e l Hm He) as [Hpos1 _].
  pose proof (shr_fexp_magnitude m e l Hm He) as Hmag1.
  destruct (shr_fexp Num.prec Num.emax m e l) as [mrs1 e1]. cbn [fst snd] in *.
  set (m2 := round_nearest_even (shr_m mrs1) (loc_of_shr_record mrs1)).
  assert (Hge : shr_m mrs1 <= m2) by apply round_nearest_even_ge.
  pose proof (Zdigits2_mono _ _ Hpos1 Hge) as Hmono.
  pose proof (shr_fexp_magnitude m2 e1 loc_Exact ltac:(lia) ltac:(lia)) as Hmag2.
  destruct (shr_fexp Num.prec Num.emax m2 e1 loc_Exact) as [mrs2 e2]. cbn [fst snd] in *.
  destruct (shr_m mrs2); try exact I.
  destruct (e2 <=? Num.emax - Num.prec); [lia | exact I].
Qed.

(** The float of an int that is at least 1: positive, of magnitude at
    least 1. *)
Lemma of_int_positive n q :
  1 <= n -> Num.of_int n = Ok q ->
  exists m e, q = S754_finite false m e /\ 0 < magnitude q.
Proof.
  intros Hn. unfold Num.of_int.
  destruct n as [| p | p]; try lia.
  change (Z.abs (Z.pos p)) with (Z.pos p). change (Z.pos p <? 0) with false.
  destruct (of_ratio_integer_round false p) as (m & e & Hm & He & ->).
  assert (Hmin : emin Num.prec Num.emax < Zdigits2 m + e)
    by (unfold emin, Num.prec, Num.emax; lia).
  pose proof (binary_round_aux_positive m e loc_Exact Hm Hmin) as Hpos.
  pose proof (binary_round_aux_magnitude m e loc_Exact Hm Hmin) as Hmag.
  pose proof (binary_round_aux_nonzero false m e loc_Exact Hm Hmin) as Hnz.
  destruct (binary_round_aux Num.prec Num.emax false m e loc_Exact)
    as [s | s | | s m' e']; try destruct s; try contradiction;
    intros Hq; try discriminate Hq.
  injection Hq as <-. exists m', e'. split; [reflexivity |]. cbn [magnitude]. lia.
Qed.

Lemma fmul_positive q x :
  (exists m e, q = S754_finite false m e /\ 0 < magnitude q) ->
  positive x -> positive (Num.fmul q x).
Proof.
  intros (mq & eq & -> & Hq) Hx. cbn [magnitude] in Hq.
  destruct x as [[] | [] | | [] mp ep]; try contradiction; try exact I.
  simpl in Hx. unfold Num.fmul, SFmul. cbn [xorb].
  apply binary_round_aux_positive; [lia |].
  pose proof (Zdigits2_mul (Z.pos mq) (Z.pos mp) ltac:(lia) ltac:(lia)) as Hmul.
  pose proof (Zdigits2_pos (Z.pos mp) ltac:(lia)).
  change (Z.pos (mq * mp)) with (Z.pos mq * Z.pos mp). lia.
Qed.

Lemma binary_round_positive m e :
  emin Num.prec Num.emax <= e -> positive (binary_round Num.prec Num.emax false m e).
Proof.
  intros He. unfold binary_round, shl_align.
  destruct (fexp Num.prec Num.emax (Z.pos (digits2_pos m) + e) - e) as [| d | d] eqn:Hd;
    apply binary_round_aux_positive; try lia.
  - pose proof (Zdigits2_pos (Z.pos m) ltac:(lia)). lia.
  - pose proof (Zdigits2_pos (Z.pos m) ltac:(lia)). lia.
  - pose proof (Zdigits2_pos (Z.pos (Pos.iter xO m d)) ltac:(lia)).
    unfold fexp in *. lia.
Qed.

Lemma fadd_positive x y : positive x -> positive y -> positive (Num.fadd x y).
Proof.
  destruct x as [[] | [] | | [] mx ex], y as [[] | [] | | [] my ey];
    try contradiction; try (intros; exact I).
  simpl. intros Hx Hy. unfold Num.fadd, SFadd.
  unfold cond_Zopp. cbn [Z.add binary_normalize].
  apply binary_round_positive. lia.
Qed.

Lemma fadd_zero_positive x : positive x -> positive (Num.fadd Num.fzero x).
Proof. destruct x as [[] | [] | | [] m e]; simpl; tauto. Qed.

End Positive.

Lemma price_positive t : validated t -> positive (UnitPrice t).
Proof.
  intros [Hvalid Hbinary]. unfold is_valid in Hvalid.
  destruct (Num.fle (UnitPrice t) Num.fzero) eqn:Hle.
  - repeat match type of Hvalid with
           | context [if ?c then _ else _] => destruct c
           end; discriminate.
  - destruct (UnitPrice t) as [[] | [] | | [] m e]; try discriminate; try exact I.
    simpl in *. unfold bounded, canonical_mantissa in Hbinary.
    apply andb_true_iff in Hbinary as [Hcanon _].
    apply Z.eqb_eq in Hcanon. unfold fexp in Hcanon. lia.
Qed.

Lemma amount_positive t a : validated t -> amount t = Ok a -> positive a.
Proof.
  intros Hv. pose proof (price_positive t Hv) as Hprice.
  destruct Hv as [Hvalid _]. unfold amount.
  destruct (Num.of_int (Quantity t)) as [q |] eqn:Hq; simpl; [| discriminate].
  intros [= <-]. apply fmul_positive; [| assumption].
  apply (of_int_positive (Quantity t)); [| assumption].
  unfold is_valid in Hvalid.
  destruct (Z.leb_spec (Quantity t) 0); [| lia].
  repeat match type of Hvalid with
         | context [if ?c then _ else _] => destruct c
         end; discriminate.
Qed.

Lemma revenue_loop_positive txs :
  Forall validated txs ->
  forall x total,
    positive x ->
    for_each (fun acc t => do* a <- amount t; Num.add acc (Num.Float a)) txs (Num.Float x) =
      Ok total ->
    exists y, total = Num.Float y /\ positive y.
Proof.
  induction 1 as [| t txs Ht _ IH]; intros x total Hx; simpl.
  - intros [= <-]. eauto.
  - destruct (amount t) as [a |] eqn:Ha; simpl; [| discriminate].
    apply IH, fadd_positive; [assumption | by apply (amount_positive t)].
Qed.

(** The total revenue of validated records is not zero. *)
Lemma validated_revenue_not_zero txs total :
  txs <> [] -> Forall validated txs ->
  calculate_total_revenue txs = Ok total -> is_zero_number total = false.
Proof.
  intros Hne Hall. destruct Hall as [| t txs Ht Hall]; [contradiction |].
  unfold calculate_total_revenue. simpl.
  destruct (amount t) as [a |] eqn:Ha; simpl; [| discriminate].
  intros Hloop.
  apply (revenue_loop_positive txs Hall) in Hloop as (y & -> & Hy).
  - by apply positive_not_zero.
  - apply fadd_zero_positive. by apply (amount_positive t).
Qed.

Lemma add_raises a b e : Num.add a b = Raise e -> e = OverflowError.
Proof.
  destruct a as [x | x], b as [y | y]; simpl; try discriminate;
    repeat match goal with
           | |- context [Num.of_int ?n] =>
               let H := fresh in
               destruct (Num.of_int n) eqn:H; simpl;
               [| apply (to_float_raises (Num.Int n)) in H; congruence]
           end; discriminate.
Qed.

Lemma calculate_total_revenue_raises txs e :
  calculate_total_revenue txs = Raise e -> e = OverflowError.
Proof.
  intros Hraise. apply for_each_raise in Hraise as (acc & t & _ & Hbody).
  destruct (amount t) as [a | e'] eqn:Ha; simpl in Hbody.
  - by apply add_raises in Hbody.
  - apply amount_raises in Ha. congruence.
Qed.

(** On the records the validator passes on, the region percentage does
    not divide by zero. *)
Lemma region_wise_sales_validated txs :
  Forall validated txs -> region_wise_sales txs <> Raise ZeroDivisionError.
Proof.
  intros Hall.
  destruct (calculate_total_revenue txs) as [total | e] eqn:Htotal.
  - apply (region_wise_sales_safe txs total Htotal).
    destruct txs as [| t txs]; [by left | right].
    by apply (validated_revenue_not_zero (t :: txs)).
  - unfold region_wise_sales. rewrite Htotal. simpl.
    apply calculate_total_revenue_raises in Htotal. congruence.
Qed.

(** C5, as stated, fails: the region percentage divides by the total
    revenue without a guard, and a list whose total revenue is zero raises
    [ZeroDivisionError]. *)
Lemma region_percentage_divides_by_zero :
  calculate_total_revenue [free_sample] = Ok (Num.Float (S754_zero false)) /\
  region_wise_sales [free_sample] = Raise ZeroDivisionError.
Proof. split; vm_compute; reflexivity. Qed.

(** The loops of the aggregator raise what [amount] raises. *)
Lemma step_raises {S : Type} (body : S -> Transaction -> result S) txs st e :
  (forall st t e, body st t = Raise e -> amount t = Raise e) ->
  for_each body txs st = Raise e -> e = OverflowError.
Proof.
  intros Hbody Hraise.
  apply for_each_raise in Hraise as (st' & t & _ & Hstep).
  by apply Hbody, amount_raises in Hstep.
Qed.

Lemma top_selling_products_raises txs n e :
  top_selling_products txs n = Raise e -> e = OverflowError.
Proof.
  unfold top_selling_products.
  destruct (for_each product_step txs []) as [d |] eqn:Hloop; simpl; [discriminate |].
  intros [= <-]. apply (step_raises product_step txs [] _) in Hloop; [assumption |].
  intros st t e'. unfold product_step. destruct (amount t); simpl; congruence.
Qed.

Lemma daily_sales_trend_raises txs e :
  daily_sales_trend txs = Raise e -> e = OverflowError.
Proof.
  unfold daily_sales_trend.
  destruct (for_each day_step txs []) as [d |] eqn:Hloop; simpl; [discriminate |].
  intros [= <-]. apply (step_raises day_step txs [] _) in Hloop; [assumption |].
  intros st t e'. unfold day_step. destruct (amount t); simpl; congruence.
Qed.

Lemma find_peak_sales_day_raises txs e :
  find_peak_sales_day txs = Raise e -> e = OverflowError.
Proof.
  unfold find_peak_sales_day.
  destruct (daily_sales_trend txs) as [[| first rest] |] eqn:Htrend; simpl; try discriminate.
  intros [= <-]. by apply daily_sales_trend_raises in Htrend.
Qed.

(** On validated records the report generator divides by nothing that is
    zero. *)
Lemma generate_sales_report_validated txs enriched :
  Forall validated txs -> generate_sales_report txs enriched <> Raise ZeroDivisionError.
Proof.
  intros Hall. unfold generate_sales_report.
  destruct (calculate_total_revenue txs) as [total_rev | e] eqn:Htotal; simpl;
    [| apply calculate_total_revenue_raises in Htotal; congruence].
  pose proof (average_order_safe total_rev (List.length txs)) as Havg.
  destruct (average_order _ _) as [avg | e]; simpl; [| congruence].
  pose proof (region_wise_sales_validated txs Hall) as Hreg.
  destruct (region_wise_sales txs) as [reg_stats | e]; simpl; [| congruence].
  destruct (top_selling_products txs 5) as [top_prods | e] eqn:Htop; simpl;
    [| apply top_selling_products_raises in Htop; congruence].
  destruct (daily_sales_trend txs) as [trend | e] eqn:Htrend; simpl;
    [| apply daily_sales_trend_raises in Htrend; congruence].
  destruct (find_peak_sales_day txs) as [[[[peak_day peak_rev] count] |] | e] eqn:Hpeak;
    simpl; [| discriminate | apply find_peak_sales_day_raises in Hpeak; congruence].
  pose proof (success_rate_safe (List.length (List.filter API_Match enriched)) enriched)
    as Hrate.
  destruct (success_rate _ _) as [rate | e]; simpl; [discriminate | congruence].
Qed.

(** C5, amended: the customer average, the average order value and the API
    success rate raise no division error on any list: every customer in the
    table has at least one purchase, and the other two are guarded.  The
    region percentage has no guard of its own: it raises no division error
    when the list is empty or its total revenue is not zero, hence on every
    list of records that passed validation (positive quantity, positive
    binary64 price), on which the report generator raises none either. *)
Theorem division_guards (transactions : list Transaction)
  (enriched_transactions : list EnrichedTransaction)
  (total_rev : Num.number) (total_enriched : nat) :
  customer_analysis transactions <> Raise ZeroDivisionError /\
  average_order total_rev (List.length transactions) <> Raise ZeroDivisionError /\
  success_rate total_enriched enriched_transactions <> Raise ZeroDivisionError /\
  (calculate_total_revenue transactions = Ok total_rev ->
   transactions = [] \/ is_zero_number total_rev = false ->
   region_wise_sales transactions <> Raise ZeroDivisionError) /\
  (Forall validated transactions ->
   region_wise_sales transactions <> Raise ZeroDivisionError /\
   generate_sales_report transactions enriched_transactions <> Raise ZeroDivisionError).
Proof.
  split; [apply customer_analysis_safe |].
  split; [apply average_order_safe |].
  split; [apply success_rate_safe |].
  split; [apply region_wise_sales_safe |].
  intros Hall. split.
  - by apply region_wise_sales_validated.
  - by apply generate_sales_report_validated.
Qed.

Example north_is_validated : validated north.
Proof. split; reflexivity. Qed.

Example region_percentage_of_one_region :
  calculate_total_revenue [north] =
    Ok (Num.Float (S754_finite false 7036874417766400 (-47))) /\
  region_wise_sales [north] =
    Ok [("North", {| total_sales := S754_finite false 7036874417766400 (-47);
                     transaction_count := 1;
                     percentage := S754_finite false 7036874417766400 (-46) |})].
Proof. split; vm_compute; reflexivity. Qed.

(** ** Region totals (C8) *)

(** *** The order of floats *)

Ltac fold_pos_compare :=
  repeat match goal with
         | |- context [Pos.compare_cont Eq ?a ?b] =>
             change (Pos.compare_cont Eq a b) with (Pos.compare a b)
         end.

Ltac compare_cases :=
  repeat match goal with
         | |- context [(?a ?= ?b)%Z] => destruct (Z.compare_spec a b)
         | |- context [(?a ?= ?b)%positive] => destruct (Pos.compare_spec a b)
         end;
  simpl; try discriminate; try lia; try reflexivity.

Ltac float_order :=
  unfold Num.flt, Num.fle, Num.is_nan, SFltb, SFleb, SFcompare;
  repeat match goal with
         | x : Num.float |- _ => destruct x as [[] | [] | | [] ? ?]
         end;
  try discriminate; try reflexivity;
  fold_pos_compare; compare_cases.

Lemma flt_asym (a b : Num.float) : Num.flt a b = true -> Num.flt b a = false.
Proof. float_order. Qed.

Lemma flt_trans (a b c : Num.float) :
  Num.flt a b = true -> Num.flt b c = true -> Num.flt a c = true.
Proof. float_order. Qed.

(** Without a nan, [<] is total: what is not below is at least. *)
Lemma flt_false_fle (a b : Num.float) :
  Num.is_nan a = false -> Num.is_nan b = false ->
  Num.flt a b = false -> Num.fle b a = true.
Proof. float_order. Qed.

(** *** The stable sort *)

Section SortingFacts.
Context {A K : Type} (lt : K -> K -> bool) (key : A -> K).
Hypothesis lt_asym : forall a b, lt a b = true -> lt b a = false.
Hypothesis lt_trans : forall a b c, lt a b = true -> lt b c = true -> lt a c = true.

Lemma insert_sorted_perm reverse x l :
  Permutation (insert_sorted lt key reverse x l) (x :: l).
Proof.
  induction l as [| y l IH]; simpl; [reflexivity |].
  destruct (precedes lt key reverse x y); [reflexivity |].
  rewrite IH. apply perm_swap.
Qed.

Lemma sorted_loop_perm reverse l : forall acc,
  Permutation (fold_left (fun acc x => insert_sorted lt key reverse x acc) l acc) (l ++ acc).
Proof.
  induction l as [| x l IH]; intros acc; simpl; [reflexivity |].
  rewrite IH, insert_sorted_perm. symmetry. apply Permutation_middle.
Qed.

Lemma sorted_perm reverse l : Permutation (sorted lt key reverse l) l.
Proof. unfold sorted. rewrite sorted_loop_perm. by rewrite app_nil_r. Qed.

Lemma precedes_asym reverse x y :
  precedes lt key reverse x y = true -> precedes lt key reverse y x = false.
Proof. unfold precedes. destruct reverse; apply lt_asym. Qed.

Lemma precedes_trans reverse x y z :
  precedes lt key reverse x y = true -> precedes lt key reverse y z = true ->
  precedes lt key reverse x z = true.
Proof.
  unfold precedes. destruct reverse; intros Hxy Hyz;
    [apply (lt_trans _ _ _ Hyz Hxy) | apply (lt_trans _ _ _ Hxy Hyz)].
Qed.

Lemma insert_sorted_in_order reverse x l :
  StronglySorted (in_order lt key reverse) l ->
  StronglySorted (in_order lt key reverse) (insert_sorted lt key reverse x l).
Proof.
  induction 1 as [| y l Hl IH Hy]; simpl; [repeat constructor |].
  destruct (precedes lt key reverse x y) eqn:Hxy.
  - constructor; [by constructor |].
    constructor; [by apply precedes_asym |].
    rewrite List.Forall_forall in *. intros z Hz.
    unfold in_order in *.
    destruct (precedes lt key reverse z x) eqn:Hzx; [| reflexivity].
    rewrite <- (Hy z Hz). symmetry. by apply (precedes_trans reverse z x y).
  - constructor; [assumption |].
    rewrite List.Forall_forall in *. intros z Hz.
    apply (Permutation_in _ (insert_sorted_perm reverse x l)) in Hz as [<- | Hz];
      [assumption | by apply Hy].
Qed.

Lemma sorted_in_order reverse l : StronglySorted (in_order lt key reverse) (sorted lt key reverse l).
Proof.
  unfold sorted.
  assert (Hloop : forall acc,
             StronglySorted (in_order lt key reverse) acc ->
             StronglySorted (in_order lt key reverse)
               (fold_left (fun acc x => insert_sorted lt key reverse x acc) l acc)).
  { induction l as [| x l IH]; intros acc Hacc; simpl; [assumption |].
    by apply IH, insert_sorted_in_order. }
  apply Hloop. constructor.
Qed.

End SortingFacts.

(** *** Dicts in insertion order *)

Lemma lookup_upsert {V : Type} (k r : string) (init : V) (f : V -> V) d :
  lookup_key r (upsert k init f d) =
  if String.eqb k r then Some (f (default init (lookup_key k d))) else lookup_key r d.
Proof.
  induction d as [| [k' v] d IH]; simpl.
  - destruct (String.eqb k r); reflexivity.
  - destruct (String.eqb_spec k' k) as [-> | Hk]; simpl.
    + destruct (String.eqb k r); reflexivity.
    + rewrite IH. destruct (String.eqb_spec k r) as [<- | Hr]; [| reflexivity].
      destruct (String.eqb_spec k' k); [contradiction | reflexivity].
Qed.

Lemma lookup_key_None {V : Type} (k : string) (d : list (string * V)) :
  lookup_key k d = None <-> ~ In k (map fst d).
Proof.
  induction d as [| [k' v] d IH]; simpl; [tauto |].
  destruct (String.eqb_spec k' k) as [-> | Hk]; [split; [discriminate | tauto] |].
  rewrite IH. tauto.
Qed.

Lemma keys_upsert {V : Type} (k : string) (init : V) (f : V -> V) d :
  map fst (upsert k init f d) =
  match lookup_key k d with
  | Some _ => map fst d
  | None => map fst d ++ [k]
  end.
Proof.
  induction d as [| [k' v] d IH]; simpl; [reflexivity |].
  destruct (String.eqb_spec k' k) as [-> | Hk]; simpl; [reflexivity |].
  rewrite IH. by destruct (lookup_key k d).
Qed.

Lemma NoDup_upsert {V : Type} (k : string) (init : V) (f : V -> V) d :
  List.NoDup (map fst d) -> List.NoDup (map fst (upsert k init f d)).
Proof.
  intros Hd. rewrite keys_upsert.
  destruct (lookup_key k d) eqn:Hk; [assumption |].
  apply lookup_key_None in Hk.
  apply (Permutation_NoDup (l := k :: map fst d)).
  - apply Permutation_cons_append.
  - by apply List.NoDup_cons.
Qed.

Lemma lookup_key_In {V : Type} (k : string) (v : V) d :
  List.NoDup (map fst d) -> (In (k, v) d <-> lookup_key k d = Some v).
Proof.
  induction d as [| [k' v'] d IH]; simpl; intros Hd; [split; [tauto | discriminate] |].
  apply List.NoDup_cons_iff in Hd as [Hk' Hd].
  destruct (String.eqb_spec k' k) as [-> | Hk].
  - split.
    + intros [[= ->] | Hin]; [reflexivity |].
      exfalso. apply Hk'. by apply (in_map fst) in Hin.
    + intros [= ->]. by left.
  - rewrite <- (IH Hd). split; [intros [[= ? ?] | ?]; [contradiction | assumption] | tauto].
Qed.

(** *** Grouping by a key *)











Lemma flat_map_ext_In {A B : Type} (f g : A -> list B) (l : list A) :
  (forall x, In x l -> f x = g x) -> flat_map f l = flat_map g l.
Proof.
  induction l as [| x l IH]; simpl; intros H; [reflexivity |].
  rewrite (H x) by (by left). f_equal. apply IH. intros y Hy. apply H. by right.
Qed.

Lemma flat_map_empty {A B : Type} (l : list A) : flat_map (fun _ => @nil B) l = [].
Proof. induction l; simpl; auto. Qed.


Lemma StronglySorted_refine {A : Type} (R R' : A -> A -> Prop) (P : A -> Prop) (l : list A) :
  (forall a b, P a -> P b -> R a b -> R' a b) ->
  Forall P l -> StronglySorted R l -> StronglySorted R' l.
Proof.
  intros Hweak HP Hsorted.
  induction Hsorted as [| a l Hl IH Ha]; [constructor |].
  apply Forall_cons_iff in HP as [Pa HP].
  constructor; [by apply IH |].
  rewrite List.Forall_forall in *. intros b Hb. apply Hweak; auto.
Qed.

(** *** The two sums *)

Lemma revenue_loop txs : forall a,
  Forall (fun t => returns (amount t)) txs ->
  for_each (fun acc t => do* a <- amount t; Num.add acc (Num.Float a)) txs (Num.Float a) =
  Ok (Num.Float (fold_left Num.fadd (map amount_of txs) a)).
Proof.
  induction txs as [| t txs IH]; intros a Hall; simpl; [reflexivity |].
  apply Forall_cons_iff in Hall as [Ht Hall].
  rewrite (amount_returns t Ht). simpl. by apply IH.
Qed.

Lemma total_revenue_sum txs :
  Forall (fun t => returns (amount t)) txs ->
  calculate_total_revenue txs = Ok (sum_from_zero (map amount_of txs)).
Proof.
  unfold calculate_total_revenue. destruct txs as [| t txs]; [reflexivity |].
  intros Hall. apply Forall_cons_iff in Hall as [Ht Hall]. simpl.
  rewrite (amount_returns t Ht). simpl. by apply revenue_loop.
Qed.

Example three_sales_parsed :
  parse_transactions ["T001|2024-01-01|P001|Washer|1|0.1|C001|North";
                      "T002|2024-01-01|P002|Nut|1|0.2|C002|South";
                      "T003|2024-01-02|P003|Bolt|1|0.7|C003|South"] = Ok three_sales.
Proof. vm_compute. reflexivity. Qed.





(** * Further proofs *)

(** ** Loops over the transactions *)

(** A loop whose body computes the amount and cannot fail otherwise returns
    exactly when every amount can be computed, and is then a fold. *)
Lemma for_each_amount {S : Type} (g : S -> Transaction -> Num.float -> S) txs : forall st st',
  for_each (fun st t => do* a <- amount t; Ok (g st t a)) txs st = Ok st' ->
  Forall (fun t => returns (amount t)) txs /\
  st' = fold_left (fun st t => g st t (amount_of t)) txs st.
Proof.
  induction txs as [| t txs IH]; intros st st'; simpl.
  - intros [= <-]. split; [constructor | reflexivity].
  - destruct (amount t) as [a |] eqn:Ha; simpl; [| discriminate].
    intros Hrest. destruct (IH _ _ Hrest) as [Hall ->].
    split; [constructor; [by exists a | assumption] |].
    unfold amount_of. by rewrite Ha.
Qed.

Lemma for_each_amount_returns {S : Type} (g : S -> Transaction -> Num.float -> S) txs :
  Forall (fun t => returns (amount t)) txs ->
  forall st,
    for_each (fun st t => do* a <- amount t; Ok (g st t a)) txs st =
    Ok (fold_left (fun st t => g st t (amount_of t)) txs st).
Proof.
  induction 1 as [| t txs Ht _ IH]; intros st; simpl; [reflexivity |].
  rewrite (amount_returns t Ht). simpl. apply IH.
Qed.

(** ** Grouping by a key *)

Section GroupingFacts.
Context {V : Type} (key : Transaction -> string) (init : V) (update : Transaction -> V -> V).

(** After the loop the entry of a key holds the updates of the
    transactions of that key, in input order. *)
Lemma grouped_lookup txs : forall d r,
  lookup_key r (fold_left (fun d t => upsert (key t) init (update t) d) txs d) =
  match keyed key r txs with
  | [] => lookup_key r d
  | g => Some (fold_left (fun v t => update t v) g (default init (lookup_key r d)))
  end.
Proof.
  induction txs as [| t txs IH]; intros d r; [reflexivity |].
  cbn [fold_left]. rewrite IH, lookup_upsert. unfold keyed. cbn [List.filter].
  rewrite (String.eqb_sym r (key t)).
  destruct (String.eqb_spec (key t) r) as [<- | Hr]; [| reflexivity].
  destruct (List.filter _ txs); reflexivity.
Qed.

Lemma grouped_NoDup txs : forall d,
  List.NoDup (map fst d) ->
  List.NoDup (map fst (fold_left (fun d t => upsert (key t) init (update t) d) txs d)).
Proof.
  induction txs as [| t txs IH]; intros d Hd; [assumption |].
  cbn [fold_left]. by apply IH, NoDup_upsert.
Qed.

Lemma keyed_occurs r txs : keyed key r txs <> [] <-> occurs key r txs.
Proof.
  unfold keyed, occurs. split.
  - intros Hne. destruct (List.filter _ txs) as [| t g] eqn:Hg; [contradiction |].
    assert (Hin : In t (List.filter (fun t => String.eqb r (key t)) txs))
      by (rewrite Hg; by left).
    apply filter_In in Hin as [Hin Hk]. apply String.eqb_eq in Hk.
    exists t. auto.
  - intros (t & Hin & Hk) Hnil.
    assert (Hin' : In t (List.filter (fun t => String.eqb r (key t)) txs))
      by (apply filter_In; split; [assumption | by apply String.eqb_eq]).
    rewrite Hnil in Hin'. contradiction.
Qed.

(** The keys of the table are the keys that occur. *)
Lemma grouped_keys txs r :
  In r (map fst (fold_left (fun d t => upsert (key t) init (update t) d) txs [])) <->
  occurs key r txs.
Proof.
  rewrite <- keyed_occurs.
  pose proof (grouped_lookup txs [] r) as Hlookup.
  destruct (keyed key r txs) as [| t g].
  - apply lookup_key_None in Hlookup. split; [contradiction | intros H; by contradiction H].
  - split; [discriminate |]. intros _.
    destruct (in_dec string_dec r
                (map fst (fold_left (fun d t => upsert (key t) init (update t) d) txs [])))
      as [? | Hnot]; [assumption |].
    apply lookup_key_None in Hnot. rewrite Hnot in Hlookup. discriminate.
Qed.

(** An entry of the table holds the fold over the transactions of its key. *)
Lemma grouped_In txs r v :
  In (r, v) (fold_left (fun d t => upsert (key t) init (update t) d) txs []) <->
  occurs key r txs /\ v = fold_left (fun v t => update t v) (keyed key r txs) init.
Proof.
  rewrite (lookup_key_In r v) by (apply grouped_NoDup; constructor).
  rewrite grouped_lookup, <- keyed_occurs. simpl.
  destruct (keyed key r txs) as [| t g].
  - split; [discriminate | intros [H _]; by contradiction H].
  - split; [intros [= <-]; split; [discriminate | reflexivity] | intros [_ ->]; reflexivity].
Qed.

End GroupingFacts.

(** Distinct keys that cover the transactions split them into groups. *)
Lemma keyed_partition (key : Transaction -> string) (keys : list string) txs :
  List.NoDup keys ->
  (forall t, In t txs -> In (key t) keys) ->
  Permutation (flat_map (fun r => keyed key r txs) keys) txs.
Proof.
  intros Hnodup. induction txs as [| t txs IH]; intros Hcover.
  - unfold keyed. simpl. by rewrite flat_map_empty.
  - destruct (in_split (key t) keys) as (k1 & k2 & ->); [apply Hcover; by left |].
    apply NoDup_remove_2 in Hnodup as Hfresh.
    assert (Hother : forall r, In r (k1 ++ k2) -> keyed key r (t :: txs) = keyed key r txs).
    { intros r Hr. unfold keyed. simpl.
      destruct (String.eqb_spec r (key t)) as [-> | _]; [contradiction | reflexivity]. }
    assert (Hself : keyed key (key t) (t :: txs) = t :: keyed key (key t) txs)
      by (unfold keyed; simpl; by rewrite String.eqb_refl).
    specialize (IH (fun t' Ht' => Hcover t' (or_intror Ht'))).
    rewrite flat_map_app in *. cbn [flat_map] in *.
    rewrite (flat_map_ext_In (fun r => keyed key r (t :: txs)) (fun r => keyed key r txs) k1)
      by (intros r Hr; apply Hother, in_or_app; by left).
    rewrite (flat_map_ext_In (fun r => keyed key r (t :: txs)) (fun r => keyed key r txs) k2)
      by (intros r Hr; apply Hother, in_or_app; by right).
    rewrite Hself. cbn [app].
    rewrite <- Permutation_middle. by constructor.
Qed.

(** ** Sorted lists and their prefixes *)

Lemma StronglySorted_firstn {A : Type} (R : A -> A -> Prop) (l : list A) : forall n,
  StronglySorted R l -> StronglySorted R (firstn n l).
Proof.
  induction l as [| x l IH]; intros n Hl; [by rewrite firstn_nil |].
  destruct n as [| n]; [constructor |]. cbn [firstn].
  apply StronglySorted_inv in Hl as [Hl Hx].
  constructor; [by apply IH |].
  rewrite List.Forall_forall in *. intros y Hy. apply Hx.
  rewrite <- (firstn_skipn n l). apply in_or_app. by left.
Qed.

Lemma StronglySorted_app_inv {A : Type} (R : A -> A -> Prop) (l1 l2 : list A) :
  StronglySorted R (l1 ++ l2) -> forall x y, In x l1 -> In y l2 -> R x y.
Proof.
  induction l1 as [| a l1 IH]; intros Hl x y Hx Hy; [contradiction |].
  cbn [app] in Hl. apply StronglySorted_inv in Hl as [Hl Ha].
  destruct Hx as [<- | Hx]; [| by apply IH].
  rewrite List.Forall_forall in Ha. apply Ha, in_or_app. by right.
Qed.

Lemma NoDup_firstn {A : Type} (l : list A) : forall n, List.NoDup l -> List.NoDup (firstn n l).
Proof.
  induction l as [| x l IH]; intros n Hl; [by rewrite firstn_nil |].
  destruct n as [| n]; [constructor |]. cbn [firstn].
  apply List.NoDup_cons_iff in Hl as [Hx Hl].
  apply List.NoDup_cons; [| by apply IH].
  intros Hin. apply Hx. rewrite <- (firstn_skipn n l). apply in_or_app. by left.
Qed.

Lemma StronglySorted_weaken {A : Type} (R R' : A -> A -> Prop) (l : list A) :
  (forall a b, R a b -> R' a b) -> StronglySorted R l -> StronglySorted R' l.
Proof.
  intros Hweak Hl. apply (StronglySorted_refine R R' (fun _ => True)); auto.
  by apply List.Forall_forall.
Qed.

(** Sorting ints: ascending, or descending with [reverse]. *)
Lemma sorted_ints {A : Type} (key : A -> Z) (reverse : bool) (l : list A) :
  StronglySorted (fun a b => if reverse then (key b <= key a)%Z else (key a <= key b)%Z)
    (sorted Z.ltb key reverse l).
Proof.
  apply (StronglySorted_weaken (in_order Z.ltb key reverse)).
  - intros a b. unfold in_order, precedes. destruct reverse; intros H; apply Z.ltb_ge in H; lia.
  - apply sorted_in_order; intros; lia.
Qed.

(** ** [top_selling_products] and [low_performing_products] *)

Lemma fold_left_totals (g : list Transaction) : forall q x,
  fold_left (fun v t => ((fst v + Quantity t)%Z, Num.fadd (snd v) (amount_of t))) g (q, x) =
  (fold_left Z.add (map Quantity g) q, fold_left Num.fadd (map amount_of g) x).
Proof. induction g as [| t g IH]; intros q x; simpl; [reflexivity | apply IH]. Qed.

(** The table the first loop of [top_selling_products] builds. *)
Lemma product_table txs d :
  for_each product_step txs [] = Ok d ->
  List.NoDup (map fst d) /\
  (forall name, In name (map fst d) <-> occurs ProductName name txs) /\
  (forall name v, In (name, v) d ->
     fst v = quantity_sold name txs /\ snd v = revenue_of ProductName name txs).
Proof.
  intros Hloop.
  apply (for_each_amount
           (fun st t a => upsert (ProductName t) (0%Z, Num.fzero)
                            (fun d => ((fst d + Quantity t)%Z, Num.fadd (snd d) a)) st))
    in Hloop as [_ ->].
  split; [apply grouped_NoDup; constructor |].
  split.
  - intros name.
    apply (grouped_keys ProductName (0%Z, Num.fzero)
             (fun t v => ((fst v + Quantity t)%Z, Num.fadd (snd v) (amount_of t)))).
  - intros name v Hin.
    apply (grouped_In ProductName (0%Z, Num.fzero)
             (fun t v => ((fst v + Quantity t)%Z, Num.fadd (snd v) (amount_of t))))
      in Hin as [_ ->].
    rewrite fold_left_totals. split; reflexivity.
Qed.

(** X1: [top_selling_products] returns at most [n] entries, one per product
    name and no name twice; each holds the quantity sold of its product and
    the float sum of its amounts; the entries are in descending order of
    quantity, and a product that is not listed sold no more than any listed
    one. The only exception is the [OverflowError] of an amount. *)
Theorem top_selling_products_spec (transactions : list Transaction) (n : nat) :
  match top_selling_products transactions n with
  | Ok result =>
      List.length result <= n /\
      List.NoDup (map product_name result) /\
      Forall (product_totals transactions) result /\
      StronglySorted (fun a b => (product_qty b <= product_qty a)%Z) result /\
      (forall name, occurs ProductName name transactions ->
         In name (map product_name result) \/
         List.length result = n /\
         Forall (fun e => (quantity_sold name transactions <= product_qty e)%Z) result)
  | Raise e => e = OverflowError
  end.
Proof.
  destruct (top_selling_products transactions n) as [result | e] eqn:Htop;
    [| by apply top_selling_products_raises in Htop].
  unfold top_selling_products in Htop.
  destruct (for_each product_step transactions []) as [d |] eqn:Hloop; simpl in Htop;
    [| discriminate].
  injection Htop as <-.
  apply product_table in Hloop as (Hnodup & Hkeys & Hvalues).
  set (all := map (fun e : string * (Z * Num.float) => (fst e, fst (snd e), snd (snd e))) d).
  set (ranked := sorted Z.ltb (fun x : string * Z * Num.float => snd (fst x)) true all).
  assert (Hperm : Permutation ranked all) by apply sorted_perm.
  assert (Hnames : map product_name all = map fst d).
  { unfold all. rewrite map_map. apply map_ext. reflexivity. }
  assert (Hsorted : StronglySorted (fun a b => (product_qty b <= product_qty a)%Z) ranked)
    by apply (sorted_ints (fun x : string * Z * Num.float => snd (fst x)) true all).
  assert (Hentry : forall e, In e ranked -> product_totals transactions e).
  { intros e He. apply (Permutation_in _ Hperm) in He.
    apply in_map_iff in He as ([name v] & <- & Hin).
    destruct (Hvalues name v Hin) as [Hq Hr].
    unfold product_totals, product_name, product_qty. simpl.
    split; [| split; assumption].
    apply Hkeys. by apply (in_map fst) in Hin. }
  split; [apply firstn_le_length |].
  split.
  { rewrite <- firstn_map. apply NoDup_firstn.
    apply (Permutation_NoDup (l := map product_name all));
      [symmetry; by apply Permutation_map | by rewrite Hnames]. }
  split.
  { apply List.Forall_forall. intros e He. apply Hentry.
    rewrite <- (firstn_skipn n ranked). apply in_or_app. by left. }
  split; [by apply StronglySorted_firstn |].
  intros name Hoccurs.
  apply Hkeys in Hoccurs. rewrite <- Hnames in Hoccurs.
  apply (Permutation_in _ (Permutation_map product_name (Permutation_sym Hperm)))
    in Hoccurs.
  apply in_map_iff in Hoccurs as (e & Hname & He).
  rewrite <- (firstn_skipn n ranked) in He. apply in_app_or in He as [He | He].
  - left. apply in_map_iff. exists e. auto.
  - right.
    assert (Hlen : n < List.length ranked).
    { destruct (Nat.lt_ge_cases n (List.length ranked)) as [? | Hge]; [assumption |].
      rewrite skipn_all2 in He by assumption. contradiction. }
    split; [apply firstn_length_le; lia |].
    apply List.Forall_forall. intros e' He'.
    assert (Hle : (product_qty e <= product_qty e')%Z).
    { rewrite <- (firstn_skipn n ranked) in Hsorted.
      apply (StronglySorted_app_inv _ _ _ Hsorted e' e He' He). }
    assert (He0 : In e ranked)
      by (rewrite <- (firstn_skipn n ranked); apply in_or_app; by right).
    destruct (Hentry e He0) as (_ & Hq & _).
    rewrite Hname in Hq. by rewrite <- Hq.
Qed.

(** X2: [low_performing_products] lists exactly the products that occur and
    whose quantity sold is below the threshold, each once with that quantity,
    in ascending order of quantity. It computes no amount and raises
    nothing. *)
Theorem low_performing_products_spec (transactions : list Transaction) (threshold : Z) :
  (forall name q,
     In (name, q) (low_performing_products transactions threshold) <->
     occurs ProductName name transactions /\
     q = quantity_sold name transactions /\ (q < threshold)%Z) /\
  List.NoDup (map fst (low_performing_products transactions threshold)) /\
  StronglySorted (fun a b => (snd a <= snd b)%Z)
    (low_performing_products transactions threshold).
Proof.
  unfold low_performing_products.
  set (d := fold_left (fun d t => upsert (ProductName t) 0%Z (fun q => (q + Quantity t)%Z) d)
              transactions []).
  set (low := List.filter (fun e : string * Z => (snd e <? threshold)%Z) d).
  assert (Hperm : Permutation (sorted Z.ltb snd false low) low) by apply sorted_perm.
  assert (Hsum : forall g q, fold_left (fun v t => (v + Quantity t)%Z) g q =
                             fold_left Z.add (map Quantity g) q).
  { induction g as [| t g IH]; intros q; simpl; [reflexivity | apply IH]. }
  split; [| split].
  - intros name q. split.
    + intros Hin. apply (Permutation_in _ Hperm), filter_In in Hin as [Hin Hlt].
      apply (grouped_In ProductName 0%Z (fun t q => (q + Quantity t)%Z)) in Hin
        as [Hoccurs ->].
      simpl in Hlt. apply Z.ltb_lt in Hlt. rewrite Hsum in *.
      split; [assumption | split; [reflexivity | assumption]].
    + intros (Hoccurs & -> & Hlt).
      apply (Permutation_in _ (Permutation_sym Hperm)), filter_In.
      split; [| by apply Z.ltb_lt].
      apply (grouped_In ProductName 0%Z (fun t q => (q + Quantity t)%Z)).
      split; [assumption | by rewrite Hsum].
  - apply (Permutation_NoDup (l := map fst low)); [symmetry; by apply Permutation_map |].
    assert (Hd : List.NoDup (map fst d)) by (apply grouped_NoDup; constructor).
    clear Hperm. subst low. induction d as [| e d IH]; simpl; [constructor |].
    simpl in Hd. apply List.NoDup_cons_iff in Hd as [He Hd].
    destruct (snd e <? threshold)%Z; simpl; [| by apply IH].
    apply List.NoDup_cons; [| by apply IH].
    intros Hin. apply He. apply in_map_iff in Hin as (e' & <- & He').
    apply filter_In in He' as [He' _]. by apply in_map.
  - apply (sorted_ints snd false low).
Qed.

(** ** The order of strings *)

Lemma compare_lt_trans a : forall b c,
  String.compare a b = Lt -> String.compare b c = Lt -> String.compare a c = Lt.
Proof.
  induction a as [| x a IH]; intros [| y b] [| z c]; simpl;
    try discriminate; try reflexivity.
  unfold Ascii.compare.
  destruct (N.compare_spec (N_of_ascii x) (N_of_ascii y)),
    (N.compare_spec (N_of_ascii y) (N_of_ascii z)),
    (N.compare_spec (N_of_ascii x) (N_of_ascii z));
    try discriminate; try lia; try reflexivity.
  apply IH.
Qed.

Lemma ltb_asym a b : Str.ltb a b = true -> Str.ltb b a = false.
Proof.
  unfold Str.ltb. rewrite (String.compare_antisym a b).
  destruct (String.compare b a); simpl; congruence.
Qed.

Lemma ltb_trans a b c : Str.ltb a b = true -> Str.ltb b c = true -> Str.ltb a c = true.
Proof.
  unfold Str.ltb.
  destruct (String.compare a b) eqn:Hab; try discriminate.
  destruct (String.compare b c) eqn:Hbc; try discriminate.
  by rewrite (compare_lt_trans a b c Hab Hbc).
Qed.

(** The order is total: of two different strings one is below the other. *)
Lemma ltb_total a b : a <> b -> Str.ltb b a = false -> Str.ltb a b = true.
Proof.
  unfold Str.ltb. rewrite (String.compare_antisym a b).
  destruct (String.compare b a) eqn:Hba; simpl; try congruence.
  apply String.compare_eq_iff in Hba. congruence.
Qed.

(** Sorting by distinct string keys gives strictly ascending keys. *)
Lemma sorted_strictly {A : Type} (key : A -> string) (l : list A) :
  List.NoDup (map key l) ->
  StronglySorted (fun a b => Str.ltb (key a) (key b) = true) (sorted Str.ltb key false l).
Proof.
  intros Hnodup.
  assert (Hnodup' : List.NoDup (map key (sorted Str.ltb key false l))).
  { apply (Permutation_NoDup (l := map key l)); [| assumption].
    symmetry. apply Permutation_map, sorted_perm. }
  pose proof (sorted_in_order Str.ltb key ltb_asym ltb_trans false l) as Hsorted.
  induction Hsorted as [| a rest Hrest IH Ha]; [constructor |].
  simpl in Hnodup'. apply List.NoDup_cons_iff in Hnodup' as [Hfresh Hnodup'].
  constructor; [by apply IH |].
  rewrite List.Forall_forall in *. intros b Hb.
  apply ltb_total; [| apply (Ha b Hb)].
  intros Heq. apply Hfresh. rewrite Heq. by apply in_map.
Qed.

Lemma strictly_sorted_NoDup {A : Type} (key : A -> string) (l : list A) :
  StronglySorted (fun a b => Str.ltb (key a) (key b) = true) l -> List.NoDup (map key l).
Proof.
  induction 1 as [| a l Hl IH Ha]; simpl; constructor; [| assumption].
  intros Hin. apply in_map_iff in Hin as (b & Heq & Hb).
  rewrite List.Forall_forall in Ha. specialize (Ha b Hb).
  rewrite Heq in Ha. apply ltb_asym in Ha as Ha'. congruence.
Qed.

(** [sorted(list(s))] holds the elements of [s], each once, in strictly
    ascending order. *)
Lemma sorted_strings_spec (s : gset string) :
  (forall p, In p (sorted_strings s) <-> p ∈ s) /\
  StronglySorted (fun a b => Str.ltb a b = true) (sorted_strings s).
Proof.
  unfold sorted_strings. split.
  - intros p. rewrite <- elem_of_elements, list_elem_of_In.
    split; apply Permutation_in; [| symmetry]; apply sorted_perm.
  - apply (sorted_strictly (fun x => x)).
    rewrite map_id. apply NoDup_ListNoDup, NoDup_elements.
Qed.

(** Sorting by a float key, largest first: in descending order when no
    key is a nan. *)
Lemma sorted_floats_descending {A : Type} (key : A -> Num.float) (l : list A) :
  Forall (fun e => Num.is_nan (key e) = false) (sorted Num.flt key true l) ->
  StronglySorted (fun a b => Num.fle (key b) (key a) = true) (sorted Num.flt key true l).
Proof.
  intros Hnan.
  apply (StronglySorted_refine (in_order Num.flt key true) _
           (fun e => Num.is_nan (key e) = false)); [| assumption |].
  - intros a b Ha Hb Hab. unfold in_order, precedes in Hab. by apply flt_false_fle.
  - apply sorted_in_order; [apply flt_asym | apply flt_trans].
Qed.

(** ** [customer_analysis] *)

Lemma div_raises a b e :
  Num.div a b = Raise e -> e = OverflowError \/ e = ZeroDivisionError.
Proof.
  assert (Hint : forall x y, Num.int_truediv x y = Raise e ->
                             e = OverflowError \/ e = ZeroDivisionError).
  { intros x y. unfold Num.int_truediv.
    destruct y; [intros [= <-]; by right | |];
      destruct (Num.of_ratio _ _ _); intros [= <-]; by left. }
  assert (Hfloat : forall x y, Num.truediv x y = Raise e -> e = ZeroDivisionError).
  { intros x y. unfold Num.truediv. destruct (Num.is_zero y); congruence. }
  destruct a as [x | x], b as [y | y]; simpl; [apply Hint | | |].
  - destruct (Num.of_int x) as [fx | e'] eqn:Hx; simpl.
    + intros H. right. by apply Hfloat in H.
    + apply (to_float_raises (Num.Int x)) in Hx. intros [= <-]. by left.
  - destruct (Num.of_int y) as [fy | e'] eqn:Hy; simpl.
    + intros H. right. by apply Hfloat in H.
    + apply (to_float_raises (Num.Int y)) in Hy. intros [= <-]. by left.
  - intros H. right. by apply Hfloat in H.
Qed.

Lemma customer_analysis_raises txs e :
  customer_analysis txs = Raise e -> e = OverflowError.
Proof.
  intros Hraise.
  pose proof (customer_analysis_safe txs) as Hsafe. rewrite Hraise in Hsafe.
  unfold customer_analysis in Hraise.
  destruct (for_each customer_step txs []) as [cust_stats | e'] eqn:Hloop; simpl in Hraise.
  - destruct (for_each _ cust_stats []) as [done | e'] eqn:Havg; simpl in Hraise;
      [discriminate |].
    injection Hraise as ->.
    apply for_each_raise in Havg as (acc & [cid s] & _ & Hstep).
    unfold customer_average in Hstep.
    destruct (Num.div _ _) as [avg | e'] eqn:Hdiv; simpl in Hstep; [discriminate |].
    injection Hstep as ->.
    apply div_raises in Hdiv as [-> | ->]; [reflexivity | congruence].
  - injection Hraise as ->.
    apply (step_raises customer_step txs [] _) in Hloop; [assumption |].
    intros st t e'. unfold customer_step. destruct (amount t); simpl; congruence.
Qed.

Lemma customer_loop cust_stats : forall acc done,
  for_each (fun acc entry =>
              let '(cid, s) := entry in
              do* avg <- customer_average (ct_total_spent s) (ct_purchase_count s);
              Ok (acc ++ [(cid, {| total_spent := ct_total_spent s;
                                   purchase_count := ct_purchase_count s;
                                   products_bought := sorted_strings (ct_products_bought s);
                                   avg_order_value := avg |})]))
    cust_stats acc = Ok done ->
  exists rest, done = acc ++ rest /\ Forall2 customer_entry cust_stats rest.
Proof.
  induction cust_stats as [| [cid s] cust_stats IH]; intros acc done; simpl.
  - intros [= <-]. exists []. by rewrite app_nil_r.
  - destruct (customer_average _ _) as [avg |] eqn:Havg; simpl; [| discriminate].
    intros Hrest. destruct (IH _ _ Hrest) as (rest & -> & Hall).
    eexists (_ :: rest). rewrite <- app_assoc. split; [reflexivity |].
    constructor; [| assumption]. repeat split. exact Havg.
Qed.

Lemma fold_left_customer (g : list Transaction) : forall s,
  let s' := fold_left (fun s t =>
              {| ct_total_spent := Num.fadd (ct_total_spent s) (amount_of t);
                 ct_purchase_count := S (ct_purchase_count s);
                 ct_products_bought := ct_products_bought s ∪ {[ ProductName t ]} |}) g s in
  ct_total_spent s' = fold_left Num.fadd (map amount_of g) (ct_total_spent s) /\
  ct_purchase_count s' = List.length g + ct_purchase_count s /\
  (forall p, p ∈ ct_products_bought s' <->
             p ∈ ct_products_bought s \/ In p (map ProductName g)).
Proof.
  induction g as [| t g IH]; intros s; simpl.
  - repeat split; [tauto | intros [? | []]; assumption].
  - destruct (IH {| ct_total_spent := Num.fadd (ct_total_spent s) (amount_of t);
                    ct_purchase_count := S (ct_purchase_count s);
                    ct_products_bought := ct_products_bought s ∪ {[ ProductName t ]} |})
      as (Hspent & Hcount & Hbought).
    simpl in *. split; [assumption |]. split; [lia |].
    intros p. rewrite Hbought, elem_of_union, elem_of_singleton. intuition.
Qed.

(** X3: [customer_analysis] returns one entry per customer id that occurs, no
    id twice; each holds the number of the customer's transactions, the float
    sum of their amounts, the product names bought, each once and in ascending
    order, and the rounded quotient of the first two. The entries are in
    descending order of total spent when no total is a nan. The only exception
    is [OverflowError]. *)
Theorem customer_analysis_spec (transactions : list Transaction) :
  match customer_analysis transactions with
  | Ok stats =>
      List.NoDup (map fst stats) /\
      (forall cid, In cid (map fst stats) <-> occurs CustomerID cid transactions) /\
      Forall (customer_totals transactions) stats /\
      (Forall (fun e => Num.is_nan (total_spent (snd e)) = false) stats ->
       StronglySorted (fun a b => Num.fle (total_spent (snd b)) (total_spent (snd a)) = true)
         stats)
  | Raise e => e = OverflowError
  end.
Proof.
  destruct (customer_analysis transactions) as [stats | e] eqn:Hrun;
    [| by apply customer_analysis_raises in Hrun].
  unfold customer_analysis in Hrun.
  destruct (for_each customer_step transactions []) as [table |] eqn:Htable;
    simpl in Hrun; [| discriminate].
  destruct (for_each _ table []) as [done |] eqn:Hdone; simpl in Hrun; [| discriminate].
  injection Hrun as <-.
  apply customer_loop in Hdone as (rest & -> & Hentries). simpl.
  set (init := {| ct_total_spent := Num.fzero; ct_purchase_count := 0;
                  ct_products_bought := ∅ |}).
  set (update := fun (t : Transaction) (s : CustomerTotals) =>
                   {| ct_total_spent := Num.fadd (ct_total_spent s) (amount_of t);
                      ct_purchase_count := S (ct_purchase_count s);
                      ct_products_bought := ct_products_bought s ∪ {[ ProductName t ]} |}).
  apply (for_each_amount
           (fun st t a => upsert (CustomerID t) init
                            (fun s => {| ct_total_spent := Num.fadd (ct_total_spent s) a;
                                         ct_purchase_count := S (ct_purchase_count s);
                                         ct_products_bought :=
                                           ct_products_bought s ∪ {[ ProductName t ]} |}) st))
    in Htable as [_ Htable].
  change (table = fold_left (fun d t => upsert (CustomerID t) init (update t) d)
                    transactions []) in Htable.
  set (key := fun x : string * CustomerStats => total_spent (snd x)).
  pose proof (sorted_perm Num.flt key true rest) as Hperm.
  assert (Hkeys : map fst rest = map fst table).
  { clear -Hentries. induction Hentries as [| e d ? ? (Hk & _) _ IH]; simpl;
      [reflexivity | by rewrite Hk, IH]. }
  assert (Hnames : Permutation (map fst (sorted Num.flt key true rest)) (map fst table))
    by (rewrite <- Hkeys; by apply Permutation_map).
  split; [| split; [| split]].
  - apply (Permutation_NoDup (symmetry Hnames)).
    rewrite Htable. apply grouped_NoDup. constructor.
  - intros cid. rewrite <- (grouped_keys CustomerID init update), <- Htable.
    split; apply Permutation_in; [| symmetry]; exact Hnames.
  - apply List.Forall_forall. intros d Hd.
    apply (Permutation_in _ Hperm) in Hd.
    assert (Hsource : exists e, In e table /\ customer_entry e d).
    { clear -Hentries Hd. induction Hentries as [| e d' ? ? Hed _ IH]; [contradiction |].
      destruct Hd as [<- | Hd]; [exists e; split; [by left | assumption] |].
      destruct (IH Hd) as (e' & He' & Hrel). exists e'. split; [by right | assumption]. }
    destruct Hsource as ([cid s] & Hin & Hk & Hspent & Hcount & Hbought & Havg).
    simpl in *. rewrite Htable in Hin.
    apply (grouped_In CustomerID init update) in Hin as [Hoccurs ->].
    set (g := keyed CustomerID cid transactions) in *.
    set (s' := fold_left (fun v t => update t v) g init) in *.
    assert (Hfold : ct_total_spent s' = fold_left Num.fadd (map amount_of g) Num.fzero /\
                    ct_purchase_count s' = List.length g + 0 /\
                    (forall p, p ∈ ct_products_bought s' <->
                               p ∈ (∅ : gset string) \/ In p (map ProductName g)))
      by exact (fold_left_customer g init).
    destruct Hfold as (Hs & Hc & Hb).
    unfold customer_totals. rewrite Hk.
    split; [assumption |].
    split; [rewrite Hcount, Hc; unfold g; lia |].
    split; [by rewrite Hspent, Hs |].
    split; [| split].
    + intros p. rewrite Hbought.
      destruct (sorted_strings_spec (ct_products_bought s')) as [Hmem _].
      rewrite Hmem, Hb, in_map_iff. unfold g, keyed. split.
      * intros [Hempty | (t & Hname & Ht)]; [by apply elem_of_empty in Hempty |].
        apply filter_In in Ht as [Ht Hcid]. apply String.eqb_eq in Hcid.
        exists t. auto.
      * intros (t & Ht & Hcid & Hname). right. exists t. split; [assumption |].
        apply filter_In. split; [assumption | by apply String.eqb_eq].
    + rewrite Hbought. apply sorted_strings_spec.
    + by rewrite Hspent, Hcount.
  - apply (sorted_floats_descending key rest).
Qed.

(** ** [daily_sales_trend] *)

Lemma StronglySorted_map {A B : Type} (f : A -> B) (R : B -> B -> Prop) (l : list A) :
  StronglySorted (fun a b => R (f a) (f b)) l -> StronglySorted R (map f l).
Proof.
  induction 1 as [| a l Hl IH Ha]; simpl; constructor; [assumption |].
  rewrite List.Forall_forall in *. intros b Hb.
  apply in_map_iff in Hb as (b' & <- & Hb'). by apply Ha.
Qed.

(** A set built from a list has at most as many elements as the list, and
    at least one when the list is not empty. *)
Lemma size_list_to_set_bounds (l : list string) :
  size (list_to_set l : gset string) <= List.length l /\
  (l <> [] -> 1 <= size (list_to_set l : gset string)).
Proof.
  split.
  - induction l as [| x l IH].
    { change (list_to_set [] : gset string) with (∅ : gset string).
      by rewrite size_empty. }
    change (list_to_set (x :: l) : gset string)
      with ({[x]} ∪ list_to_set l : gset string).
    rewrite size_union_alt, size_singleton. cbn [List.length].
    assert (size (list_to_set l ∖ {[x]} : gset string) <= size (list_to_set l : gset string))
      by (apply subseteq_size; intros y Hy; by apply elem_of_difference in Hy as [? _]).
    lia.
  - destruct l as [| x l]; [contradiction |]. intros _.
    assert (Hne : size (list_to_set (x :: l) : gset string) <> 0).
    { apply size_non_empty_iff. intros Hempty.
      assert (Hx : x ∈ (list_to_set (x :: l) : gset string))
        by (apply elem_of_list_to_set, list_elem_of_In; by left).
      rewrite Hempty in Hx. by apply elem_of_empty in Hx. }
    lia.
Qed.

Lemma fold_left_day (g : list Transaction) : forall s,
  let s' := fold_left (fun s t =>
              {| dt_revenue := Num.fadd (dt_revenue s) (amount_of t);
                 dt_transaction_count := S (dt_transaction_count s);
                 dt_unique_customers := dt_unique_customers s ∪ {[ CustomerID t ]} |}) g s in
  dt_revenue s' = fold_left Num.fadd (map amount_of g) (dt_revenue s) /\
  dt_transaction_count s' = List.length g + dt_transaction_count s /\
  dt_unique_customers s' = dt_unique_customers s ∪ list_to_set (map CustomerID g).
Proof.
  induction g as [| t g IH]; intros s; simpl.
  - repeat split.
    change (list_to_set (@nil string) : gset string) with (∅ : gset string).
    by rewrite (right_id_L ∅ (∪)).
  - destruct (IH {| dt_revenue := Num.fadd (dt_revenue s) (amount_of t);
                    dt_transaction_count := S (dt_transaction_count s);
                    dt_unique_customers := dt_unique_customers s ∪ {[ CustomerID t ]} |})
      as (Hrevenue & Hcount & Hcustomers).
    simpl in *. split; [assumption |]. split; [lia |].
    rewrite Hcustomers.
    change (list_to_set (CustomerID t :: map CustomerID g) : gset string)
      with ({[ CustomerID t ]} ∪ list_to_set (map CustomerID g) : gset string).
    by rewrite (assoc_L (∪)).
Qed.

Lemma keyed_lengths (key : Transaction -> string) (keys : list string) txs :
  List.NoDup keys ->
  (forall t, In t txs -> In (key t) keys) ->
  list_sum (map (fun r => List.length (keyed key r txs)) keys) = List.length txs.
Proof.
  intros Hnodup Hcover.
  rewrite <- length_flat_map.
  apply Permutation_length. by apply keyed_partition.
Qed.

(** X4: [daily_sales_trend] returns one entry per date that occurs, in
    strictly ascending order of the date strings; each holds the float sum of
    the day's amounts rounded to two places, the number of the day's
    transactions and the number of different customers among them, which is at
    least one and at most the number of transactions. The counts of the days
    add up to the number of transactions. The only exception is the
    [OverflowError] of an amount. *)
Theorem daily_sales_trend_spec (transactions : list Transaction) :
  match daily_sales_trend transactions with
  | Ok trend =>
      StronglySorted (fun a b => Str.ltb (fst a) (fst b) = true) trend /\
      (forall date, In date (map fst trend) <-> occurs Date date transactions) /\
      Forall (day_totals transactions) trend /\
      list_sum (map (fun e => day_transaction_count (snd e)) trend) =
        List.length transactions
  | Raise e => e = OverflowError
  end.
Proof.
  pose (init := {| dt_revenue := Num.fzero; dt_transaction_count := 0;
                   dt_unique_customers := ∅ |}).
  pose (update := fun (t : Transaction) (s : DayTotals) =>
                    {| dt_revenue := Num.fadd (dt_revenue s) (amount_of t);
                       dt_transaction_count := S (dt_transaction_count s);
                       dt_unique_customers := dt_unique_customers s ∪ {[ CustomerID t ]} |}).
  destruct (daily_sales_trend transactions) as [trend | e] eqn:Hrun;
    [| by apply daily_sales_trend_raises in Hrun].
  unfold daily_sales_trend in Hrun.
  destruct (for_each day_step transactions []) as [table |] eqn:Htable;
    simpl in Hrun; [| discriminate].
  injection Hrun as <-.
  apply (for_each_amount
           (fun st t a => upsert (Date t) init
                            (fun s => {| dt_revenue := Num.fadd (dt_revenue s) a;
                                         dt_transaction_count := S (dt_transaction_count s);
                                         dt_unique_customers :=
                                           dt_unique_customers s ∪ {[ CustomerID t ]} |}) st))
    in Htable as [_ Htable].
  change (table = fold_left (fun d t => upsert (Date t) init (update t) d)
                    transactions []) in Htable.
  set (entry := fun e : string * DayTotals =>
                  (fst e, {| revenue := Num.round2 (dt_revenue (snd e));
                             day_transaction_count := dt_transaction_count (snd e);
                             unique_customers := size (dt_unique_customers (snd e)) |})).
  assert (Hnodup : List.NoDup (map fst table))
    by (rewrite Htable; apply grouped_NoDup; constructor).
  pose proof (sorted_perm Str.ltb fst false table) as Hperm.
  assert (Hdates : map fst (map entry (sorted Str.ltb fst false table)) =
                   map fst (sorted Str.ltb fst false table))
    by (rewrite map_map; apply map_ext; reflexivity).
  assert (Hsorted : StronglySorted (fun a b => Str.ltb (fst a) (fst b) = true)
                      (map entry (sorted Str.ltb fst false table))).
  { apply StronglySorted_map. apply (sorted_strictly fst table Hnodup). }
  assert (Hkeys : forall date, In date (map fst (map entry (sorted Str.ltb fst false table)))
                               <-> occurs Date date transactions).
  { intros date. rewrite Hdates, <- (grouped_keys Date init update), <- Htable.
    split; apply Permutation_in; [| symmetry]; by apply Permutation_map. }
  assert (Hentries : Forall (day_totals transactions)
                       (map entry (sorted Str.ltb fst false table))).
  { apply List.Forall_forall. intros d Hd.
    apply in_map_iff in Hd as ([date s] & <- & Hin).
    apply (Permutation_in _ Hperm) in Hin. rewrite Htable in Hin.
    apply (grouped_In Date init update) in Hin as [Hoccurs ->].
    set (g := keyed Date date transactions).
    set (s' := fold_left (fun v t => update t v) g init).
    assert (Hfold : dt_revenue s' = fold_left Num.fadd (map amount_of g) Num.fzero /\
                    dt_transaction_count s' = List.length g + 0 /\
                    dt_unique_customers s' = ∅ ∪ list_to_set (map CustomerID g))
      by exact (fold_left_day g init).
    destruct Hfold as (Hrevenue & Hcount & Hcustomers).
    assert (Hset : dt_unique_customers s' = customers_on date transactions)
      by (rewrite Hcustomers; unfold customers_on; fold g; by rewrite (left_id_L ∅ (∪))).
    destruct (size_list_to_set_bounds (map CustomerID g)) as [Hle Hge].
    assert (Hne : map CustomerID g <> []).
    { apply keyed_occurs in Hoccurs. fold g in Hoccurs.
      destruct g; [contradiction | discriminate]. }
    specialize (Hge Hne). rewrite length_map in Hle.
    unfold day_totals, entry. cbn [fst snd revenue day_transaction_count unique_customers].
    fold g. rewrite Hrevenue, Hcount, Hset.
    unfold customers_on. fold g.
    repeat split; try assumption; try reflexivity; lia. }
  split; [assumption |]. split; [assumption |]. split; [assumption |].
  set (trend := map entry (sorted Str.ltb fst false table)) in *.
  transitivity (list_sum (map (fun r => List.length (keyed Date r transactions))
                            (map fst trend))).
  - rewrite map_map. f_equal. apply map_ext_in. intros d Hd.
    rewrite List.Forall_forall in Hentries.
    by destruct (Hentries d Hd) as (_ & _ & -> & _).
  - apply keyed_lengths.
    + by apply (strictly_sorted_NoDup fst).
    + intros t Ht. apply Hkeys. exists t. auto.
Qed.

(** ** [find_peak_sales_day] *)

(** Without a nan, what is not above [b] is below whatever [b] is below. *)
Lemma flt_below (y b x : Num.float) :
  Num.is_nan y = false -> Num.is_nan b = false ->
  Num.flt b y = false -> Num.flt b x = true -> Num.flt y x = true.
Proof. float_order. Qed.

Lemma flt_not_above (b x y : Num.float) :
  Num.flt b y = false -> Num.flt b x = true -> Num.flt x y = false.
Proof.
  intros Hby Hbx. destruct (Num.flt x y) eqn:Hxy; [| reflexivity].
  by rewrite (flt_trans b x y Hbx Hxy) in Hby.
Qed.

(** [max(l, key=key)] on float keys: no element has a key above that of
    the result, and, when no key up to the result is a nan, every element
    before the result has a key below it: of equal greatest keys the first
    wins. *)
Lemma max_by_loop {A : Type} (key : A -> Num.float) (rest : list A) :
  forall before best after,
    Forall (fun x => Num.flt (key best) (key x) = false) (before ++ after) ->
    (Forall (fun x => Num.is_nan (key x) = false) (before ++ [best]) ->
     Forall (fun x => Num.flt (key x) (key best) = true) before) ->
    exists before' after',
      before ++ best :: after ++ rest =
        before' ++
        fold_left (fun best x => if Num.flt (key best) (key x) then x else best) rest best ::
        after' /\
      Forall (fun x => Num.flt
                         (key (fold_left (fun best x => if Num.flt (key best) (key x)
                                                        then x else best) rest best))
                         (key x) = false) (before' ++ after') /\
      (Forall (fun x => Num.is_nan (key x) = false)
         (before' ++ [fold_left (fun best x => if Num.flt (key best) (key x)
                                               then x else best) rest best]) ->
       Forall (fun x => Num.flt (key x)
                          (key (fold_left (fun best x => if Num.flt (key best) (key x)
                                                         then x else best) rest best))
                        = true) before').
Proof.
  induction rest as [| x rest IH]; intros before best after Hnone Hbelow.
  - exists before, after. rewrite app_nil_r. auto.
  - cbn [fold_left]. destruct (Num.flt (key best) (key x)) eqn:Hx.
    + destruct (IH (before ++ best :: after) x []) as (before' & after' & Heq & H1 & H2).
      * rewrite app_nil_r. apply List.Forall_forall. intros y Hy.
        apply in_app_or in Hy as [Hy | [<- | Hy]].
        -- apply (flt_not_above (key best)); [| assumption].
           rewrite List.Forall_forall in Hnone. apply Hnone, in_or_app. by left.
        -- by apply flt_asym.
        -- apply (flt_not_above (key best)); [| assumption].
           rewrite List.Forall_forall in Hnone. apply Hnone, in_or_app. by right.
      * intros Hnan. rewrite List.Forall_forall in Hnan.
        assert (Hbest : Num.is_nan (key best) = false)
          by (apply Hnan; rewrite <- app_assoc; apply in_or_app; right; by left).
        apply List.Forall_forall. intros y Hy.
        apply in_app_or in Hy as [Hy | [<- | Hy]].
        -- apply (flt_trans _ (key best)); [| assumption].
           assert (Hprefix : Forall (fun x => Num.is_nan (key x) = false) (before ++ [best])).
           { apply List.Forall_forall. intros z Hz. apply Hnan.
             apply in_app_or in Hz as [Hz | [<- | []]].
             - apply in_or_app; left; apply in_or_app; by left.
             - apply in_or_app; left; apply in_or_app; right; by left. }
           specialize (Hbelow Hprefix). rewrite List.Forall_forall in Hbelow.
           by apply Hbelow.
        -- assumption.
        -- apply (flt_below _ (key best)); [| assumption | | assumption].
           ++ apply Hnan. apply in_or_app; left; apply in_or_app; right; by right.
           ++ rewrite List.Forall_forall in Hnone. apply Hnone, in_or_app. by right.
      * exists before', after'. split; [| split; assumption].
        rewrite <- Heq. rewrite <- !app_assoc. reflexivity.
    + destruct (IH before best (after ++ [x])) as (before' & after' & Heq & H1 & H2).
      * rewrite app_assoc. apply Forall_app. split; [assumption |].
        by repeat constructor.
      * assumption.
      * exists before', after'. split; [| split; assumption].
        rewrite <- Heq. rewrite <- !app_assoc. reflexivity.
Qed.

(** A trend without a day comes from no transaction. *)
Lemma daily_sales_trend_empty txs : daily_sales_trend txs = Ok [] -> txs = [].
Proof.
  unfold daily_sales_trend.
  destruct (for_each day_step txs []) as [table |] eqn:Htable; simpl; [| discriminate].
  intros [= Hmap]. apply map_eq_nil in Hmap.
  assert (Hnil : table = []).
  { apply Permutation_nil. rewrite <- Hmap at 1. apply sorted_perm. }
  subst table.
  apply (for_each_amount
           (fun st t a => upsert (Date t)
                            {| dt_revenue := Num.fzero; dt_transaction_count := 0;
                               dt_unique_customers := ∅ |}
                            (fun s => {| dt_revenue := Num.fadd (dt_revenue s) a;
                                         dt_transaction_count := S (dt_transaction_count s);
                                         dt_unique_customers :=
                                           dt_unique_customers s ∪ {[ CustomerID t ]} |}) st))
    in Htable as [_ Htable].
  destruct txs as [| t txs]; [reflexivity | exfalso].
  assert (Hkey : In (Date t) (map fst (@nil (string * DayTotals)))); [| contradiction].
  rewrite Htable.
  apply (grouped_keys Date
           {| dt_revenue := Num.fzero; dt_transaction_count := 0; dt_unique_customers := ∅ |}
           (fun t s => {| dt_revenue := Num.fadd (dt_revenue s) (amount_of t);
                          dt_transaction_count := S (dt_transaction_count s);
                          dt_unique_customers := dt_unique_customers s ∪ {[ CustomerID t ]} |})).
  exists t. split; [by left | reflexivity].
Qed.

(** X5: [find_peak_sales_day] returns [None] for the empty list only.
    Otherwise it returns the date, the rounded revenue and the transaction
    count of a day of the trend; no day has a revenue above it, and, when no
    revenue up to that day is a nan, every earlier day has a revenue below it:
    of several days with the greatest revenue the earliest date is returned.
    The only exception is the [OverflowError] of an amount. *)
Theorem find_peak_sales_day_spec (transactions : list Transaction) :
  match find_peak_sales_day transactions with
  | Ok None => transactions = []
  | Ok (Some (peak_date, peak_rev, count)) =>
      exists before s after,
        daily_sales_trend transactions = Ok (before ++ (peak_date, s) :: after) /\
        revenue s = peak_rev /\
        day_transaction_count s = count /\
        Forall (fun e => Num.flt peak_rev (revenue (snd e)) = false) (before ++ after) /\
        (Forall (fun e => Num.is_nan (revenue (snd e)) = false)
           (before ++ [(peak_date, s)]) ->
         Forall (fun e => Num.flt (revenue (snd e)) peak_rev = true) before)
  | Raise e => e = OverflowError
  end.
Proof.
  destruct (find_peak_sales_day transactions) as [[[[peak_date peak_rev] count] |] | e]
    eqn:Hpeak; [| | by apply find_peak_sales_day_raises in Hpeak];
    unfold find_peak_sales_day in Hpeak;
    destruct (daily_sales_trend transactions) as [[| first rest] |] eqn:Htrend;
    simpl in Hpeak; try discriminate.
  - injection Hpeak as Hdate Hrev Hcount.
    destruct (max_by_loop (fun e : string * DayStats => revenue (snd e)) rest [] first [])
      as (before & after & Heq & Hnone & Hbelow); [constructor | constructor |].
    change (fold_left _ rest first)
      with (max_by Num.flt (fun e : string * DayStats => revenue (snd e)) first rest) in *.
    set (peak := max_by Num.flt (fun e : string * DayStats => revenue (snd e)) first rest) in *.
    exists before, (snd peak), after.
    simpl in Heq. rewrite Heq, <- Hdate, <- Hrev, <- Hcount.
    destruct peak as [d s]. simpl in *. auto.
  - by apply daily_sales_trend_empty.
Qed.

(** ** [validate_and_filter], on every input *)

(** A comprehension on the amounts returns only if every amount does. *)
Lemma comprehension_amounts (test : Num.float -> bool) (l : list Transaction) : forall acc r,
  for_each (fun acc t => do* b <- (do* a <- amount t; Ok (test a));
                         Ok (if b then acc ++ [t] else acc)) l acc = Ok r ->
  Forall (fun t => returns (amount t)) l.
Proof.
  induction l as [| t l IH]; intros acc r; simpl; [constructor |].
  destruct (amount t) as [a |] eqn:Ha; simpl; [| discriminate].
  intros Hrest. constructor; [by exists a | by eapply IH].
Qed.

Lemma comprehension_amount_raises (test : Num.float -> bool) (l : list Transaction) e :
  comprehension (fun t => do* a <- amount t; Ok (test a)) l = Raise e ->
  e = OverflowError /\ exists t, In t l /\ amount t = Raise OverflowError.
Proof.
  intros Hraise. unfold comprehension in Hraise.
  pose proof (comprehension_inv (fun t => do* a <- amount t; Ok (test a)) l []) as Hinv.
  cbv beta in Hinv. rewrite Hraise in Hinv. destruct Hinv as (t & Ht & Hkeep).
  destruct (amount t) as [a | e'] eqn:Ha; simpl in Hkeep; [discriminate |].
  injection Hkeep as ->. apply amount_raises in Ha as He. subst e.
  split; [reflexivity |]. exists t. auto.
Qed.

(** The three filters on every list: what they return, and when they
    raise. *)
Lemma apply_filters_cases region min_amount max_amount l :
  match apply_filters region min_amount max_amount l with
  | Ok r =>
      r = List.filter (fun t => region_ok region t && min_ok min_amount t &&
                                max_ok max_amount t) l /\
      (min_amount <> None \/ max_amount <> None ->
       Forall (fun t => returns (amount t)) (List.filter (region_ok region) l))
  | Raise e =>
      e = OverflowError /\ (min_amount <> None \/ max_amount <> None) /\
      exists t, In t l /\ region_ok region t = true /\ amount t = Raise OverflowError
  end.
Proof.
  unfold apply_filters. rewrite region_filter_ok. cbn [rbind].
  set (l1 := List.filter (region_ok region) l).
  assert (Hl1 : forall t, In t l1 -> In t l /\ region_ok region t = true)
    by (intros t Ht; by apply filter_In in Ht).
  assert (Hjoin : forall l2, l2 = List.filter (min_ok min_amount) l1 ->
            List.filter (max_ok max_amount) l2 =
            List.filter (fun t => region_ok region t && min_ok min_amount t &&
                                  max_ok max_amount t) l).
  { intros l2 ->. unfold l1. rewrite !filter_filter. apply filter_ext_Forall.
    apply List.Forall_forall. intros t _.
    by destruct (region_ok region t), (min_ok min_amount t), (max_ok max_amount t). }
  destruct min_amount as [lo |].
  - destruct (comprehension _ l1) as [l2 | e] eqn:Hmin; cbn [rbind].
    + assert (Hall : Forall (fun t => returns (amount t)) l1)
        by (apply (comprehension_amounts _ l1 [] l2 Hmin)).
      rewrite (min_filter_ok (Some lo) l1) in Hmin by (by right).
      injection Hmin as Hl2. symmetry in Hl2.
      destruct max_amount as [hi |].
      * destruct (comprehension _ l2) as [l3 | e] eqn:Hmax.
        -- rewrite (max_filter_ok (Some hi) l2) in Hmax
             by (right; rewrite Hl2; by apply Forall_filter).
           injection Hmax as <-. split; [by apply Hjoin | auto].
        -- apply comprehension_amount_raises in Hmax as (-> & t & Ht & Hraise).
           split; [reflexivity |]. split; [by left |].
           rewrite Hl2 in Ht. apply filter_In in Ht as [Ht _].
           destruct (Hl1 t Ht). exists t. auto.
      * split; [| auto]. rewrite <- (Hjoin l2 Hl2). simpl. by rewrite filter_true.
    + apply comprehension_amount_raises in Hmin as (-> & t & Ht & Hraise).
      split; [reflexivity |]. split; [by left |].
      destruct (Hl1 t Ht). exists t. auto.
  - cbn [rbind]. destruct max_amount as [hi |].
    + destruct (comprehension _ l1) as [l3 | e] eqn:Hmax.
      * assert (Hall : Forall (fun t => returns (amount t)) l1)
          by (apply (comprehension_amounts _ l1 [] l3 Hmax)).
        rewrite (max_filter_ok (Some hi) l1) in Hmax by (by right).
        injection Hmax as <-. split; [| auto].
        rewrite <- (Hjoin l1); [reflexivity |]. simpl. by rewrite filter_true.
      * apply comprehension_amount_raises in Hmax as (-> & t & Ht & Hraise).
        split; [reflexivity |]. split; [by right |].
        destruct (Hl1 t Ht). exists t. auto.
    + split; [| intros [H | H]; by contradiction H].
      rewrite <- (Hjoin l1); simpl; by rewrite filter_true.
Qed.

(** X6: on every input and for every filter setting, the validator either
    returns exactly the records that pass the six checks of the loop and each
    filter that is set, in input order, with the number of records that fail a
    check, or raises [OverflowError] because an amount filter is set and a
    record that passes the checks and the region filter has a quantity beyond
    the float range. Validating what it returned again, with the same filters,
    returns the same list and counts no invalid record. *)
Theorem validate_and_filter_exact (transactions : list Transaction)
  (region : option string) (min_amount max_amount : option Num.float) :
  match validate_and_filter transactions region min_amount max_amount with
  | Ok (filtered_list, invalid_count, summary) =>
      filtered_list = List.filter (passes region min_amount max_amount) transactions /\
      invalid_count = List.length (List.filter (fun t => negb (is_valid t)) transactions) /\
      validate_and_filter filtered_list region min_amount max_amount =
        Ok (filtered_list, 0,
            {| total_input := List.length filtered_list;
               invalid := 0;
               final_count := List.length filtered_list |})
  | Raise e =>
      e = OverflowError /\
      (min_amount <> None \/ max_amount <> None) /\
      exists t, In t transactions /\ is_valid t = true /\
                region_ok region t = true /\ amount t = Raise OverflowError
  end.
Proof.
  rewrite validate_and_filter_unfold. cbn zeta.
  pose proof (apply_filters_cases region min_amount max_amount
                (List.filter is_valid transactions)) as Hcases.
  destruct (apply_filters _ _ _ _) as [l | e]; cbn [rbind].
  - destruct Hcases as [Hl Hamounts].
    assert (Hexact : l = List.filter (passes region min_amount max_amount) transactions).
    { rewrite Hl, filter_filter. apply filter_ext_Forall, List.Forall_forall.
      intros t _. unfold passes. by rewrite !andb_assoc. }
    split; [assumption |]. split; [reflexivity |].
    assert (Hpass : Forall (fun t => passes region min_amount max_amount t = true) l).
    { rewrite Hexact. apply List.Forall_forall. intros t Ht.
      by apply filter_In in Ht as [_ ?]. }
    assert (Hkeep : forall (p : Transaction -> bool),
              Forall (fun t => p t = true) l -> List.filter p l = l).
    { intros p Hp. rewrite <- (filter_true l) at 2.
      apply filter_ext_Forall. eapply List.Forall_impl; [| exact Hp]. auto. }
    rewrite validate_and_filter_unfold. cbn zeta.
    assert (Hvalid : List.filter is_valid l = l).
    { apply Hkeep. eapply List.Forall_impl; [| exact Hpass].
      intros t. unfold passes. rewrite !andb_true_iff. tauto. }
    assert (Hinvalid : List.filter (fun t => negb (is_valid t)) l = []).
    { pose proof (filter_split_length is_valid l) as Hsplit. rewrite Hvalid in Hsplit.
      destruct (List.filter (fun t => negb (is_valid t)) l);
        [reflexivity | simpl in Hsplit; lia]. }
    rewrite Hvalid, Hinvalid.
    pose proof (apply_filters_cases region min_amount max_amount l) as Hagain.
    destruct (apply_filters region min_amount max_amount l) as [l' | e]; cbn [rbind].
    + destruct Hagain as [Hl' _].
      assert (Hsame : l' = l).
      { rewrite Hl'. apply Hkeep. eapply List.Forall_impl; [| exact Hpass].
        intros t. unfold passes. rewrite !andb_true_iff. tauto. }
      by rewrite Hsame.
    + exfalso. destruct Hagain as (_ & Hset & t & Ht & Hregion & Hraise).
      specialize (Hamounts Hset). rewrite List.Forall_forall in Hamounts.
      rewrite List.Forall_forall in Hpass. specialize (Hpass t Ht).
      unfold passes in Hpass. rewrite !andb_true_iff in Hpass.
      destruct (Hamounts t) as [a Ha]; [| congruence].
      rewrite Hexact in Ht. apply filter_In in Ht as [Ht _].
      apply filter_In. split; [| assumption].
      apply filter_In. tauto.
  - destruct Hcases as (-> & Hset & t & Ht & Hregion & Hraise).
    apply filter_In in Ht as [Ht Hvalid].
    split; [reflexivity |]. split; [assumption |]. exists t. auto.
Qed.

(** ** The records of the parser *)

Lemma lstrip_length space s :
  String.length (Str.lstrip space s) <= String.length s.
Proof.
  induction s as [| c s IH]; simpl; [lia |].
  destruct (space c); simpl; lia.
Qed.

Lemma lstrip_idempotent space s :
  Str.lstrip space (Str.lstrip space s) = Str.lstrip space s.
Proof.
  induction s as [| c s IH]; simpl; [reflexivity |].
  destruct (space c) eqn:Hc; [assumption |]. simpl. by rewrite Hc.
Qed.

Lemma rstrip_idempotent space s :
  Str.rstrip space (Str.rstrip space s) = Str.rstrip space s.
Proof.
  induction s as [| c s IH]; simpl; [reflexivity |].
  destruct (Str.rstrip space s) as [| d u] eqn:Hu.
  - destruct (space c) eqn:Hc; simpl; [reflexivity | by rewrite Hc].
  - cbn [Str.rstrip] in *. by rewrite IH.
Qed.

(** Stripping the right end keeps a left end that needs no stripping. *)
Lemma lstrip_rstrip space s :
  Str.lstrip space s = s -> Str.lstrip space (Str.rstrip space s) = Str.rstrip space s.
Proof.
  destruct s as [| c r]; [reflexivity |]. simpl.
  destruct (space c) eqn:Hc.
  - intros Heq. pose proof (lstrip_length space r) as Hlen.
    rewrite Heq in Hlen. simpl in Hlen. lia.
  - intros _. destruct (Str.rstrip space r); simpl; by rewrite Hc.
Qed.

(** [s.strip().strip() == s.strip()]. *)
Lemma strip_stripped s : stripped (Str.strip s).
Proof.
  unfold stripped, Str.strip.
  rewrite (lstrip_rstrip Str.is_space (Str.lstrip Str.is_space s))
    by apply lstrip_idempotent.
  apply rstrip_idempotent.
Qed.

Lemma lstrip_without space c s :
  Str.contains c s = false -> Str.contains c (Str.lstrip space s) = false.
Proof.
  induction s as [| d s IH]; simpl; [reflexivity |].
  intros H. destruct (space d); [| exact H].
  apply orb_false_iff in H as [_ H]. by apply IH.
Qed.

Lemma rstrip_without space c s :
  Str.contains c s = false -> Str.contains c (Str.rstrip space s) = false.
Proof.
  induction s as [| d s IH]; simpl; [reflexivity |].
  intros H. apply orb_false_iff in H as [Hd Hs]. specialize (IH Hs).
  destruct (Str.rstrip space s) as [| d' u].
  - destruct (space d); simpl; [reflexivity | by rewrite Hd].
  - cbn [Str.contains] in *. by rewrite Hd, IH.
Qed.

Lemma strip_without c s : Str.contains c s = false -> Str.contains c (Str.strip s) = false.
Proof. intros H. unfold Str.strip. by apply rstrip_without, lstrip_without. Qed.

(** No part of a split holds the separator. *)
Lemma split_parts_without sep s :
  Forall (fun p => Str.contains sep p = false) (Str.split sep s).
Proof.
  induction s as [| c s IH]; simpl; [by repeat constructor |].
  destruct (Ascii.eqb c sep) eqn:Hc; [by constructor |].
  destruct (Str.split sep s) as [| p ps]; [by repeat constructor; simpl; rewrite Hc |].
  apply Forall_cons_iff in IH as [Hp Hps].
  constructor; [simpl; by rewrite Hc, Hp | assumption].
Qed.

Lemma replace_without old new c s :
  Str.contains c new = false -> Str.contains c s = false ->
  Str.contains c (Str.replace old new s) = false.
Proof.
  intros Hnew. induction s as [| d s IH]; simpl; [reflexivity |].
  intros H. apply orb_false_iff in H as [Hd Hs].
  destruct (Ascii.eqb d old).
  - rewrite contains_append, Hnew. by apply IH.
  - simpl. rewrite Hd. by apply IH.
Qed.

(** Replacing a character by a string without it removes it. *)
Lemma replace_removes old new s :
  Str.contains old new = false -> Str.contains old (Str.replace old new s) = false.
Proof.
  intros Hnew. induction s as [| d s IH]; simpl; [reflexivity |].
  destruct (Ascii.eqb d old) eqn:Hd.
  - by rewrite contains_append, Hnew.
  - simpl. by rewrite Hd.
Qed.

Lemma part_without sep parts i :
  Forall (fun p => Str.contains sep p = false) parts ->
  Str.contains sep (part parts i) = false.
Proof.
  intros Hall. unfold part. revert i.
  induction Hall as [| p parts Hp _ IH]; intros [| i]; simpl; auto.
Qed.

Lemma build_transaction_clean line tx :
  build_transaction (Str.split "|" line) = Ok tx -> clean tx.
Proof.
  unfold build_transaction.
  destruct (int_or_raise _) as [quantity |]; simpl; [| discriminate].
  destruct (float_or_raise _) as [unit_price |]; simpl; [| discriminate].
  intros [= <-].
  pose proof (split_parts_without "|" line) as Hparts.
  assert (Hfield : forall i, stripped (Str.strip (part (Str.split "|" line) i)) /\
                             pipe_free (Str.strip (part (Str.split "|" line) i))).
  { intros i. split; [apply strip_stripped |].
    by apply strip_without, part_without. }
  split; [| by apply strip_without, replace_removes].
  unfold parsed_fields. simpl.
  repeat (apply List.Forall_cons; [try apply Hfield |]); [| constructor].
  split; [apply strip_stripped |].
  apply strip_without, replace_without; [reflexivity | by apply part_without].
Qed.

Lemma parse_step_clean acc line :
  parse_step acc line = Ok acc \/
  exists tx, parse_step acc line = Ok (acc ++ [tx]) /\ clean tx.
Proof.
  unfold parse_step.
  destruct (negb _); [by left |].
  destruct (build_transaction _) as [tx | []] eqn:Hbuild; try (by left).
  - right. exists tx. split; [reflexivity | by apply (build_transaction_clean line)].
  - exfalso. revert Hbuild. unfold build_transaction, int_or_raise, float_or_raise.
    destruct (Num.int _); simpl; [| discriminate].
    destruct (Num.float_of_str _); simpl; discriminate.
  - exfalso. revert Hbuild. unfold build_transaction, int_or_raise, float_or_raise.
    destruct (Num.int _); simpl; [| discriminate].
    destruct (Num.float_of_str _); simpl; discriminate.
  - exfalso. revert Hbuild. unfold build_transaction, int_or_raise, float_or_raise.
    destruct (Num.int _); simpl; [| discriminate].
    destruct (Num.float_of_str _); simpl; discriminate.
Qed.

Lemma parse_loop_clean lines : forall acc,
  Forall clean acc ->
  exists txs, for_each parse_step lines acc = Ok (acc ++ txs) /\
              Forall clean txs /\ List.length txs <= List.length lines.
Proof.
  induction lines as [| line lines IH]; intros acc Hacc; simpl.
  - exists []. rewrite app_nil_r.
    split; [reflexivity | split; [constructor | simpl; lia]].
  - destruct (parse_step_clean acc line) as [-> | (tx & -> & Htx)]; simpl.
    + destruct (IH acc Hacc) as (txs & -> & Hclean & Hlen).
      exists txs. split; [reflexivity | split; [assumption | lia]].
    + destruct (IH (acc ++ [tx])) as (txs & -> & Hclean & Hlen).
      { apply Forall_app. split; [assumption | constructor; [assumption | constructor]]. }
      exists (tx :: txs). rewrite <- app_assoc.
      split; [reflexivity | split; [by constructor | simpl; lia]].
Qed.

(** X7: the parser raises nothing and returns at most one record per line; in
    every record the six text fields have no whitespace at either end and hold
    no separator, and the product name holds no comma. *)
Theorem parse_transactions_clean (raw_lines : list string) :
  match parse_transactions raw_lines with
  | Ok parsed_data =>
      List.length parsed_data <= List.length raw_lines /\ Forall clean parsed_data
  | Raise _ => False
  end.
Proof.
  unfold parse_transactions.
  destruct (parse_loop_clean raw_lines []) as (txs & -> & Hclean & Hlen); [constructor |].
  simpl. auto.
Qed.

(** X8: each line is parsed on its own: the records of two lists of lines put
    together are the records of the first followed by those of the second. *)
Theorem parse_transactions_app (lines more : list string) :
  parse_transactions (lines ++ more) =
  do* first <- parse_transactions lines;
  do* second <- parse_transactions more;
  Ok (first ++ second).
Proof.
  unfold parse_transactions.
  assert (Hshift : forall ls acc,
            for_each parse_step ls acc =
            do* txs <- for_each parse_step ls []; Ok (acc ++ txs)).
  { induction ls as [| line ls IH]; intros acc; simpl; [by rewrite app_nil_r |].
    destruct (parse_step_clean acc line) as [Hskip | (tx & Hkeep & _)];
      destruct (parse_step_clean [] line) as [Hskip' | (tx' & Hkeep' & _)];
      rewrite ?Hskip, ?Hkeep, ?Hskip', ?Hkeep'; simpl.
    - apply IH.
    - exfalso. revert Hskip Hkeep'. unfold parse_step.
      destruct (negb _); [discriminate |].
      destruct (build_transaction _) as [t | []]; try discriminate.
      intros [= H]. apply (f_equal (@List.length _)) in H.
      rewrite length_app in H. simpl in H. lia.
    - exfalso. revert Hskip' Hkeep. unfold parse_step.
      destruct (negb _); [intros _ [= H] |].
      + apply (f_equal (@List.length _)) in H. rewrite length_app in H. simpl in H. lia.
      + destruct (build_transaction _) as [t | []]; try discriminate.
        intros _ [= H]. apply (f_equal (@List.length _)) in H.
        rewrite length_app in H. simpl in H. lia.
    - assert (tx = tx').
      { revert Hkeep Hkeep'. unfold parse_step.
        destruct (negb _); [intros _ [= H]; destruct tx'; discriminate |].
        destruct (build_transaction _) as [t | []]; try discriminate.
        intros [= H] [= H']. apply app_inj_tail in H as [_ H].
        simpl in H'. congruence. }
      subst tx'. rewrite (IH (acc ++ [tx])), (IH [tx]).
      destruct (for_each parse_step ls []); simpl; [| reflexivity].
      by rewrite <- app_assoc. }
  induction lines as [| line lines IH]; simpl.
  - destruct (for_each parse_step more []); reflexivity.
  - destruct (parse_step_clean [] line) as [-> | (tx & -> & _)]; simpl; [apply IH |].
    rewrite (Hshift (lines ++ more) [tx]), (Hshift lines [tx]), IH.
    destruct (for_each parse_step lines []) as [first |]; simpl; [| reflexivity].
    destruct (for_each parse_step more []) as [second |]; simpl; reflexivity.
Qed.

(** ** [read_sales_data] *)

Lemma stripped_lines_spec lines :
  Forall (fun line => line <> "" /\ stripped line) (stripped_lines lines) /\
  List.length (stripped_lines lines) <= Nat.pred (List.length lines).
Proof.
  unfold stripped_lines. split.
  - apply List.Forall_forall. intros line Hline.
    apply in_map_iff in Hline as (raw & <- & Hraw).
    apply filter_In in Hraw as [_ Hne].
    split; [| apply strip_stripped].
    intros Hempty. rewrite Hempty in Hne. discriminate.
  - rewrite length_map.
    etransitivity; [apply filter_length_le |].
    destruct lines; simpl; lia.
Qed.

(** X9: whatever the file system answers under the three encodings,
    [read_sales_data] returns lines that are not empty and have no whitespace
    at either end. The result is empty, or it is made of the lines one
    encoding read, the first line left out: it then has fewer lines than were
    read. A missing file and three decoding errors give the empty list. *)
Theorem read_sales_data_lines (open_file : encoding -> reading) :
  Forall (fun line => line <> "" /\ stripped line) (read_sales_data open_file) /\
  (read_sales_data open_file = [] \/
   exists enc lines,
     open_file enc = Lines lines /\
     read_sales_data open_file = stripped_lines lines /\
     List.length (read_sales_data open_file) < List.length lines) /\
  (open_file utf_8 = FileNotFoundError -> read_sales_data open_file = []) /\
  ((forall enc, open_file enc = UnicodeDecodeError) -> read_sales_data open_file = []).
Proof.
  assert (Hwith : forall encs,
            Forall (fun line => line <> "" /\ stripped line) (read_with open_file encs) /\
            (read_with open_file encs = [] \/
             exists enc lines,
               open_file enc = Lines lines /\
               read_with open_file encs = stripped_lines lines /\
               List.length (read_with open_file encs) < List.length lines)).
  { induction encs as [| enc encs IH]; simpl; [split; [constructor | by left] |].
    destruct (open_file enc) as [lines | |] eqn:Hopen;
      [| exact IH | split; [constructor | by left]].
    destruct (stripped_lines_spec lines) as [Hlines Hlen].
    split; [assumption |].
    destruct (stripped_lines lines) as [| line rest] eqn:Hrun; [by left | right].
    exists enc, lines. rewrite Hrun.
    split; [assumption | split; [reflexivity |]].
    destruct lines; simpl in *; lia. }
  unfold read_sales_data. destruct (Hwith encodings) as [Hlines Hcases].
  split; [assumption |]. split; [assumption |]. split.
  - intros Hmissing. simpl. by rewrite Hmissing.
  - intros Hfail. simpl. by rewrite !Hfail.
Qed.

(** ** [create_product_mapping] *)

Lemma create_product_mapping_snoc api_products item :
  create_product_mapping (api_products ++ [item]) =
  match create_product_mapping api_products, item_id item with
  | Some m, Some k => Some (<[k := entry_of item]> m)
  | _, _ => None
  end.
Proof. unfold create_product_mapping. by rewrite fold_left_app. Qed.

(** Under each key the mapping holds the entry of the last item with that
    id. *)
Lemma create_product_mapping_lookup (api_products : list Item) : forall mapping,
  create_product_mapping api_products = Some mapping ->
  forall k, mapping !! k = entry_of <$> last_with_id k api_products.
Proof.
  induction api_products as [| item api_products IH] using rev_ind; intros mapping.
  - intros [= <-] k. apply lookup_empty.
  - rewrite create_product_mapping_snoc.
    destruct (create_product_mapping api_products) as [m |]; [| discriminate].
    destruct (item_id item) as [kx |] eqn:Hid; [| discriminate].
    intros [= <-] k. unfold last_with_id. rewrite rev_unit. cbn [List.find].
    unfold has_id at 1. rewrite Hid.
    destruct (Z.eqb_spec kx k) as [-> | Hne].
    + by rewrite lookup_insert_eq.
    + rewrite lookup_insert_ne by assumption. by apply IH.
Qed.

(** X10: [create_product_mapping] raises exactly when an item has no id.
    Otherwise the mapping holds, under each id of the list, the entry of the
    last item with that id, with the defaults for the fields the item lacks,
    and nothing under any other key. *)
Theorem create_product_mapping_spec (api_products : list Item) :
  match create_product_mapping api_products with
  | Some mapping =>
      Forall (fun item => item_id item <> None) api_products /\
      (forall k, mapping !! k = entry_of <$> last_with_id k api_products) /\
      (forall k, is_Some (mapping !! k) <-> In (Some k) (map item_id api_products))
  | None => Exists (fun item => item_id item = None) api_products
  end.
Proof.
  assert (Hids : match create_product_mapping api_products with
                 | Some _ => Forall (fun item => item_id item <> None) api_products
                 | None => Exists (fun item => item_id item = None) api_products
                 end).
  { induction api_products as [| item api_products IH] using rev_ind; [constructor |].
    rewrite create_product_mapping_snoc.
    destruct (create_product_mapping api_products) as [m |];
      [| apply Exists_app; by left].
    destruct (item_id item) as [kx |] eqn:Hid.
    - apply Forall_app. split; [assumption |].
      constructor; [congruence | constructor].
    - apply Exists_app. right. by constructor. }
  destruct (create_product_mapping api_products) as [mapping |] eqn:Hmapping;
    [| assumption].
  pose proof (create_product_mapping_lookup api_products mapping Hmapping) as Hlookup.
  split; [assumption |]. split; [assumption |].
  intros k. rewrite Hlookup. unfold last_with_id.
  destruct (List.find (has_id k) (rev api_products)) as [item |] eqn:Hfind; simpl.
  - split; [intros _ | by eauto].
    apply find_some in Hfind as [Hin Hk]. apply in_rev in Hin.
    unfold has_id in Hk. destruct (item_id item) as [k' |] eqn:Hid; [| discriminate].
    apply Z.eqb_eq in Hk. subst k'. rewrite <- Hid. by apply in_map.
  - split; [intros [? ?]; discriminate |].
    intros Hin. apply in_map_iff in Hin as (item & Hid & Hin).
    apply in_rev in Hin.
    pose proof (find_none _ _ Hfind item Hin) as Hk.
    unfold has_id in Hk. rewrite Hid, Z.eqb_refl in Hk. discriminate.
Qed.

(** X11: a transaction whose product id reads as the int [n] after its first
    character is enriched from the last catalog item with the id [n]:
    category, brand and rating of that item, or "General", "Generic" and 0.0
    where the item lacks them. It is left unmatched when no item has the id
    [n]. This holds at its position in the enriched list, and for a product id
    made of any first character and the decimal rendering of [n]. *)
Theorem enrich_from_catalog (api_products : list Item) (mapping : gmap Z CatalogEntry)
  (transactions : list Transaction) (i : nat) (tx : Transaction) (n : Z) :
  create_product_mapping api_products = Some mapping ->
  nth_error transactions i = Some tx ->
  Num.int (Str.tail (ProductID tx)) = Some n ->
  nth_error (enrich_sales_data transactions mapping) i =
    Some (match last_with_id n api_products with
          | Some item => matched tx item
          | None => unmatched tx
          end) /\
  forall c, prod_id_num (with_product_id tx (String c (Num.str_int n))) = n.
Proof.
  intros Hmapping Hi Hread. split.
  - pose proof (create_product_mapping_lookup api_products mapping Hmapping) as Hlookup.
    rewrite enrich_sales_data_map, nth_error_map, Hi. simpl. f_equal.
    unfold enriched_tx, prod_id_num. rewrite Hread, Hlookup.
    by destruct (last_with_id n api_products).
  - intros c. unfold prod_id_num, with_product_id. simpl.
    by rewrite int_str_int.
Qed.

Lemma enrich_from_catalog_witness :
  nth_error (enrich_sales_data [pabc; north]
               (<[2%Z := entry_of pliers]>
                  (<[1%Z := entry_of mallet]> (<[1%Z := entry_of hammer]> ∅)))) 1 =
    Some (match last_with_id 1 [hammer; mallet; pliers] with
          | Some item => matched north item
          | None => unmatched north
          end) /\
  forall c, prod_id_num (with_product_id north (String c (Num.str_int 1))) = 1%Z.
Proof.
  apply (enrich_from_catalog [hammer; mallet; pliers] _ [pabc; north] 1 north 1);
    reflexivity.
Defined.

(** ** [generate_sales_report] *)

(** The dates of the trend are the dates that occur. *)
Lemma daily_trend_dates txs trend :
  daily_sales_trend txs = Ok trend ->
  forall date, In date (map fst trend) <-> occurs Date date txs.
Proof.
  unfold daily_sales_trend.
  destruct (for_each day_step txs []) as [table |] eqn:Htable; simpl; [| discriminate].
  intros [= <-] date.
  apply (for_each_amount
           (fun st t a => upsert (Date t)
                            {| dt_revenue := Num.fzero; dt_transaction_count := 0;
                               dt_unique_customers := ∅ |}
                            (fun s => {| dt_revenue := Num.fadd (dt_revenue s) a;
                                         dt_transaction_count := S (dt_transaction_count s);
                                         dt_unique_customers :=
                                           dt_unique_customers s ∪ {[ CustomerID t ]} |}) st))
    in Htable as [_ Htable].
  rewrite map_map. cbn [fst].
  rewrite <- (grouped_keys Date
                {| dt_revenue := Num.fzero; dt_transaction_count := 0;
                   dt_unique_customers := ∅ |}
                (fun t s => {| dt_revenue := Num.fadd (dt_revenue s) (amount_of t);
                               dt_transaction_count := S (dt_transaction_count s);
                               dt_unique_customers :=
                                 dt_unique_customers s ∪ {[ CustomerID t ]} |})).
  rewrite <- Htable.
  split; apply Permutation_in; [| symmetry]; apply Permutation_map, sorted_perm.
Qed.

(** The peak day is a day of the list. *)
Lemma find_peak_sales_day_date txs peak_date peak_rev count :
  find_peak_sales_day txs = Ok (Some (peak_date, peak_rev, count)) ->
  occurs Date peak_date txs.
Proof.
  unfold find_peak_sales_day.
  destruct (daily_sales_trend txs) as [[| first rest] |] eqn:Htrend; simpl;
    try discriminate.
  intros [= <- _ _].
  apply (daily_trend_dates txs (first :: rest) Htrend).
  destruct (max_by_loop (fun e : string * DayStats => revenue (snd e)) rest [] first [])
    as (before & after & Heq & _); [constructor | constructor |].
  simpl in Heq. unfold max_by. rewrite Heq, map_app. apply in_or_app. right. by left.
Qed.

Lemma find_peak_sales_day_none txs : find_peak_sales_day txs = Ok None -> txs = [].
Proof.
  unfold find_peak_sales_day.
  destruct (daily_sales_trend txs) as [[| first rest] |] eqn:Htrend; simpl;
    try discriminate.
  intros _. by apply daily_sales_trend_empty.
Qed.

Lemma average_order_raises total_rev total_tx e :
  average_order total_rev total_tx = Raise e -> e = OverflowError.
Proof.
  intros Hraise.
  pose proof (average_order_safe total_rev total_tx) as Hsafe. rewrite Hraise in Hsafe.
  unfold average_order in Hraise. destruct (0 <? total_tx)%nat; [| discriminate].
  destruct (Num.div _ _) as [q | e'] eqn:Hdiv; simpl in Hraise; [discriminate |].
  injection Hraise as ->. apply div_raises in Hdiv as [-> | ->]; congruence.
Qed.

Lemma success_rate_raises total_enriched enriched e :
  success_rate total_enriched enriched = Raise e -> e = OverflowError.
Proof.
  intros Hraise.
  pose proof (success_rate_safe total_enriched enriched) as Hsafe. rewrite Hraise in Hsafe.
  unfold success_rate in Hraise. destruct enriched as [| e0 enriched]; [discriminate |].
  destruct (Num.div _ _) as [q | e'] eqn:Hdiv; cbn [rbind] in Hraise.
  - by apply mul_raises in Hraise.
  - injection Hraise as ->. apply div_raises in Hdiv as [-> | ->]; congruence.
Qed.

(** The region table raises [OverflowError], or [ZeroDivisionError] on a
    list that is not empty and whose total revenue is zero. *)
Lemma region_wise_sales_raises txs e :
  region_wise_sales txs = Raise e ->
  e = OverflowError \/
  e = ZeroDivisionError /\ txs <> [] /\
  exists total, calculate_total_revenue txs = Ok total /\ is_zero_number total = true.
Proof.
  intros Hraise.
  destruct (calculate_total_revenue txs) as [total | e'] eqn:Htotal.
  - assert (Hkind : e = OverflowError \/ e = ZeroDivisionError).
    { revert Hraise. unfold region_wise_sales. rewrite Htotal. cbn [rbind].
      destruct (for_each region_step txs []) as [stats | e'] eqn:Hloop; cbn [rbind].
      - destruct (for_each _ stats []) as [done | e'] eqn:Hpct; cbn [rbind];
          [discriminate |].
        intros [= ->].
        apply for_each_raise in Hpct as (acc & [region s] & _ & Hstep).
        unfold percentage_step, region_percentage in Hstep.
        destruct (Num.div _ _) as [share | e'] eqn:Hdiv; cbn [rbind] in Hstep.
        + destruct (Num.mul _ _) as [pct | e'] eqn:Hmul; cbn [rbind] in Hstep.
          * destruct (Num.to_float pct) as [x | e'] eqn:Hx; cbn [rbind] in Hstep;
              [discriminate |].
            injection Hstep as ->. left. by apply to_float_raises in Hx.
          * injection Hstep as ->. left. by apply mul_raises in Hmul.
        + injection Hstep as ->. by apply div_raises in Hdiv.
      - intros [= ->]. left.
        apply (step_raises region_step txs [] _) in Hloop; [assumption |].
        intros st t e'. unfold region_step. destruct (amount t); simpl; congruence. }
    destruct Hkind as [-> | ->]; [by left | right].
    split; [reflexivity |].
    pose proof (region_wise_sales_safe txs total Htotal) as Hsafe.
    destruct txs as [| t txs]; [exfalso; apply Hsafe; [by left | assumption] |].
    split; [discriminate |]. exists total. split; [reflexivity |].
    destruct (is_zero_number total) eqn:Hzero; [reflexivity |].
    exfalso. apply Hsafe; [by right | assumption].
  - left. unfold region_wise_sales in Hraise. rewrite Htotal in Hraise.
    injection Hraise as <-. by apply calculate_total_revenue_raises in Htotal.
Qed.

(** What a report that is returned was made of. *)
Lemma generate_sales_report_inv txs enriched r :
  generate_sales_report txs enriched = Ok r ->
  exists peak_count,
    calculate_total_revenue txs = Ok (report_total_rev r) /\
    report_total_tx r = List.length txs /\
    average_order (report_total_rev r) (List.length txs) = Ok (report_avg_order r) /\
    report_date_range r =
      match map Date txs with
      | d :: ds => min_str d ds +:+ " to " +:+ max_str d ds
      | [] => "N/A"
      end /\
    region_wise_sales txs = Ok (report_reg_stats r) /\
    top_selling_products txs 5 = Ok (report_top_prods r) /\
    daily_sales_trend txs = Ok (report_trend r) /\
    find_peak_sales_day txs = Ok (Some (report_peak_day r, report_peak_rev r, peak_count)) /\
    report_low_prods r = low_performing_products txs 10 /\
    report_total_enriched r = List.length (List.filter API_Match enriched) /\
    success_rate (report_total_enriched r) enriched = Ok (report_success_rate r) /\
    report_failed_products r =
      sorted_strings
        (list_to_set (map (fun t => ProductName (base t))
                        (List.filter (fun t => negb (API_Match t)) enriched))).
Proof.
  unfold generate_sales_report.
  destruct (calculate_total_revenue txs) as [total_rev |] eqn:Htotal; cbn [rbind];
    [| discriminate].
  destruct (average_order _ _) as [avg |] eqn:Havg; cbn [rbind]; [| discriminate].
  destruct (region_wise_sales txs) as [reg |] eqn:Hreg; cbn [rbind]; [| discriminate].
  destruct (top_selling_products txs 5) as [top |] eqn:Htop; cbn [rbind];
    [| discriminate].
  destruct (daily_sales_trend txs) as [trend |] eqn:Htrend; cbn [rbind];
    [| discriminate].
  destruct (find_peak_sales_day txs) as [[[[peak_day peak_rev] count] |] |] eqn:Hpeak;
    cbn [rbind]; try discriminate.
  destruct (success_rate _ _) as [rate |] eqn:Hrate; cbn [rbind]; [| discriminate].
  intros [= <-]. exists count.
  cbn [report_total_rev report_total_tx report_avg_order report_date_range
       report_reg_stats report_top_prods report_trend report_peak_day report_peak_rev
       report_low_prods report_total_enriched report_success_rate
       report_failed_products].
  repeat split; assumption.
Qed.

Lemma generate_sales_report_raises txs enriched e :
  generate_sales_report txs enriched = Raise e ->
  e = TypeError /\ txs = [] \/
  txs <> [] /\
  (e = OverflowError \/
   e = ZeroDivisionError /\
   exists total, calculate_total_revenue txs = Ok total /\ is_zero_number total = true).
Proof.
  destruct txs as [| t txs]; [intros [= <-]; by left |].
  intros Hraise. right. split; [discriminate |]. revert Hraise.
  unfold generate_sales_report.
  destruct (calculate_total_revenue (t :: txs)) as [total_rev | e'] eqn:Htotal;
    cbn [rbind];
    [| intros [= <-]; left; by apply calculate_total_revenue_raises in Htotal].
  destruct (average_order _ _) as [avg | e'] eqn:Havg; cbn [rbind];
    [| intros [= <-]; left; by apply average_order_raises in Havg].
  destruct (region_wise_sales (t :: txs)) as [reg | e'] eqn:Hreg; cbn [rbind].
  2:{ intros [= <-]. apply region_wise_sales_raises in Hreg as [-> | (-> & _ & Hzero)];
        [by left | right]. split; [reflexivity |].
      destruct Hzero as (total & Heq & Hzero). exists total.
      split; [| assumption]. congruence. }
  destruct (top_selling_products (t :: txs) 5) as [top | e'] eqn:Htop; cbn [rbind];
    [| intros [= <-]; left; by apply top_selling_products_raises in Htop].
  destruct (daily_sales_trend (t :: txs)) as [trend | e'] eqn:Htrend; cbn [rbind];
    [| intros [= <-]; left; by apply daily_sales_trend_raises in Htrend].
  destruct (find_peak_sales_day (t :: txs)) as [[[[peak_day peak_rev] count] |] | e']
    eqn:Hpeak; cbn [rbind].
  - destruct (success_rate _ _) as [rate | e'] eqn:Hrate; cbn [rbind]; [discriminate |].
    intros [= <-]. left. by apply success_rate_raises in Hrate.
  - apply find_peak_sales_day_none in Hpeak. discriminate.
  - intros [= <-]. left. by apply find_peak_sales_day_raises in Hpeak.
Qed.

(** X12: the report generator returns on a list that is not empty only. What
    it returns holds the number of transactions, their total revenue and, as
    the best selling day, a date of the list. On the empty list it raises
    [TypeError]. On any other list it raises [OverflowError], or
    [ZeroDivisionError] when the total revenue is zero; it never raises
    [ValueError]. *)
Theorem generate_sales_report_outcome (transactions : list Transaction)
  (enriched_transactions : list EnrichedTransaction) :
  match generate_sales_report transactions enriched_transactions with
  | Ok r =>
      transactions <> [] /\
      report_total_tx r = List.length transactions /\
      calculate_total_revenue transactions = Ok (report_total_rev r) /\
      occurs Date (report_peak_day r) transactions
  | Raise e =>
      e = TypeError /\ transactions = [] \/
      transactions <> [] /\
      (e = OverflowError \/
       e = ZeroDivisionError /\
       exists total,
         calculate_total_revenue transactions = Ok total /\ is_zero_number total = true)
  end.
Proof.
  destruct (generate_sales_report transactions enriched_transactions) as [r | e] eqn:Hrun;
    [| by apply generate_sales_report_raises in Hrun].
  destruct transactions as [| t txs]; [discriminate Hrun |].
  apply generate_sales_report_inv in Hrun
    as (count & Htotal & Htx & _ & _ & _ & _ & _ & Hpeak & _).
  split; [discriminate |]. split; [assumption |]. split; [assumption |].
  by apply find_peak_sales_day_date in Hpeak.
Qed.

(** *** The date range *)

(** The loop of [min] and of [max]: the result is an element, and no
    element is before it in the order. *)
Lemma fold_extreme {A : Type} (lt : A -> A -> bool) :
  (forall a b, lt a b = true -> lt b a = false) ->
  (forall a b c, lt a b = true -> lt b c = true -> lt a c = true) ->
  forall rest seen best,
    In best seen -> Forall (fun y => lt y best = false) seen ->
    In (fold_left (fun best x => if lt x best then x else best) rest best) (seen ++ rest) /\
    Forall (fun y => lt y (fold_left (fun best x => if lt x best then x else best) rest best)
                     = false) (seen ++ rest).
Proof.
  intros Hasym Htrans.
  assert (Hirrefl : forall a, lt a a = false).
  { intros a. destruct (lt a a) eqn:Ha; [| reflexivity]. by rewrite (Hasym a a Ha) in Ha. }
  induction rest as [| x rest IH]; intros seen best Hin Hnone.
  - rewrite app_nil_r. auto.
  - cbn [fold_left].
    replace (seen ++ x :: rest) with ((seen ++ [x]) ++ rest) by (by rewrite <- app_assoc).
    destruct (lt x best) eqn:Hx.
    + apply IH; [apply in_or_app; right; by left |].
      apply Forall_app. split; [| by repeat constructor].
      rewrite List.Forall_forall in *. intros y Hy.
      destruct (lt y x) eqn:Hyx; [| reflexivity].
      pose proof (Hnone y Hy) as Hbest. by rewrite (Htrans y x best Hyx Hx) in Hbest.
    + apply IH; [apply in_or_app; by left |].
      apply Forall_app. split; [assumption | by repeat constructor].
Qed.

Lemma min_max_str first rest :
  In (min_str first rest) (first :: rest) /\
  In (max_str first rest) (first :: rest) /\
  Forall (fun d => Str.ltb d (min_str first rest) = false /\
                   Str.ltb (max_str first rest) d = false) (first :: rest).
Proof.
  assert (Hirrefl : Str.ltb first first = false).
  { destruct (Str.ltb first first) eqn:H; [| reflexivity]. by rewrite (ltb_asym _ _ H) in H. }
  destruct (fold_extreme Str.ltb ltb_asym ltb_trans rest [first] first)
    as [Hmin_in Hmin]; [by left | by repeat constructor |].
  destruct (fold_extreme (fun a b => Str.ltb b a)
              (fun a b H => ltb_asym b a H)
              (fun a b c Hab Hbc => ltb_trans c b a Hbc Hab) rest [first] first)
    as [Hmax_in Hmax]; [by left | by repeat constructor |].
  split; [exact Hmin_in |]. split; [exact Hmax_in |].
  rewrite List.Forall_forall in *. intros d Hd.
  split; [apply (Hmin d Hd) | apply (Hmax d Hd)].
Qed.

(** X13: the date range of a report names two dates of the list: no date of
    the list is before the first or after the second in the order of strings
    (code point by code point). *)
Theorem report_date_range_spec (transactions : list Transaction)
  (enriched_transactions : list EnrichedTransaction) (r : Report) :
  generate_sales_report transactions enriched_transactions = Ok r ->
  exists lo hi,
    report_date_range r = lo +:+ " to " +:+ hi /\
    occurs Date lo transactions /\
    occurs Date hi transactions /\
    Forall (fun t => Str.ltb (Date t) lo = false /\ Str.ltb hi (Date t) = false)
      transactions.
Proof.
  intros Hrun.
  destruct transactions as [| t txs]; [discriminate Hrun |].
  apply generate_sales_report_inv in Hrun as (_ & _ & _ & _ & Hrange & _).
  cbn [map] in Hrange.
  destruct (min_max_str (Date t) (map Date txs)) as (Hlo & Hhi & Hall).
  assert (Hoccurs : forall d, In d (map Date (t :: txs)) -> occurs Date d (t :: txs)).
  { intros d Hd. apply in_map_iff in Hd as (t' & Heq & Ht'). exists t'. auto. }
  exists (min_str (Date t) (map Date txs)), (max_str (Date t) (map Date txs)).
  split; [assumption |].
  split; [by apply Hoccurs |]. split; [by apply Hoccurs |].
  rewrite List.Forall_forall in *. intros t' Ht'.
  apply Hall. change (In (Date t') (map Date (t :: txs))). by apply in_map.
Qed.

Lemma report_date_range_spec_witness :
  exists r,
    generate_sales_report [north_east; north] [matched_north] = Ok r /\
    exists lo hi,
      report_date_range r = lo +:+ " to " +:+ hi /\
      occurs Date lo [north_east; north] /\
      occurs Date hi [north_east; north] /\
      Forall (fun t => Str.ltb (Date t) lo = false /\ Str.ltb hi (Date t) = false)
        [north_east; north].
Proof.
  eexists. split; [vm_compute; reflexivity |].
  apply (report_date_range_spec [north_east; north] [matched_north]).
  vm_compute. reflexivity.
Defined.

(** *** The enrichment summary *)

(** X14: in a report, the records counted as enriched and the unmatched ones
    add up to the enriched list; the unmatched products are the product names
    of the unmatched records, each once and in ascending order, and there is
    none exactly when every record is counted as enriched. When the enriched
    list comes from [enrich_sales_data], the unmatched products are the names
    of the transactions whose derived key is not in the mapping. *)
Theorem report_enrichment_summary (transactions : list Transaction)
  (enriched_transactions : list EnrichedTransaction) (r : Report) :
  generate_sales_report transactions enriched_transactions = Ok r ->
  report_total_enriched r +
    List.length (List.filter (fun e => negb (API_Match e)) enriched_transactions) =
    List.length enriched_transactions /\
  (forall p, In p (report_failed_products r) <->
             exists e, In e enriched_transactions /\ API_Match e = false /\
                       ProductName (base e) = p) /\
  StronglySorted (fun a b => Str.ltb a b = true) (report_failed_products r) /\
  (report_failed_products r = [] <->
   report_total_enriched r = List.length enriched_transactions) /\
  (forall mapping txs,
     enriched_transactions = enrich_sales_data txs mapping ->
     forall p, In p (report_failed_products r) <->
               exists t, In t txs /\ mapping !! prod_id_num t = None /\ ProductName t = p).
Proof.
  intros Hrun.
  apply generate_sales_report_inv in Hrun
    as (_ & _ & _ & _ & _ & _ & _ & _ & _ & _ & Hcount & _ & Hfailed).
  set (unmatched_names := map (fun t => ProductName (base t))
                            (List.filter (fun t => negb (API_Match t))
                               enriched_transactions)) in *.
  destruct (sorted_strings_spec (list_to_set unmatched_names)) as [Hmem Hsorted].
  rewrite <- Hfailed in Hmem, Hsorted.
  assert (Hnames : forall p, In p (report_failed_products r) <->
                             exists e, In e enriched_transactions /\ API_Match e = false /\
                                       ProductName (base e) = p).
  { intros p. rewrite Hmem, elem_of_list_to_set, list_elem_of_In.
    unfold unmatched_names. rewrite in_map_iff. split.
    - intros (e & Hp & He). apply filter_In in He as [He Hmatch].
      exists e. split; [assumption |]. split; [by destruct (API_Match e) | assumption].
    - intros (e & He & Hmatch & Hp). exists e. split; [assumption |].
      apply filter_In. split; [assumption | by rewrite Hmatch]. }
  pose proof (filter_split_length API_Match enriched_transactions) as Hsplit.
  split; [rewrite Hcount; lia |]. split; [exact Hnames |]. split; [assumption |].
  split.
  - split.
    + intros Hempty. rewrite Hcount.
      destruct (List.filter (fun e => negb (API_Match e)) enriched_transactions)
        as [| e rest] eqn:Hrest; [simpl in Hsplit; lia |].
      exfalso.
      assert (He : In e (List.filter (fun e => negb (API_Match e)) enriched_transactions))
        by (rewrite Hrest; by left).
      apply filter_In in He as [He Hmatch].
      assert (Hp : In (ProductName (base e)) (report_failed_products r)).
      { apply Hnames. exists e. split; [assumption |].
        split; [by destruct (API_Match e) | reflexivity]. }
      rewrite Hempty in Hp. contradiction.
    + intros Hall.
      destruct (report_failed_products r) as [| p rest] eqn:Hlist; [reflexivity |].
      exfalso.
      destruct (proj1 (Hnames p) ltac:(by left)) as (e & He & Hmatch & _).
      assert (Hin : In e (List.filter (fun e => negb (API_Match e)) enriched_transactions))
        by (apply filter_In; split; [assumption | by rewrite Hmatch]).
      destruct (List.filter (fun e => negb (API_Match e)) enriched_transactions);
        [contradiction | simpl in Hsplit; lia].
  - intros mapping txs -> p. rewrite Hnames, enrich_sales_data_map. split.
    + intros (e & He & Hmatch & Hp).
      apply in_map_iff in He as (t & <- & Ht).
      exists t. split; [assumption |].
      unfold enriched_tx in *.
      destruct (mapping !! prod_id_num t); simpl in *; [discriminate | auto].
    + intros (t & Ht & Hkey & Hp).
      exists (enriched_tx mapping t). split; [by apply in_map |].
      unfold enriched_tx. rewrite Hkey. simpl. auto.
Qed.

Lemma report_enrichment_summary_witness :
  exists r,
    generate_sales_report [north; pabc] [matched_north; unmatched pabc] = Ok r /\
    (report_total_enriched r +
       List.length (List.filter (fun e => negb (API_Match e))
                      [matched_north; unmatched pabc]) =
       List.length [matched_north; unmatched pabc] /\
     (forall p, In p (report_failed_products r) <->
                exists e, In e [matched_north; unmatched pabc] /\ API_Match e = false /\
                          ProductName (base e) = p) /\
     StronglySorted (fun a b => Str.ltb a b = true) (report_failed_products r) /\
     (report_failed_products r = [] <->
      report_total_enriched r = List.length [matched_north; unmatched pabc]) /\
     (forall mapping txs,
        [matched_north; unmatched pabc] = enrich_sales_data txs mapping ->
        forall p, In p (report_failed_products r) <->
                  exists t, In t txs /\ mapping !! prod_id_num t = None /\
                            ProductName t = p)).
Proof.
  eexists. split; [vm_compute; reflexivity |].
  apply (report_enrichment_summary [north; pabc] [matched_north; unmatched pabc]).
  vm_compute. reflexivity.
Defined.

(** ** [main] *)

Lemma parse_transactions_returns raw_lines :
  exists parsed_data,
    parse_transactions raw_lines = Ok parsed_data /\
    Forall clean parsed_data /\
    List.length parsed_data <= List.length raw_lines.
Proof.
  unfold parse_transactions.
  destruct (parse_loop_clean raw_lines []) as (txs & Hrun & Hclean & Hlen); [constructor |].
  exists txs. auto.
Qed.

Lemma amounts_of_cases parsed_data :
  match amounts_of parsed_data with
  | Ok amounts => List.length amounts = List.length parsed_data
  | Raise e => e = OverflowError
  end.
Proof.
  unfold amounts_of.
  destruct (for_each _ parsed_data []) as [amounts | e] eqn:Hrun.
  - apply (for_each_amount (fun acc (t : Transaction) a => acc ++ [a])) in Hrun as [_ ->].
    rewrite (fold_left_append amount_of parsed_data []). simpl. apply length_map.
  - apply for_each_raise in Hrun as (acc & t & _ & Hstep).
    destruct (amount t) as [a | e'] eqn:Ha; simpl in Hstep; [discriminate |].
    injection Hstep as ->. by apply amount_raises in Ha.
Qed.

Lemma validate_and_filter_cases parsed_data region min_amount max_amount :
  match validate_and_filter parsed_data region min_amount max_amount with
  | Ok (clean_tx, _, _) =>
      List.length clean_tx <= List.length parsed_data /\ incl clean_tx parsed_data
  | Raise e => e = OverflowError
  end.
Proof.
  rewrite validate_and_filter_unfold. cbn zeta.
  pose proof (apply_filters_cases region min_amount max_amount
                (List.filter is_valid parsed_data)) as Hcases.
  destruct (apply_filters _ _ _ _) as [l | e]; cbn [rbind]; [| by destruct Hcases].
  destruct Hcases as [-> _]. rewrite filter_filter.
  split; [apply filter_length_le | apply incl_filter].
Qed.

(** The steps of [main] on a file that is not empty. *)
Lemma main_steps raw_lines answers mapping :
  raw_lines <> [] ->
  main raw_lines answers mapping =
  do* parsed_data <- parse_transactions raw_lines;
  do* amounts <- amounts_of parsed_data;
  do* range <- min_max amounts;
  do* filters <- asked_filters answers;
  do* validated <- validate_and_filter parsed_data (fst filters) (snd filters) None;
  do* rep <- generate_sales_report (fst (fst validated))
               (enrich_sales_data (fst (fst validated)) mapping);
  Ok (Some {| enriched_file :=
                save_enriched_data (enrich_sales_data (fst (fst validated)) mapping);
              report := rep |}).
Proof.
  intros Hne. destruct raw_lines as [| line lines]; [contradiction |].
  unfold main, asked_filters.
  destruct (parse_transactions (line :: lines)) as [parsed_data |]; cbn [rbind];
    [| reflexivity].
  destruct (amounts_of parsed_data) as [amounts |]; cbn [rbind]; [| reflexivity].
  destruct (min_max amounts) as [range |]; cbn [rbind]; [| reflexivity].
  destruct (if String.eqb _ _ then _ else _) as [filters |]; cbn [rbind]; [| reflexivity].
  destruct (validate_and_filter _ _ _ _) as [[[clean_tx invalid_count] summary] |];
    reflexivity.
Qed.

Lemma main_inv raw_lines answers mapping o :
  main raw_lines answers mapping = Ok (Some o) ->
  raw_lines <> [] /\
  exists parsed_data filters clean_tx invalid_count summary,
    parse_transactions raw_lines = Ok parsed_data /\
    asked_filters answers = Ok filters /\
    validate_and_filter parsed_data (fst filters) (snd filters) None =
      Ok (clean_tx, invalid_count, summary) /\
    enriched_file o = save_enriched_data (enrich_sales_data clean_tx mapping) /\
    generate_sales_report clean_tx (enrich_sales_data clean_tx mapping) = Ok (report o).
Proof.
  destruct raw_lines as [| line lines]; [discriminate |].
  rewrite main_steps by discriminate.
  destruct (parse_transactions (line :: lines)) as [parsed_data |] eqn:Hparse;
    cbn [rbind]; [| discriminate].
  destruct (amounts_of parsed_data) as [amounts |]; cbn [rbind]; [| discriminate].
  destruct (min_max amounts) as [range |]; cbn [rbind]; [| discriminate].
  destruct (asked_filters answers) as [filters |] eqn:Hfilters; cbn [rbind];
    [| discriminate].
  destruct (validate_and_filter _ _ _ _) as [[[clean_tx invalid_count] summary] |]
    eqn:Hvalid; cbn [rbind fst]; [| discriminate].
  destruct (generate_sales_report _ _) as [rep |] eqn:Hrep; cbn [rbind]; [| discriminate].
  intros [= <-]. split; [discriminate |].
  exists parsed_data, filters, clean_tx, invalid_count, summary.
  cbn [enriched_file report]. auto.
Qed.

(** X16: a run ends without a report and without an error on an empty file
    only. A run that ends with a report has processed at least one record and
    at most as many as the file has lines; the enriched file it wrote has the
    header line and one line per record, and no more records are counted as
    enriched than were processed. *)
Theorem main_outcome (raw_lines : list string) (answers : Answers)
  (mapping : gmap Z CatalogEntry) :
  match main raw_lines answers mapping with
  | Ok None => raw_lines = []
  | Ok (Some o) =>
      1 <= report_total_tx (report o) <= List.length raw_lines /\
      List.length (enriched_file o) = S (report_total_tx (report o)) /\
      report_total_enriched (report o) <= report_total_tx (report o)
  | Raise _ => raw_lines <> []
  end.
Proof.
  destruct (main raw_lines answers mapping) as [[o |] | e] eqn:Hrun.
  - apply main_inv in Hrun
      as (_ & parsed_data & filters & clean_tx & inv & s & Hparse & _ & Hvalid & Hfile & Hrep).
    destruct (parse_transactions_returns raw_lines) as (parsed' & Hparse' & _ & Hlen).
    rewrite Hparse in Hparse'. injection Hparse' as <-.
    pose proof (validate_and_filter_cases parsed_data (fst filters) (snd filters) None)
      as Hcases.
    rewrite Hvalid in Hcases. destruct Hcases as [Hclean _].
    assert (Hne : clean_tx <> []) by (intros ->; discriminate Hrep).
    apply generate_sales_report_inv in Hrep
      as (_ & _ & Htx & _ & _ & _ & _ & _ & _ & _ & Hcount & _).
    rewrite Htx, Hcount, Hfile, save_enriched_data_lines.
    cbn [List.length]. rewrite length_map.
    pose proof (filter_length_le API_Match (enrich_sales_data clean_tx mapping)) as Hle.
    rewrite enrich_sales_data_map, length_map in *.
    destruct clean_tx; [contradiction |]. simpl in *. lia.
  - destruct raw_lines as [| line lines]; [reflexivity | exfalso].
    rewrite main_steps in Hrun by discriminate.
    destruct (parse_transactions _); cbn [rbind] in Hrun; [| discriminate].
    destruct (amounts_of _); cbn [rbind] in Hrun; [| discriminate].
    destruct (min_max _); cbn [rbind] in Hrun; [| discriminate].
    destruct (asked_filters _); cbn [rbind] in Hrun; [| discriminate].
    destruct (validate_and_filter _ _ _ _); cbn [rbind] in Hrun; [| discriminate].
    destruct (generate_sales_report _ _); cbn [rbind] in Hrun; discriminate.
  - intros ->. discriminate.
Qed.

(** X17: a run ends with [ValueError] in two cases only: no line of the file
    gave a record, so that the amount range is asked of an empty list; or the
    user asks for a filter and types a minimum amount that [float] does not
    read. *)
Theorem main_value_error (raw_lines : list string) (answers : Answers)
  (mapping : gmap Z CatalogEntry) :
  main raw_lines answers mapping = Raise ValueError <->
  raw_lines <> [] /\
  exists parsed_data,
    parse_transactions raw_lines = Ok parsed_data /\
    (parsed_data = [] \/
     returns (amounts_of parsed_data) /\
     Num.lowercase (do_filter answers) = "y" /\
     Str.strip (min_answer answers) <> "" /\
     Num.float_of_str (Str.strip (min_answer answers)) = None).
Proof.
  destruct (parse_transactions_returns raw_lines) as (parsed_data & Hparse & _ & _).
  assert (Hfilters : asked_filters answers = Raise ValueError <->
                     Num.lowercase (do_filter answers) = "y" /\
                     Str.strip (min_answer answers) <> "" /\
                     Num.float_of_str (Str.strip (min_answer answers)) = None).
  { unfold asked_filters, float_or_raise.
    destruct (String.eqb_spec (Num.lowercase (do_filter answers)) "y") as [Hy | Hy].
    - destruct (Str.strip (min_answer answers)) as [| c s] eqn:Hmin.
      + split; [discriminate | intros (_ & H & _); by contradiction H].
      + destruct (Num.float_of_str (String c s)); simpl.
        * split; [discriminate | intros (_ & _ & H); discriminate].
        * split; [intros _; repeat split; [assumption | discriminate] | reflexivity].
    - split; [discriminate | intros (H & _); contradiction]. }
  assert (Hfilters' : forall e, asked_filters answers = Raise e -> e = ValueError).
  { intros e. unfold asked_filters, float_or_raise.
    destruct (String.eqb _ _); [| discriminate].
    destruct (Str.strip (min_answer answers)); [discriminate |].
    destruct (Num.float_of_str _); simpl; congruence. }
  split.
  - intros Hrun. destruct raw_lines as [| line lines]; [discriminate |].
    split; [discriminate |]. exists parsed_data. split; [assumption |].
    rewrite main_steps in Hrun by discriminate. rewrite Hparse in Hrun. cbn [rbind] in Hrun.
    pose proof (amounts_of_cases parsed_data) as Hamounts.
    destruct (amounts_of parsed_data) as [amounts | e] eqn:Ha; cbn [rbind] in Hrun;
      [| congruence].
    destruct amounts as [| a amounts];
      [left; by destruct parsed_data | right].
    cbn [min_max rbind] in Hrun.
    split; [by eexists |]. apply Hfilters.
    destruct (asked_filters answers) as [filters | e] eqn:Hf; cbn [rbind] in Hrun;
      [exfalso | by rewrite (Hfilters' e)].
    pose proof (validate_and_filter_cases parsed_data (fst filters) (snd filters) None)
      as Hcases.
    destruct (validate_and_filter _ _ _ _) as [[[clean_tx inv] s] | e]; cbn [rbind fst] in Hrun;
      [| congruence].
    destruct (generate_sales_report _ _) as [rep | e] eqn:Hrep; cbn [rbind] in Hrun;
      [discriminate |].
    injection Hrun as ->.
    apply generate_sales_report_raises in Hrep
      as [[? _] | (_ & [? | [? _]])]; discriminate.
  - intros (Hne & parsed' & Hparse' & Hcase).
    rewrite Hparse in Hparse'. injection Hparse' as <-.
    rewrite main_steps by assumption. rewrite Hparse. cbn [rbind].
    destruct Hcase as [-> | ([amounts Ha] & Hasked)]; [reflexivity |].
    rewrite Ha. cbn [rbind].
    destruct amounts as [| a amounts]; [reflexivity |]. cbn [min_max rbind].
    apply Hfilters in Hasked. by rewrite Hasked.
Qed.

(** *** The lines of the enriched file *)




(** ** The report is produced *)

(** *** Conversions that stay finite *)

Section Finite.
Local Open Scope Z_scope.

Lemma round_nearest_even_le m l : round_nearest_even m l <= m + 1.
Proof. destruct l as [| []]; simpl; try lia. destruct (Z.even m); lia. Qed.

Lemma Zdigits2_below x k : 0 <= k -> 0 <= x -> x < 2 ^ k -> Zdigits2 x <= k.
Proof.
  intros Hk Hx Hlt. destruct (Z.eq_dec x 0) as [-> | Hne]; [simpl; lia |].
  pose proof (Zdigits2_bounds x ltac:(lia)) as [Hlo _].
  pose proof (Zdigits2_pos x ltac:(lia)).
  destruct (Z.le_gt_cases (Zdigits2 x) k) as [? | Hgt]; [assumption | exfalso].
  assert (2 ^ k <= 2 ^ (Zdigits2 x - 1)) by (apply Z.pow_le_mono_r; lia).
  lia.
Qed.

(** What the shift [fexp] asks for does to the exponent and the mantissa. *)
Lemma shr_fexp_upper m e l :
  0 <= m ->
  snd (shr_fexp Num.prec Num.emax m e l) =
    Z.max e (fexp Num.prec Num.emax (Zdigits2 m + e)) /\
  0 <= shr_m (fst (shr_fexp Num.prec Num.emax m e l)) /\
  shr_m (fst (shr_fexp Num.prec Num.emax m e l)) *
    2 ^ (snd (shr_fexp Num.prec Num.emax m e l) - e) <= m.
Proof.
  intros Hm. unfold shr_fexp, shr.
  destruct (fexp Num.prec Num.emax (Zdigits2 m + e) - e) as [| n | n] eqn:Hn;
    cbn [fst snd]; rewrite ?shr_record_of_loc_m.
  - replace (e - e) with 0 by lia. simpl. lia.
  - rewrite iter_shr_m by (rewrite shr_record_of_loc_m; lia).
    rewrite shr_record_of_loc_m.
    replace (e + Z.pos n - e) with (Z.pos n) by lia.
    assert (Hpow : 0 < 2 ^ Z.pos n) by (apply Z.pow_pos_nonneg; lia).
    split; [lia |]. split; [apply Z.div_pos; lia |].
    rewrite Z.mul_comm. apply Z.mul_div_le. lia.
  - replace (e - e) with 0 by lia. simpl. lia.
Qed.

(** Rounding a mantissa whose exponent and magnitude are in range gives no
    infinity. *)
Lemma binary_round_aux_finite sx m e l :
  0 < m -> e <= Num.emax - Num.prec -> Zdigits2 m + e < Num.emax ->
  Num.is_finite (binary_round_aux Num.prec Num.emax sx m e l) = true.
Proof.
  intros Hm He Hmag. unfold binary_round_aux.
  pose proof (shr_fexp_upper m e l ltac:(lia)) as (He1 & Hpos1 & Hval1).
  destruct (shr_fexp Num.prec Num.emax m e l) as [mrs1 e1]. cbn [fst snd] in *.
  set (m2 := round_nearest_even (shr_m mrs1) (loc_of_shr_record mrs1)).
  assert (Hm2 : shr_m mrs1 <= m2 <= shr_m mrs1 + 1)
    by (split; [apply round_nearest_even_ge | apply round_nearest_even_le]).
  pose proof (shr_fexp_upper m2 e1 loc_Exact ltac:(lia)) as (He2 & Hpos2 & _).
  destruct (shr_fexp Num.prec Num.emax m2 e1 loc_Exact) as [mrs2 e2]. cbn [fst snd] in *.
  destruct (shr_m mrs2) as [| m3 | m3]; [reflexivity | | lia].
  assert (Hfit : e2 <= Num.emax - Num.prec); [| apply Z.leb_le in Hfit; by rewrite Hfit].
  pose proof (Zdigits2_bounds m Hm) as [_ Hhi].
  pose proof (Zdigits2_pos m Hm) as Hd.
  assert (He1' : e1 <= Num.emax - Num.prec)
    by (unfold fexp, emin, Num.emax, Num.prec in *; lia).
  assert (He1e : e <= e1) by lia.
  assert (Hd2 : Zdigits2 m2 + e1 <= Num.emax).
  { destruct (Z.le_gt_cases (e1 - e) (Zdigits2 m)) as [Hk | Hk].
    - assert (Hsplit : 2 ^ Zdigits2 m = 2 ^ (Zdigits2 m - (e1 - e)) * 2 ^ (e1 - e)).
      { rewrite <- Z.pow_add_r by lia. f_equal. lia. }
      assert (Hpow : 0 < 2 ^ (e1 - e)) by (apply Z.pow_pos_nonneg; lia).
      assert (Hm1 : shr_m mrs1 < 2 ^ (Zdigits2 m - (e1 - e))) by nia.
      assert (Hm2' : m2 < 2 ^ (Zdigits2 m - (e1 - e) + 1)).
      { rewrite Z.pow_add_r by lia. change (2 ^ 1) with 2. lia. }
      pose proof (Zdigits2_below m2 (Zdigits2 m - (e1 - e) + 1) ltac:(lia) ltac:(lia) Hm2').
      lia.
    - assert (Hm1 : shr_m mrs1 = 0).
      { destruct (Z.eq_dec (shr_m mrs1) 0) as [? | Hne]; [assumption | exfalso].
        assert (2 ^ Zdigits2 m <= 2 ^ (e1 - e)) by (apply Z.pow_le_mono_r; lia).
        nia. }
      assert (Hm2' : m2 < 2 ^ 1) by (change (2 ^ 1) with 2; lia).
      pose proof (Zdigits2_below m2 1 ltac:(lia) ltac:(lia) Hm2').
      unfold Num.emax, Num.prec in *. lia. }
  unfold fexp, emin, Num.emax, Num.prec in *. lia.
Qed.

(** The float of a quotient of positive ints whose sizes are not too far
    apart is finite. *)
Lemma of_ratio_finite neg a b :
  0 < a -> -1000 <= Zdigits2 a - Zdigits2 (Z.pos b) <= 1022 ->
  Num.is_finite (Num.of_ratio neg a b) = true.
Proof.
  intros Ha Hd. destruct a as [| p | p]; try lia.
  pose proof (Zdigits2_bounds (Z.pos p) ltac:(lia)) as [Hplo Hphi].
  pose proof (Zdigits2_bounds (Z.pos b) ltac:(lia)) as [Hblo Hbhi].
  pose proof (Zdigits2_pos (Z.pos p) ltac:(lia)) as Hdp.
  pose proof (Zdigits2_pos (Z.pos b) ltac:(lia)) as Hdb.
  unfold Num.of_ratio, SFdiv_core_binary.
  set (d1 := Zdigits2 (Z.pos p)) in *. set (d2 := Zdigits2 (Z.pos b)) in *.
  set (e' := Z.min (fexp Num.prec Num.emax (d1 + 0 - (d2 + 0))) (0 - 0)).
  assert (He' : e' <= 0 /\ d2 - d1 + 1 <= - e')
    by (unfold e', fexp, emin, Num.prec, Num.emax; lia).
  set (m' := match 0 - 0 - e' with
             | 0 => Z.pos p
             | Z.pos _ => Z.shiftl (Z.pos p) (0 - 0 - e')
             | Z.neg _ => 0
             end).
  assert (Hm' : m' = Z.pos p * 2 ^ (- e')).
  { unfold m'. destruct (0 - 0 - e') as [| s | s] eqn:Hs; try lia.
    - replace (- e') with 0 by lia. simpl. lia.
    - rewrite Z.shiftl_mul_pow2 by lia. f_equal. f_equal. lia. }
  clearbody m' e'.
  pose proof (Z_div_mod m' (Z.pos b) ltac:(lia)) as Hdiv.
  destruct (Z.div_eucl m' (Z.pos b)) as [q r]. destruct Hdiv as [Hq Hr].
  assert (Hpow : 0 < 2 ^ (- e')) by (apply Z.pow_pos_nonneg; lia).
  assert (Hlow : 2 ^ d2 <= m').
  { rewrite Hm'.
    assert (2 ^ d2 <= 2 ^ (d1 - 1 + - e')) by (apply Z.pow_le_mono_r; lia).
    rewrite Z.pow_add_r in * by lia. nia. }
  assert (Hqpos : 0 < q) by nia.
  assert (Hhigh : q * 2 ^ (d2 - 1) < 2 ^ (d1 - e')).
  { assert (Hsplit : 2 ^ (d1 - e') = 2 ^ d1 * 2 ^ (- e'))
      by (rewrite <- Z.pow_add_r by lia; f_equal; lia).
    assert (0 <= 2 ^ (d2 - 1)) by (apply Z.pow_nonneg; lia).
    nia. }
  assert (Hqlt : q < 2 ^ (d1 - e' - d2 + 1)).
  { assert (Hsplit : 2 ^ (d1 - e') = 2 ^ (d1 - e' - d2 + 1) * 2 ^ (d2 - 1)).
    { rewrite <- Z.pow_add_r by lia. f_equal. lia. }
    assert (0 < 2 ^ (d2 - 1)) by (apply Z.pow_pos_nonneg; lia).
    nia. }
  pose proof (Zdigits2_below q (d1 - e' - d2 + 1) ltac:(lia) ltac:(lia) Hqlt).
  apply binary_round_aux_finite; unfold Num.emax, Num.prec in *; lia.
Qed.

(** An int of fewer than 1024 bits converts to a float. *)
Lemma of_int_returns n :
  - 2 ^ 1023 < n < 2 ^ 1023 -> returns (Num.of_int n).
Proof.
  intros Hn. unfold Num.of_int.
  destruct (Z.eq_dec n 0) as [-> | Hne]; [by eexists |].
  assert (Hfinite : Num.is_finite (Num.of_ratio (n <? 0) (Z.abs n) 1) = true).
  { apply of_ratio_finite; [lia |].
    pose proof (Zdigits2_below (Z.abs n) 1023 ltac:(lia) ltac:(lia) ltac:(lia)).
    pose proof (Zdigits2_pos (Z.abs n) ltac:(lia)).
    change (Zdigits2 1) with 1. lia. }
  destruct (Num.of_ratio _ _ _); try discriminate; by eexists.
Qed.

(** A proportion of ints of fewer than 1000 bits is a float. *)
Lemma int_truediv_returns a b :
  0 <= a <= b -> 0 < b < 2 ^ 1000 -> returns (Num.int_truediv a b).
Proof.
  intros Ha Hb. unfold Num.int_truediv.
  destruct b as [| pb | pb]; try lia.
  destruct (Z.eq_dec a 0) as [-> | Hne]; [by eexists |].
  assert (Hfinite : Num.is_finite
                      (Num.of_ratio (xorb (a <? 0) (Z.pos pb <? 0)) (Z.abs a)
                         (Z.to_pos (Z.abs (Z.pos pb)))) = true).
  { apply of_ratio_finite; [lia |].
    change (Z.pos (Z.to_pos (Z.abs (Z.pos pb)))) with (Z.pos pb).
    rewrite Z.abs_eq by lia.
    pose proof (Zdigits2_mono a (Z.pos pb) ltac:(lia) ltac:(lia)).
    pose proof (Zdigits2_below (Z.pos pb) 1000 ltac:(lia) ltac:(lia) ltac:(lia)).
    pose proof (Zdigits2_pos a ltac:(lia)).
    lia. }
  destruct (Num.of_ratio _ _ _); try discriminate; by eexists.
Qed.

End Finite.

(** *** Every step returns *)

Lemma for_each_returns {A S : Type} (body : S -> A -> result S) (l : list A) :
  (forall st x, In x l -> returns (body st x)) -> forall st, returns (for_each body l st).
Proof.
  induction l as [| x l IH]; intros Hbody st; simpl; [by eexists |].
  destruct (Hbody st x ltac:(by left)) as [st' ->]. simpl.
  apply IH. intros st0 y Hy. apply Hbody. by right.
Qed.

Lemma validated_amount_returns t :
  validated t -> (Quantity t < 2 ^ 1023)%Z -> returns (amount t).
Proof.
  intros [Hvalid _] Hq. unfold amount.
  assert (Hpos : (0 < Quantity t)%Z).
  { unfold is_valid in Hvalid. destruct (Z.leb_spec (Quantity t) 0); [| lia].
    repeat match type of Hvalid with
           | context [if ?c then _ else _] => destruct c
           end; discriminate. }
  destruct (of_int_returns (Quantity t) ltac:(lia)) as [q ->]. by eexists.
Qed.

Lemma times_hundred_returns x : exists y, Num.mul (Num.Float x) hundred = Ok (Num.Float y).
Proof. eexists. reflexivity. Qed.

Lemma region_percentage_returns sales x :
  Num.is_zero x = false -> returns (region_percentage sales (Num.Float x)).
Proof.
  intros Hx. unfold region_percentage. cbn [Num.div Num.to_float rbind].
  unfold Num.truediv. rewrite Hx. cbn [rbind].
  destruct (times_hundred_returns (Num.fdiv sales x)) as [y ->]. by eexists.
Qed.

(** The report generator returns when every step has what it needs: a
    list that is not empty, validated records, amounts that can be computed
    and lengths in the float range. *)
Lemma report_returns (transactions : list Transaction)
  (enriched_transactions : list EnrichedTransaction) :
  transactions <> [] ->
  Forall validated transactions ->
  Forall (fun t => returns (amount t)) transactions ->
  (Z.of_nat (List.length transactions) < 2 ^ 1000)%Z ->
  (Z.of_nat (List.length enriched_transactions) < 2 ^ 1000)%Z ->
  returns (generate_sales_report transactions enriched_transactions).
Proof.
  intros Hne Hvalid Hamounts Hlen Hlen'.
  assert (Hpow : (0 < 2 ^ 1000 < 2 ^ 1023)%Z)
    by (split; [apply Z.pow_pos_nonneg | apply Z.pow_lt_mono_r]; lia).
  pose proof (total_revenue_sum transactions Hamounts) as Htotal.
  pose proof (validated_revenue_not_zero transactions _ Hne Hvalid Htotal) as Hnonzero.
  destruct transactions as [| t0 txs]; [contradiction |].
  set (transactions := t0 :: txs) in *.
  assert (Hfloat : exists x, sum_from_zero (map amount_of transactions) = Num.Float x)
    by (by eexists).
  destruct Hfloat as [total Hfloat]. rewrite Hfloat in *. cbn [is_zero_number] in Hnonzero.
  unfold generate_sales_report. rewrite Htotal. cbn [rbind].
  (* the average order *)
  assert (Havg : returns (average_order (Num.Float total) (List.length transactions))).
  { unfold average_order. change (0 <? List.length transactions)%nat with true. cbv iota.
    cbn [Num.div Num.to_float rbind].
    destruct (of_int_returns (Z.of_nat (List.length transactions)) ltac:(lia)) as [y Hy].
    rewrite Hy. cbn [rbind]. unfold Num.truediv.
    assert (Hcount : Z.of_nat (List.length transactions) <> 0%Z)
      by (subst transactions; cbn [List.length]; lia).
    rewrite (of_int_nonzero _ y Hcount Hy).
    by eexists. }
  destruct Havg as [avg ->]. cbn [rbind].
  (* the region table *)
  assert (Hregions : returns (region_wise_sales transactions)).
  { unfold region_wise_sales. rewrite Htotal. cbn [rbind].
    assert (Hloop : returns (for_each region_step transactions []))
      by (eexists;
          exact (for_each_amount_returns
                   (fun st t a =>
                      upsert (Region t)
                        {| rt_total_sales := Num.fzero; rt_transaction_count := 0 |}
                        (fun s => {| rt_total_sales := Num.fadd (rt_total_sales s) a;
                                     rt_transaction_count := S (rt_transaction_count s) |})
                        st)
                   transactions Hamounts [])).
    destruct Hloop as [table ->]. cbn [rbind].
    destruct (for_each_returns (percentage_step (Num.Float total)) table)
      with (st := @nil (string * RegionStats)) as [done ->]; [| by eexists].
    intros st [region s] _. unfold percentage_step.
    destruct (region_percentage_returns (rt_total_sales s) total Hnonzero) as [pct ->].
    by eexists. }
  destruct Hregions as [reg ->]. cbn [rbind].
  (* the products, the trend and the peak *)
  assert (Htop : returns (top_selling_products transactions 5)).
  { unfold top_selling_products.
    assert (Hloop : returns (for_each product_step transactions []))
      by (eexists;
          exact (for_each_amount_returns
                   (fun st t a =>
                      upsert (ProductName t) (0%Z, Num.fzero)
                        (fun d => ((fst d + Quantity t)%Z, Num.fadd (snd d) a)) st)
                   transactions Hamounts [])).
    destruct Hloop as [table ->]. by eexists. }
  destruct Htop as [top ->]. cbn [rbind].
  assert (Htrend : returns (daily_sales_trend transactions)).
  { unfold daily_sales_trend.
    assert (Hloop : returns (for_each day_step transactions []))
      by (eexists;
          exact (for_each_amount_returns
                   (fun st t a =>
                      upsert (Date t)
                        {| dt_revenue := Num.fzero; dt_transaction_count := 0;
                           dt_unique_customers := ∅ |}
                        (fun s => {| dt_revenue := Num.fadd (dt_revenue s) a;
                                     dt_transaction_count := S (dt_transaction_count s);
                                     dt_unique_customers :=
                                       dt_unique_customers s ∪ {[ CustomerID t ]} |})
                        st)
                   transactions Hamounts [])).
    destruct Hloop as [table ->]. by eexists. }
  destruct Htrend as [trend Htrend]. rewrite Htrend. cbn [rbind].
  assert (Hpeak : exists peak, find_peak_sales_day transactions = Ok (Some peak)).
  { destruct (find_peak_sales_day transactions) as [[peak |] | e] eqn:Hpeak.
    - by eexists.
    - apply find_peak_sales_day_none in Hpeak. discriminate.
    - exfalso. unfold find_peak_sales_day in Hpeak. rewrite Htrend in Hpeak.
      destruct trend; discriminate. }
  destruct Hpeak as [[[peak_day peak_rev] count] ->]. cbn [rbind].
  (* the success rate *)
  assert (Hrate : returns (success_rate
                             (List.length (List.filter API_Match enriched_transactions))
                             enriched_transactions)).
  { unfold success_rate. destruct enriched_transactions as [| e0 enriched]; [by eexists |].
    set (enriched_transactions := e0 :: enriched) in *.
    cbn [Num.div].
    pose proof (filter_length_le API_Match enriched_transactions) as Hle.
    destruct (int_truediv_returns
                (Z.of_nat (List.length (List.filter API_Match enriched_transactions)))
                (Z.of_nat (List.length enriched_transactions)))
      as [q ->]; [lia | subst enriched_transactions; simpl in *; lia |].
    cbn [rbind]. destruct (times_hundred_returns q) as [y ->]. by eexists. }
  destruct Hrate as [rate ->]. cbn [rbind].
  by eexists.
Qed.

(** X15: on a list of validated records that is not empty, with quantities and
    list lengths in the float range, the report generator raises nothing and
    returns the report. *)
Theorem generate_sales_report_returns (transactions : list Transaction)
  (enriched_transactions : list EnrichedTransaction) :
  transactions <> [] ->
  Forall validated transactions ->
  Forall (fun t => (Quantity t < 2 ^ 1023)%Z) transactions ->
  (Z.of_nat (List.length transactions) < 2 ^ 1000)%Z ->
  (Z.of_nat (List.length enriched_transactions) < 2 ^ 1000)%Z ->
  returns (generate_sales_report transactions enriched_transactions).
Proof.
  intros Hne Hvalid Hquantities Hlen Hlen'.
  apply report_returns; try assumption.
  rewrite List.Forall_forall in *. intros t Ht.
  apply validated_amount_returns; auto.
Qed.

Lemma generate_sales_report_returns_witness :
  returns (generate_sales_report [north; north_east] [matched_north]).
Proof.
  apply (generate_sales_report_returns [north; north_east] [matched_north]).
  - discriminate.
  - repeat constructor.
  - repeat constructor.
  - reflexivity.
  - reflexivity.
Defined.

(** ** The floats the parser reads *)

Section Canonical.
Local Open Scope Z_scope.

Lemma Zdigits2_shift m p :
  0 < m -> 0 <= p < Zdigits2 m -> Zdigits2 (m / 2 ^ p) = Zdigits2 m - p.
Proof.
  intros Hm Hp.
  pose proof (Zdigits2_bounds m Hm) as [Hlo Hhi].
  assert (Hpow : 0 < 2 ^ p) by (apply Z.pow_pos_nonneg; lia).
  assert (Hge : 2 ^ (Zdigits2 m - 1 - p) <= m / 2 ^ p).
  { apply Z.div_le_lower_bound; [assumption |].
    rewrite <- Z.pow_add_r by lia.
    replace (p + (Zdigits2 m - 1 - p)) with (Zdigits2 m - 1) by lia. assumption. }
  assert (Hlt : m / 2 ^ p < 2 ^ (Zdigits2 m - p)).
  { apply Z.div_lt_upper_bound; [assumption |].
    rewrite <- Z.pow_add_r by lia.
    replace (p + (Zdigits2 m - p)) with (Zdigits2 m) by lia. assumption. }
  assert (Hk : 0 <= Zdigits2 m - 1 - p) by lia.
  pose proof (Zdigits2_above _ _ Hk Hge).
  assert (0 <= m / 2 ^ p) by (apply Z.div_pos; lia).
  pose proof (Zdigits2_below (m / 2 ^ p) (Zdigits2 m - p) ltac:(lia) ltac:(lia) Hlt).
  lia.
Qed.

(** A shift that [fexp] asks for leaves the exponent [fexp] gives and, of
    a mantissa that is not shifted out, the magnitude. *)
Lemma shr_fexp_canonical m e l :
  0 <= m -> e <= fexp Num.prec Num.emax (Zdigits2 m + e) ->
  snd (shr_fexp Num.prec Num.emax m e l) = fexp Num.prec Num.emax (Zdigits2 m + e) /\
  0 <= shr_m (fst (shr_fexp Num.prec Num.emax m e l)) /\
  (0 < shr_m (fst (shr_fexp Num.prec Num.emax m e l)) ->
   Zdigits2 (shr_m (fst (shr_fexp Num.prec Num.emax m e l))) +
     snd (shr_fexp Num.prec Num.emax m e l) = Zdigits2 m + e) /\
  (shr_m (fst (shr_fexp Num.prec Num.emax m e l)) = 0 ->
   Zdigits2 m + e <= snd (shr_fexp Num.prec Num.emax m e l)).
Proof.
  intros Hm He. unfold shr_fexp, shr.
  destruct (fexp Num.prec Num.emax (Zdigits2 m + e) - e) as [| n | n] eqn:Hn;
    cbn [fst snd]; rewrite ?shr_record_of_loc_m; try lia.
  - split; [lia |]. split; [lia |]. split; [lia |].
    intros ->. simpl in *. lia.
  - rewrite iter_shr_m by (rewrite shr_record_of_loc_m; lia).
    rewrite shr_record_of_loc_m.
    assert (Hpow : 0 < 2 ^ Z.pos n) by (apply Z.pow_pos_nonneg; lia).
    split; [lia |]. split; [apply Z.div_pos; lia |].
    destruct (Z.lt_ge_cases (Z.pos n) (Zdigits2 m)) as [Hlt | Hge].
    + destruct (Z.eq_dec m 0) as [-> | Hne]; [simpl in Hlt; lia |].
      rewrite Zdigits2_shift by lia. split; [lia |].
      intros Hzero. exfalso.
      pose proof (Zdigits2_bounds m ltac:(lia)) as [Hlo _].
      assert (2 ^ Z.pos n <= 2 ^ (Zdigits2 m - 1)) by (apply Z.pow_le_mono_r; lia).
      assert (1 <= m / 2 ^ Z.pos n) by (apply Z.div_le_lower_bound; lia).
      lia.
    + split; [| lia]. intros Hpos. exfalso.
      destruct (Z.eq_dec m 0) as [-> | Hne]; [rewrite Z.div_0_l in Hpos; lia |].
      pose proof (Zdigits2_bounds m ltac:(lia)) as [_ Hhi].
      assert (2 ^ Zdigits2 m <= 2 ^ Z.pos n) by (apply Z.pow_le_mono_r; lia).
      rewrite Z.div_small in Hpos by lia. lia.
Qed.

(** Rounding a mantissa that is not yet shifted too far gives a binary64
    value. *)
Lemma binary_round_aux_valid sx m e l :
  0 <= m -> e <= fexp Num.prec Num.emax (Zdigits2 m + e) ->
  valid_binary Num.prec Num.emax (binary_round_aux Num.prec Num.emax sx m e l) = true.
Proof.
  intros Hm He. unfold binary_round_aux.
  pose proof (shr_fexp_canonical m e l Hm He) as (He1 & Hpos1 & Hmag1 & Hout1).
  destruct (shr_fexp Num.prec Num.emax m e l) as [mrs1 e1]. cbn [fst snd] in *.
  set (m2 := round_nearest_even (shr_m mrs1) (loc_of_shr_record mrs1)).
  assert (Hm2 : shr_m mrs1 <= m2 <= shr_m mrs1 + 1)
    by (split; [apply round_nearest_even_ge | apply round_nearest_even_le]).
  assert (He1' : e1 <= fexp Num.prec Num.emax (Zdigits2 m2 + e1)).
  { destruct (Z.eq_dec (shr_m mrs1) 0) as [Hzero | Hne].
    - specialize (Hout1 Hzero). unfold fexp, emin, Num.prec, Num.emax in *. lia.
    - specialize (Hmag1 ltac:(lia)).
      pose proof (Zdigits2_mono (shr_m mrs1) m2 ltac:(lia) ltac:(lia)).
      unfold fexp, emin, Num.prec, Num.emax in *. lia. }
  pose proof (shr_fexp_canonical m2 e1 loc_Exact ltac:(lia) He1') as (He2 & Hpos2 & Hmag2 & _).
  destruct (shr_fexp Num.prec Num.emax m2 e1 loc_Exact) as [mrs2 e2]. cbn [fst snd] in *.
  destruct (shr_m mrs2) as [| m3 | m3] eqn:Hm3; [reflexivity | | reflexivity].
  destruct (Z.leb_spec e2 (Num.emax - Num.prec)) as [Hfit | Hfit]; [| reflexivity].
  cbn [valid_binary]. unfold bounded, canonical_mantissa.
  apply andb_true_iff. split; [| by apply Z.leb_le].
  apply Z.eqb_eq. specialize (Hmag2 ltac:(lia)).
  change (Z.pos (digits2_pos m3)) with (Zdigits2 (Z.pos m3)).
  rewrite Hmag2. symmetry. exact He2.
Qed.

(** The float nearest to a quotient is a binary64 value. *)
Lemma of_ratio_valid neg n d :
  valid_binary Num.prec Num.emax (Num.of_ratio neg n d) = true.
Proof.
  destruct n as [| p | p]; [reflexivity | | reflexivity].
  pose proof (Zdigits2_bounds (Z.pos p) ltac:(lia)) as [Hplo Hphi].
  pose proof (Zdigits2_bounds (Z.pos d) ltac:(lia)) as [Hdlo Hdhi].
  pose proof (Zdigits2_pos (Z.pos p) ltac:(lia)) as Hdp.
  pose proof (Zdigits2_pos (Z.pos d) ltac:(lia)) as Hdd.
  unfold Num.of_ratio, SFdiv_core_binary.
  set (d1 := Zdigits2 (Z.pos p)) in *. set (d2 := Zdigits2 (Z.pos d)) in *.
  set (e' := Z.min (fexp Num.prec Num.emax (d1 + 0 - (d2 + 0))) (0 - 0)).
  assert (He' : e' = Z.min (Z.max (d1 - d2 - 53) (-1074)) 0)
    by (unfold e', fexp, emin, Num.prec, Num.emax; lia).
  set (m' := match 0 - 0 - e' with
             | 0 => Z.pos p
             | Z.pos _ => Z.shiftl (Z.pos p) (0 - 0 - e')
             | Z.neg _ => 0
             end).
  assert (Hm' : m' = Z.pos p * 2 ^ (- e')).
  { unfold m'. destruct (0 - 0 - e') as [| s | s] eqn:Hs; try lia.
    - replace (- e') with 0 by lia. simpl. lia.
    - rewrite Z.shiftl_mul_pow2 by lia. f_equal. f_equal. lia. }
  clearbody m' e'.
  pose proof (Z_div_mod m' (Z.pos d) ltac:(lia)) as Hdiv.
  destruct (Z.div_eucl m' (Z.pos d)) as [q r]. destruct Hdiv as [Hq Hr].
  assert (Hpow : 0 < 2 ^ (- e')) by (apply Z.pow_pos_nonneg; lia).
  assert (Hlow : 2 ^ (d1 - 1 - e') <= m').
  { rewrite Hm'. replace (d1 - 1 - e') with (d1 - 1 + - e') by lia.
    rewrite Z.pow_add_r by lia. nia. }
  assert (Hq0 : 0 <= q) by nia.
  apply binary_round_aux_valid; [assumption |].
  destruct (Z.eq_dec q 0) as [-> | Hne].
  - assert (Hsmall : m' < 2 ^ d2) by lia.
    assert (Hexp : d1 - 1 - e' < d2).
    { destruct (Z.lt_ge_cases (d1 - 1 - e') d2) as [? | Hge]; [assumption | exfalso].
      assert (2 ^ d2 <= 2 ^ (d1 - 1 - e')) by (apply Z.pow_le_mono_r; lia).
      lia. }
    simpl. unfold fexp, emin, Num.prec, Num.emax. lia.
  - assert (Hdigits : d1 - d2 - e' <= Zdigits2 q).
    { destruct (Z.lt_ge_cases (d1 - 1 - e' - d2) 0) as [Hneg | Hk].
      - pose proof (Zdigits2_pos q ltac:(lia)). lia.
      - assert (Hle : 2 ^ (d1 - 1 - e' - d2) <= q).
        { assert (Hsplit : 2 ^ (d1 - 1 - e') = 2 ^ (d1 - 1 - e' - d2) * 2 ^ d2).
          { rewrite <- Z.pow_add_r by lia. f_equal. lia. }
          assert (0 < 2 ^ (d1 - 1 - e' - d2)) by (apply Z.pow_pos_nonneg; lia).
          destruct (Z.le_gt_cases (2 ^ (d1 - 1 - e' - d2)) q) as [? | Hgt];
            [assumption | exfalso].
          nia. }
        pose proof (Zdigits2_above _ _ Hk Hle). lia. }
    unfold fexp, emin, Num.prec, Num.emax. lia.
Qed.

End Canonical.

(** [float(s)] gives a binary64 value. *)
Lemma float_of_str_valid s x :
  Num.float_of_str s = Some x -> valid_binary Num.prec Num.emax x = true.
Proof.
  unfold Num.float_of_str. destruct (Num.drop_underscores _ _) as [t |]; [| discriminate].
  assert (Hdecimal : forall neg u, Num.decimal neg u = Some x ->
                                   valid_binary Num.prec Num.emax x = true).
  { intros neg u. unfold Num.decimal.
    destruct (Num.take_digits u 0 0) as [[ip ni] r1].
    destruct (match r1 with
              | String "." r => Num.take_digits r ip 0
              | _ => (ip, 0%Z, r1)
              end) as [[mant nf] r2].
    destruct (ni + nf =? 0)%Z; [discriminate |].
    destruct (Num.exponent r2) as [e |]; simpl; [| discriminate].
    intros [= <-]. unfold Num.of_decimal.
    destruct (0 <=? e - nf)%Z; apply of_ratio_valid. }
  assert (Hunsigned : forall neg u, Num.unsigned_float neg u = Some x ->
                                    valid_binary Num.prec Num.emax x = true).
  { intros neg u. unfold Num.unsigned_float.
    destruct (String.eqb _ _ || String.eqb _ _); [by intros [= <-] |].
    destruct (String.eqb _ _); [by intros [= <-] |].
    apply Hdecimal. }
  unfold Num.signed_float.
  destruct t as [| c u]; [apply Hunsigned |].
  destruct (Ascii.eqb_spec c "-") as [-> | Hminus]; [apply Hunsigned |].
  destruct (Ascii.eqb_spec c "+") as [-> | Hplus]; [apply Hunsigned |].
  intros H. apply (Hunsigned false (String c u)).
  destruct c as [[] [] [] [] [] [] [] []]; try exact H; congruence.
Qed.

(** ** A run that ends with a report *)

Lemma parse_step_price acc line :
  parse_step acc line = Ok acc \/
  exists tx, parse_step acc line = Ok (acc ++ [tx]) /\
             valid_binary Num.prec Num.emax (UnitPrice tx) = true.
Proof.
  destruct (parse_step_clean acc line) as [? | (tx & Hstep & _)]; [by left | right].
  exists tx. split; [assumption |].
  revert Hstep. unfold parse_step.
  destruct (negb _).
  - intros [= H]. apply (f_equal (@List.length _)) in H.
    rewrite length_app in H. simpl in H. lia.
  - destruct (build_transaction _) as [t | []] eqn:Hbuild; try discriminate.
    + intros [= H]. apply app_inj_tail in H as [_ ->].
      revert Hbuild. unfold build_transaction, int_or_raise, float_or_raise.
      destruct (Num.int _); simpl; [| discriminate].
      destruct (Num.float_of_str _) as [x |] eqn:Hx; simpl; [| discriminate].
      intros [= <-]. simpl. by eapply float_of_str_valid.
    + intros [= H]. apply (f_equal (@List.length _)) in H.
      rewrite length_app in H. simpl in H. lia.
Qed.

(** The prices of the parser are binary64 values. *)
Lemma parse_prices raw_lines parsed_data :
  parse_transactions raw_lines = Ok parsed_data ->
  Forall (fun t => valid_binary Num.prec Num.emax (UnitPrice t) = true) parsed_data.
Proof.
  unfold parse_transactions.
  assert (Hloop : forall lines acc r,
            Forall (fun t => valid_binary Num.prec Num.emax (UnitPrice t) = true) acc ->
            for_each parse_step lines acc = Ok r ->
            Forall (fun t => valid_binary Num.prec Num.emax (UnitPrice t) = true) r).
  { induction lines as [| line lines IH]; intros acc r Hacc; simpl.
    - by intros [= <-].
    - destruct (parse_step_price acc line) as [-> | (tx & -> & Htx)]; simpl.
      + by apply IH.
      + apply IH. apply Forall_app. split; [assumption | by repeat constructor]. }
  apply Hloop. constructor.
Qed.

Lemma passes_validated region min_amount max_amount t :
  passes region min_amount max_amount t = true ->
  valid_binary Num.prec Num.emax (UnitPrice t) = true ->
  validated t.
Proof.
  unfold passes, validated. rewrite !andb_true_iff. tauto.
Qed.

(** X19: when the answers at the prompt can be read, the quantities and the
    number of lines are in the float range, and at least one parsed record
    passes the checks and the filters asked for, the run ends with a report,
    and the enriched file holds the rows of exactly the records that pass, in
    their order. *)
Theorem main_returns (raw_lines : list string) (answers : Answers)
  (mapping : gmap Z CatalogEntry) (parsed_data : list Transaction)
  (filters : option string * option Num.float) :
  parse_transactions raw_lines = Ok parsed_data ->
  asked_filters answers = Ok filters ->
  Forall (fun t => (- 2 ^ 1023 < Quantity t < 2 ^ 1023)%Z) parsed_data ->
  (Z.of_nat (List.length raw_lines) < 2 ^ 1000)%Z ->
  List.filter (passes (fst filters) (snd filters) None) parsed_data <> [] ->
  exists rep,
    main raw_lines answers mapping =
    Ok (Some {| enriched_file :=
                  save_enriched_data
                    (enrich_sales_data
                       (List.filter (passes (fst filters) (snd filters) None) parsed_data)
                       mapping);
                report := rep |}).
Proof.
  intros Hparse Hfilters Hquantities Hlen Hsome.
  set (clean_tx := List.filter (passes (fst filters) (snd filters) None) parsed_data) in *.
  assert (Hamounts : Forall (fun t => returns (amount t)) parsed_data).
  { eapply List.Forall_impl; [| exact Hquantities].
    intros t Ht. simpl in Ht. unfold amount.
    destruct (of_int_returns (Quantity t) Ht) as [q ->]. by eexists. }
  destruct (parse_transactions_returns raw_lines) as (parsed' & Hparse' & _ & Hcount).
  rewrite Hparse in Hparse'. injection Hparse' as <-.
  assert (Hne : raw_lines <> []).
  { intros ->. injection Hparse as <-. by apply Hsome. }
  rewrite main_steps by assumption. rewrite Hparse. cbn [rbind].
  (* the amount range *)
  unfold amounts_of.
  rewrite (for_each_amount_returns (fun acc (t : Transaction) a => acc ++ [a])
             parsed_data Hamounts []).
  rewrite (fold_left_append amount_of parsed_data []). cbn [rbind app].
  assert (Hrange : returns (min_max (map amount_of parsed_data))).
  { destruct parsed_data as [| t txs]; [by contradiction Hsome | by eexists]. }
  destruct Hrange as [range ->]. cbn [rbind]. rewrite Hfilters. cbn [rbind].
  (* the validator *)
  rewrite validate_and_filter_unfold. cbn zeta.
  rewrite apply_filters_ok by (right; by apply Forall_filter).
  cbn [rbind fst].
  assert (Hclean : List.filter (fun t => region_ok (fst filters) t &&
                                         min_ok (snd filters) t && max_ok None t)
                     (List.filter is_valid parsed_data) = clean_tx).
  { rewrite filter_filter. apply filter_ext_Forall, List.Forall_forall.
    intros t _. unfold passes. by rewrite !andb_assoc. }
  rewrite Hclean.
  (* the report *)
  assert (Hlength : List.length clean_tx <= List.length parsed_data)
    by apply filter_length_le.
  destruct (report_returns clean_tx (enrich_sales_data clean_tx mapping)) as [rep Hrep].
  - assumption.
  - pose proof (parse_prices raw_lines parsed_data Hparse) as Hprices.
    rewrite List.Forall_forall in *. intros t Ht.
    apply filter_In in Ht as [Ht Hpass].
    apply (passes_validated _ _ _ t Hpass). by apply Hprices.
  - by apply Forall_filter.
  - lia.
  - rewrite enrich_sales_data_map, length_map. lia.
  - rewrite Hrep. cbn [rbind]. by exists rep.
Qed.

Lemma main_returns_witness :
  exists rep,
    main [north_line] no_filter (<[1%Z := entry_tools]> ∅) =
    Ok (Some {| enriched_file :=
                  save_enriched_data
                    (enrich_sales_data (List.filter (passes None None None) [north])
                       (<[1%Z := entry_tools]> ∅));
                report := rep |}).
Proof.
  apply (main_returns [north_line] no_filter (<[1%Z := entry_tools]> ∅) [north]
           (None, None)).
  - vm_compute. reflexivity.
  - reflexivity.
  - repeat constructor.
  - reflexivity.
  - discriminate.
Defined.

(** X20: a run ends with [TypeError] exactly when records were parsed and
    their amounts computed, the answers at the prompt were read, and no record
    passed the checks and the filters asked for: the report generator is then
    called on the empty list. *)
Theorem main_type_error (raw_lines : list string) (answers : Answers)
  (mapping : gmap Z CatalogEntry) :
  main raw_lines answers mapping = Raise TypeError <->
  exists parsed_data filters invalid_count summary,
    parse_transactions raw_lines = Ok parsed_data /\
    parsed_data <> [] /\
    returns (amounts_of parsed_data) /\
    asked_filters answers = Ok filters /\
    validate_and_filter parsed_data (fst filters) (snd filters) None =
      Ok ([], invalid_count, summary).
Proof.
  assert (Hfilters : forall e, asked_filters answers = Raise e -> e = ValueError).
  { intros e. unfold asked_filters, float_or_raise.
    destruct (String.eqb _ _); [| discriminate].
    destruct (Str.strip (min_answer answers)); [discriminate |].
    destruct (Num.float_of_str _); simpl; congruence. }
  split.
  - intros Hrun. destruct raw_lines as [| line lines]; [discriminate |].
    rewrite main_steps in Hrun by discriminate.
    destruct (parse_transactions_returns (line :: lines)) as (parsed_data & Hparse & _).
    rewrite Hparse in Hrun. cbn [rbind] in Hrun.
    pose proof (amounts_of_cases parsed_data) as Hamounts.
    destruct (amounts_of parsed_data) as [amounts | e] eqn:Ha; cbn [rbind] in Hrun;
      [| congruence].
    destruct amounts as [| a amounts]; [discriminate |].
    cbn [min_max rbind] in Hrun.
    destruct (asked_filters answers) as [filters | e] eqn:Hf; cbn [rbind] in Hrun;
      [| specialize (Hfilters _ eq_refl); congruence].
    pose proof (validate_and_filter_cases parsed_data (fst filters) (snd filters) None)
      as Hcases.
    destruct (validate_and_filter _ _ _ _) as [[[clean_tx inv] s] | e] eqn:Hvalid;
      cbn [rbind fst] in Hrun; [| congruence].
    destruct (generate_sales_report _ _) as [rep | e] eqn:Hrep; cbn [rbind] in Hrun;
      [discriminate |].
    injection Hrun as ->.
    apply generate_sales_report_raises in Hrep
      as [[_ ->] | (_ & [? | [? _]])]; try discriminate.
    exists parsed_data, filters, inv, s.
    split; [assumption |]. split; [by destruct parsed_data |].
    split; [by eexists |]. split; [reflexivity | assumption].
  - intros (parsed_data & filters & inv & s & Hparse & Hne & [amounts Ha] & Hf & Hvalid).
    assert (Hraw : raw_lines <> []).
    { intros ->. injection Hparse as <-. by apply Hne. }
    rewrite main_steps by assumption.
    rewrite Hparse. cbn [rbind]. rewrite Ha. cbn [rbind].
    pose proof (amounts_of_cases parsed_data) as Hamounts. rewrite Ha in Hamounts.
    destruct amounts as [| a amounts]; [by destruct parsed_data |].
    cbn [min_max rbind]. rewrite Hf. cbn [rbind]. rewrite Hvalid. reflexivity.
Qed.

(** *** The filters a run asks for *)

(** X21: the answers at the prompt give filters, or [ValueError] for a minimum
    amount that is not blank and does not read. Without the answer "y" or "Y"
    no filter is set. With it, the region is the region answer without its
    surrounding whitespace, or none when that is blank, and the minimum
    amount is what [float] reads in the answer without its surrounding
    whitespace, or none when that is blank. So a region that is set is never
    the empty string, and in a run the region filter is exact equality; a
    minimum amount that is set is a binary64 value. *)
Theorem asked_filters_spec (answers : Answers) :
  match asked_filters answers with
  | Ok (region, min_amount) =>
      region <> Some "" /\
      (forall t, region_ok region t = region_equal region t) /\
      (forall lo, min_amount = Some lo ->
                  valid_binary Num.prec Num.emax lo = true) /\
      (if String.eqb (Num.lowercase (do_filter answers)) "y" then
         region = (if String.eqb (Str.strip (region_answer answers)) ""
                   then None else Some (Str.strip (region_answer answers))) /\
         (if String.eqb (Str.strip (min_answer answers)) ""
          then min_amount = None
          else min_amount <> None /\
               Num.float_of_str (Str.strip (min_answer answers)) = min_amount)
       else region = None /\ min_amount = None)
  | Raise e =>
      e = ValueError /\
      Num.lowercase (do_filter answers) = "y" /\
      Str.strip (min_answer answers) <> "" /\
      Num.float_of_str (Str.strip (min_answer answers)) = None
  end.
Proof.
  unfold asked_filters, float_or_raise, or_none.
  destruct (String.eqb_spec (Num.lowercase (do_filter answers)) "y") as [Hy | Hy].
  - assert (Hregion : forall region,
              region = match Str.strip (region_answer answers) with
                       | "" => None
                       | String c r => Some (String c r)
                       end ->
              region <> Some "" /\
              (forall t, region_ok region t = region_equal region t) /\
              region = (if String.eqb (Str.strip (region_answer answers)) ""
                        then None else Some (Str.strip (region_answer answers)))).
    { intros region ->.
      destruct (Str.strip (region_answer answers)) as [| c r].
      - split; [discriminate |]. split; reflexivity.
      - split; [discriminate |]. split; reflexivity. }
    destruct (Str.strip (min_answer answers)) as [| c s] eqn:Hmin.
    + destruct (Hregion _ eq_refl) as (H1 & H2 & H3).
      split; [assumption |]. split; [assumption |].
      split; [discriminate |]. split; [assumption | reflexivity].
    + destruct (Num.float_of_str (String c s)) as [lo |] eqn:Hlo; cbn [rbind].
      * destruct (Hregion _ eq_refl) as (H1 & H2 & H3).
        split; [assumption |]. split; [assumption |].
        split; [intros lo' [= <-]; by apply (float_of_str_valid (String c s)) |].
        split; [assumption |].
        change (String.eqb (String c s) "") with false. cbv iota.
        split; [discriminate | reflexivity].
      * split; [reflexivity |]. split; [assumption |].
        split; [discriminate | reflexivity].
  - split; [discriminate |]. split; [reflexivity |].
    split; [discriminate |]. split; reflexivity.
Qed.
